(** * DGL recommendation tutorial: a shallow embedding of the notebooks

    The notebooks under [advanced_apps/rec] are sequential scripts on top of
    PyTorch, DGL, NumPy and SciPy.  Tensors are modelled as lists (a matrix is
    a list of rows), Python integers as [Z] or [nat] (indices), and scalar
    floating-point arithmetic as an abstract carrier with uninterpreted
    operations, applied in the order in which the code applies them.  Library
    calls that can raise (shape mismatch, index out of range, failed
    assertion) return [option]. *)

From Stdlib Require Import ZArith QArith Lia Ascii.
From stdpp Require Import base list gmap sets strings pretty.

(** ** GraphSAGEModel (both notebooks) *)

Module GraphSAGE.

Section Model.
(** [Act] is the type of activation functions, [Agg] of aggregator names,
    [Drop] of dropout rates. *)
Context {Act Agg Drop : Type}.

(** The arguments a [SAGEConv] layer is constructed with. *)
Record SAGEConv : Type := mkSAGEConv {
  conv_in_feats : Z;
  conv_out_feats : Z;
  conv_aggregator_type : Agg;
  conv_feat_drop : Drop;
  conv_activation : option Act
}.

(** [GraphSAGEModel.__init__]: the contents of [self.layers]. *)
Definition init_layers (in_feats n_hidden out_dim n_layers : Z)
    (activation : Act) (dropout : Drop) (aggregator_type : Agg) : list SAGEConv :=
  if (n_layers =? 1)%Z then
    [mkSAGEConv in_feats out_dim aggregator_type dropout None]
  else if (n_layers >? 1)%Z then
    [mkSAGEConv in_feats n_hidden aggregator_type dropout (Some activation)]
    ++ repeat (mkSAGEConv n_hidden n_hidden aggregator_type dropout (Some activation))
              (Z.to_nat (n_layers - 2))
    ++ [mkSAGEConv n_hidden out_dim aggregator_type dropout None]
  else [].

(** The graph, the feature tensor and the edge data are framework objects. *)
Context {Graph Tensor EData : Type}.
(** [layer(g, h)] and [layer(g, h, g.edata['similarity'])]. *)
Variable call2 : SAGEConv -> Graph -> Tensor -> Tensor.
Variable call3 : SAGEConv -> Graph -> Tensor -> EData -> Tensor.
Variable edata_similarity : Graph -> EData.
(** The module applied after the layers: [self.norm] in the FISM notebook,
    [self.proj] in the retail notebook. *)
Variable final : Tensor -> Tensor.
(** The notebook global [use_edge_similarity] (the retail notebook always
    passes the similarity). *)
Variable use_edge_similarity : bool.

Definition apply_layer (g : Graph) (h : Tensor) (layer : SAGEConv) : Tensor :=
  if use_edge_similarity then call3 layer g h (edata_similarity g)
  else call2 layer g h.

(** The [for layer in self.layers] loop of [forward]. *)
Fixpoint run_layers (layers : list SAGEConv) (g : Graph) (h : Tensor) : Tensor :=
  match layers with
  | [] => h
  | layer :: rest => run_layers rest g (apply_layer g h layer)
  end.

(** [GraphSAGEModel.forward]. *)
Definition forward (layers : list SAGEConv) (g : Graph) (features : Tensor) : Tensor :=
  final (run_layers layers g features).

Lemma run_layers_app l1 l2 g h :
  run_layers (l1 ++ l2) g h = run_layers l2 g (run_layers l1 g h).
Proof. revert h. induction l1 as [|a l1 IH]; intros h; simpl; [done | apply IH]. Qed.

Lemma init_layers_length in_feats n_hidden out_dim n_layers act dr ag :
  (1 <= n_layers)%Z ->
  length (init_layers in_feats n_hidden out_dim n_layers act dr ag) = Z.to_nat n_layers.
Proof.
  intros Hn. unfold init_layers.
  destruct (Z.eqb_spec n_layers 1) as [->|Hne]; [done|].
  destruct (Z.gtb_spec n_layers 1) as [Hgt|Hle]; [|lia].
  simpl. rewrite length_app, repeat_length. simpl. lia.
Qed.

Lemma run_layers_fold (layers : list SAGEConv) (g : Graph) : forall h,
  run_layers layers g h
  = fold_left (fun h layer => if use_edge_similarity
                              then call3 layer g h (edata_similarity g)
                              else call2 layer g h) layers h.
Proof. induction layers as [|layer layers IH]; intros h; [done|]. apply IH. Qed.

(** C5: a model built with [n_layers >= 1] holds exactly [n_layers] layers.
    With [n_layers = 1] it is one [in_feats]-to-[out_dim] layer without
    activation and [forward] is the final module on that layer's output;
    with [n_layers >= 2] it is an input layer, [n_layers - 2] hidden layers
    and an output layer, and [forward] calls the input layer on the
    features, the hidden layers one after the other on the result, the
    output layer on theirs, and the final module last.  Every call is
    [layer(g, h, g.edata['similarity'])] when [use_edge_similarity] holds
    and [layer(g, h)] otherwise.  With [n_layers = 0] the list is empty and
    [forward] is the final module on the input features whatever the
    graph. *)
Theorem GraphSAGEModel_layers_forward
    (in_feats n_hidden out_dim n_layers : Z) (act : Act) (dr : Drop) (ag : Agg) :
  let layers := init_layers in_feats n_hidden out_dim n_layers act dr ag in
  let call := fun (g : Graph) (h : Tensor) (layer : SAGEConv) =>
                if use_edge_similarity then call3 layer g h (edata_similarity g)
                else call2 layer g h in
  let input := mkSAGEConv in_feats n_hidden ag dr (Some act) in
  let hidden := mkSAGEConv n_hidden n_hidden ag dr (Some act) in
  let output := mkSAGEConv n_hidden out_dim ag dr None in
  ((1 <= n_layers)%Z -> length layers = Z.to_nat n_layers) /\
  (n_layers = 1%Z ->
     layers = [mkSAGEConv in_feats out_dim ag dr None] /\
     forall g h, forward layers g h
                 = final (call g h (mkSAGEConv in_feats out_dim ag dr None))) /\
  ((2 <= n_layers)%Z ->
     layers = input :: repeat hidden (Z.to_nat n_layers - 2) ++ [output] /\
     forall g h,
       forward layers g h
       = final (call g (fold_left (call g) (repeat hidden (Z.to_nat n_layers - 2))
                                  (call g h input))
                       output)) /\
  (forall g h, forward layers g h = final (fold_left (call g) layers h)) /\
  (n_layers = 0%Z -> layers = [] /\ forall g g' h, forward layers g h = final h
                                             /\ forward layers g' h = final h).
Proof.
  intros layers call input hidden output.
  assert (forall g h, forward layers g h = final (fold_left (call g) layers h)) as Hfold.
  { intros g h. unfold forward. by rewrite run_layers_fold. }
  split; [apply init_layers_length|]. split; [|split; [|split; [exact Hfold|]]].
  - intros ->. split; [done|]. intros g h. by rewrite Hfold.
  - intros Hn.
    assert (layers = input :: repeat hidden (Z.to_nat n_layers - 2) ++ [output]) as Hl.
    { subst layers. unfold init_layers.
      destruct (Z.eqb_spec n_layers 1) as [->|Hne]; [lia|].
      destruct (Z.gtb_spec n_layers 1) as [Hgt|Hle]; [|lia].
      simpl. do 3 f_equal. lia. }
    split; [exact Hl|]. intros g h.
    rewrite Hfold, Hl. cbn [fold_left]. by rewrite fold_left_app.
  - intros ->. split; [done|]. intros g g' h. by rewrite !Hfold.
Qed.
End Model.

End GraphSAGE.

(** A three-layer model over a tensor type that records the calls: every
    layer appends its output width plus the similarity it is handed, the
    final module appends [-1]. *)
Lemma GraphSAGEModel_layers_forward_witness :
  (2 <= 3)%Z /\
  GraphSAGE.forward (Agg:=unit) (Drop:=unit) (Act:=unit)
    (fun layer (g : Z) (h : list Z) => h ++ [GraphSAGE.conv_out_feats layer])
    (fun layer (g : Z) (h : list Z) (e : Z) => h ++ [GraphSAGE.conv_out_feats layer + e]%Z)
    (fun g => g) (fun h => h ++ [(-1)%Z]) true
    (GraphSAGE.init_layers 3 5 7 3 tt tt tt) 100%Z []
  = [105; 105; 107; -1]%Z.
Proof.
  split; [lia|].
  destruct (GraphSAGE.GraphSAGEModel_layers_forward
              (Act:=unit) (Agg:=unit) (Drop:=unit) (Graph:=Z) (Tensor:=list Z) (EData:=Z)
              (fun layer g h => h ++ [GraphSAGE.conv_out_feats layer])
              (fun layer g h e => h ++ [GraphSAGE.conv_out_feats layer + e]%Z)
              (fun g => g) (fun h => h ++ [(-1)%Z]) true
              3 5 7 3 tt tt tt) as (_ & _ & Hmany & _).
  destruct (Hmany ltac:(lia)) as [_ Hforward].
  rewrite Hforward. reflexivity.
Defined.

(** ** The training loops (last code cell of each notebook) *)

Module TrainingLoop.

Section Loop.
(** [Model] is the whole mutable training state (parameters, optimizer
    state, train/eval mode), [Batch] what the edge sampler yields. *)
Context {Model Batch Metric : Type}.
(** The batches the freshly created edge sampler yields in an epoch. *)
Variable sampler : nat -> list Batch.
(** [model.train()] at the start of an epoch. *)
Variable set_train : Model -> Model.
(** One loop body: loss, [zero_grad], [backward], [optimizer.step]. *)
Variable update : Model -> Batch -> Model.
(** The evaluation calls that follow the batch loop, in order ([RecEval]
    and [RecEvalAll], or the easy and hard [RecEvaluate]); each may switch
    the model to eval mode. *)
Variable evals : list (Model -> Model * Metric).

Inductive event : Type :=
| Step (epoch batch : nat)
| Eval (epoch call : nat) (result : Metric).

Definition epoch_of (ev : event) : nat :=
  match ev with Step e _ => e | Eval e _ _ => e end.

Definition is_step (ev : event) : bool :=
  match ev with Step _ _ => true | Eval _ _ _ => false end.

Record state : Type := mkState { model : Model; log : list event }.

(** [for batch in sampler: ...], logging each completed optimizer step. *)
Fixpoint run_batches (epoch i : nat) (bs : list Batch) (st : state) : state :=
  match bs with
  | [] => st
  | b :: rest =>
      run_batches epoch (S i) rest
        (mkState (update (model st) b) (log st ++ [Step epoch i]))
  end.

Fixpoint run_evals (epoch k : nat) (evs : list (Model -> Model * Metric))
    (st : state) : state :=
  match evs with
  | [] => st
  | ev :: rest =>
      let '(m, r) := ev (model st) in
      run_evals epoch (S k) rest (mkState m (log st ++ [Eval epoch k r]))
  end.

(** The body of [for epoch in range(n_epochs)]. *)
Definition run_epoch (st : state) (epoch : nat) : state :=
  let st1 := mkState (set_train (model st)) (log st) in
  let st2 := run_batches epoch 0 (sampler epoch) st1 in
  run_evals epoch 0 evals st2.

Definition train (n_epochs : nat) (m0 : Model) : state :=
  fold_left run_epoch (seq 0 n_epochs) (mkState m0 []).

(** Closed forms of the log and of the model. *)
Definition steps_log (epoch i len : nat) : list event :=
  map (Step epoch) (seq i len).

Fixpoint evals_log (epoch k : nat) (evs : list (Model -> Model * Metric))
    (m : Model) : list event :=
  match evs with
  | [] => []
  | ev :: rest => Eval epoch k (ev m).2 :: evals_log epoch (S k) rest (ev m).1
  end.

Fixpoint evals_model (evs : list (Model -> Model * Metric)) (m : Model) : Model :=
  match evs with
  | [] => m
  | ev :: rest => evals_model rest (ev m).1
  end.

(** The model once every batch of [epoch] has been applied to [m]. *)
Definition after_batches (epoch : nat) (m : Model) : Model :=
  fold_left update (sampler epoch) (set_train m).

Definition epoch_log (epoch : nat) (m : Model) : list event :=
  steps_log epoch 0 (length (sampler epoch))
  ++ evals_log epoch 0 evals (after_batches epoch m).

Lemma run_batches_spec epoch bs : forall i st,
  run_batches epoch i bs st
  = mkState (fold_left update bs (model st))
            (log st ++ steps_log epoch i (length bs)).
Proof.
  induction bs as [|b bs IH]; intros i [m l]; simpl.
  - unfold steps_log. simpl. by rewrite app_nil_r.
  - rewrite IH. simpl. unfold steps_log. simpl. by rewrite <- app_assoc.
Qed.

Lemma run_evals_spec epoch evs : forall k st,
  run_evals epoch k evs st
  = mkState (evals_model evs (model st))
            (log st ++ evals_log epoch k evs (model st)).
Proof.
  induction evs as [|ev evs IH]; intros k [m l]; simpl.
  - by rewrite app_nil_r.
  - destruct (ev m) as [m' r] eqn:E. rewrite IH. simpl. by rewrite <- app_assoc.
Qed.

Lemma run_epoch_spec st epoch :
  run_epoch st epoch
  = mkState (evals_model evals (after_batches epoch (model st)))
            (log st ++ epoch_log epoch (model st)).
Proof.
  unfold run_epoch. rewrite run_batches_spec, run_evals_spec. simpl.
  unfold epoch_log, after_batches. by rewrite <- app_assoc.
Qed.

Lemma train_S n m0 : train (S n) m0 = run_epoch (train n m0) n.
Proof. unfold train. by rewrite seq_S, fold_left_app. Qed.

Lemma train_log n m0 :
  log (train n m0)
  = flat_map (fun e => epoch_log e (model (train e m0))) (seq 0 n).
Proof.
  induction n as [|n IH]; [done|].
  rewrite train_S, run_epoch_spec. simpl log.
  rewrite seq_S, flat_map_app, IH. simpl. by rewrite app_nil_r.
Qed.

Lemma steps_log_epoch epoch i len :
  Forall (fun ev => epoch_of ev = epoch /\ is_step ev = true) (steps_log epoch i len).
Proof. unfold steps_log. apply Forall_map, Forall_forall. done. Qed.

Lemma evals_log_epoch epoch evs : forall k m,
  Forall (fun ev => epoch_of ev = epoch /\ is_step ev = false) (evals_log epoch k evs m).
Proof. induction evs as [|ev evs IH]; intros k m; simpl; constructor; auto. Qed.

Lemma evals_log_length epoch evs : forall k m,
  length (evals_log epoch k evs m) = length evs.
Proof. induction evs as [|ev evs IH]; intros k m; simpl; auto. Qed.

Lemma epoch_log_epoch epoch m :
  Forall (fun ev => epoch_of ev = epoch) (epoch_log epoch m).
Proof.
  unfold epoch_log. apply Forall_app. split.
  - eapply Forall_impl; [apply steps_log_epoch|]. by intros ? [? _].
  - eapply Forall_impl; [apply evals_log_epoch|]. by intros ? [? _].
Qed.

Lemma flat_map_epochs (P : nat -> Prop) (f : nat -> Model) (es : list nat) :
  Forall P es ->
  Forall (fun ev => P (epoch_of ev)) (flat_map (fun e => epoch_log e (f e)) es).
Proof.
  induction 1 as [|e es He Hes IH]; simpl; [constructor|].
  apply Forall_app. split; [|done].
  eapply Forall_impl; [apply epoch_log_epoch|]. by intros ev ->.
Qed.

(** C9: in the log of a run of [n_epochs] epochs, the events of every
    epoch [e] form one contiguous block: first one optimizer step per batch
    the sampler produced, in order, then the epoch's evaluations; every
    event before the block belongs to an earlier epoch and every event
    after it to a later one, and the evaluations are computed on the model
    obtained after the last batch update of that epoch. *)
Theorem training_loop_sequential (n_epochs : nat) (m0 : Model) (e : nat) :
  e < n_epochs ->
  exists pre steps evs post,
    log (train n_epochs m0) = pre ++ steps ++ evs ++ post /\
    steps = map (Step e) (seq 0 (length (sampler e))) /\
    evs = evals_log e 0 evals (after_batches e (model (train e m0))) /\
    length evs = length evals /\
    Forall (fun ev => epoch_of ev = e /\ is_step ev = false) evs /\
    Forall (fun ev => epoch_of ev < e) pre /\
    Forall (fun ev => e < epoch_of ev) post.
Proof.
  intros He.
  exists (flat_map (fun e' => epoch_log e' (model (train e' m0))) (seq 0 e)),
         (steps_log e 0 (length (sampler e))),
         (evals_log e 0 evals (after_batches e (model (train e m0)))),
         (flat_map (fun e' => epoch_log e' (model (train e' m0)))
                   (seq (S e) (n_epochs - S e))).
  split; [|split; [done|split; [done|split; [apply evals_log_length|split;
           [apply evals_log_epoch|split]]]]].
  - rewrite train_log.
    replace n_epochs with (e + S (n_epochs - S e)) at 1 by lia.
    rewrite seq_app, flat_map_app. simpl. unfold epoch_log at 2.
    by rewrite <- !app_assoc.
  - apply (flat_map_epochs (fun e' => e' < e)).
    apply Forall_forall. intros x Hx%list_elem_of_In%in_seq. lia.
  - apply (flat_map_epochs (fun e' => e < e')).
    apply Forall_forall. intros x Hx%list_elem_of_In%in_seq. lia.
Qed.
End Loop.

End TrainingLoop.

(** Two epochs of two and one batches over a counter model with two
    evaluation calls: the log is step, step, eval, eval, step, eval, eval,
    and the block of epoch 0 is its first four events. *)
Lemma training_loop_sequential_witness :
  0 < 2 /\
  exists pre post,
    TrainingLoop.log
      (TrainingLoop.train (Model:=nat) (Batch:=nat) (Metric:=nat)
         (fun e => if e =? 0 then [5; 7] else [9]) (fun m => m) Nat.add
         [fun m => (m, m); fun m => (m, 2 * m)] 2 0)
    = pre ++ [TrainingLoop.Step 0 0; TrainingLoop.Step 0 1]
          ++ [TrainingLoop.Eval 0 0 12; TrainingLoop.Eval 0 1 24] ++ post.
Proof.
  split; [lia|].
  destruct (TrainingLoop.training_loop_sequential (Model:=nat) (Batch:=nat) (Metric:=nat)
       (fun e => if e =? 0 then [5; 7] else [9]) (fun m => m) Nat.add
       [fun m => (m, m); fun m => (m, 2 * m)] 2 0 0 ltac:(lia))
    as (pre & steps & evs & post & Hlog & -> & -> & _).
  exists pre, post. exact Hlog.
Defined.

(** ** Tensor operations shared by the notebooks *)

Module Tensor.

Section Shape.
Context {A : Type}.

(** [rows] consecutive chunks of [n] elements. *)
Fixpoint chunks (rows n : nat) (l : list A) : list (list A) :=
  match rows with
  | 0 => []
  | S k => take n l :: chunks k n (drop n l)
  end.

(** [t.reshape((-1, n))] on the row-major data [l] of [t]: an error when
    [n] is zero or does not divide the number of elements. *)
Definition reshape (n : nat) (l : list A) : option (list (list A)) :=
  if n =? 0 then None
  else if length l mod n =? 0 then Some (chunks (length l / n) n l)
  else None.

(** [t.unsqueeze(1)] of a vector and the data of a tensor of shape [(L, 1)]. *)
Definition column (l : list A) : list (list A) := map (fun x => [x]) l.

Lemma concat_column l : concat (column l) = l.
Proof. induction l as [|x l IH]; simpl; [done|by rewrite IH]. Qed.

Lemma length_column l : length (column l) = length l.
Proof. apply length_map. Qed.

Lemma length_concat_rect (n : nat) (m : list (list A)) :
  Forall (fun row => length row = n) m -> length (concat m) = length m * n.
Proof.
  induction 1 as [|row m Hrow Hm IH]; simpl; [done|].
  rewrite length_app, IH, Hrow. lia.
Qed.

Lemma chunks_concat (n : nat) (m : list (list A)) :
  Forall (fun row => length row = n) m -> chunks (length m) n (concat m) = m.
Proof.
  induction 1 as [|row m Hrow Hm IH]; simpl; [done|].
  rewrite take_app_length' by done. rewrite drop_app_length' by done. by rewrite IH.
Qed.

(** Reshaping the row-major data of a rectangular matrix gives it back. *)
Lemma reshape_concat (n : nat) (m : list (list A)) :
  0 < n -> Forall (fun row => length row = n) m -> reshape n (concat m) = Some m.
Proof.
  intros Hn Hm. unfold reshape.
  destruct (Nat.eqb_spec n 0) as [->|_]; [lia|].
  rewrite (length_concat_rect n m Hm).
  rewrite Nat.Div0.mod_mul. simpl.
  rewrite Nat.div_mul by lia. by rewrite chunks_concat.
Qed.
End Shape.

Lemma reshape_one {A} (l : list A) : reshape 1 l = Some (column l).
Proof.
  rewrite <- (concat_column l) at 1.
  apply reshape_concat; [lia|].
  unfold column. apply Forall_forall. by intros row (x & -> & _)%list_elem_of_fmap.
Qed.

Section Broadcast.
Context {A B C : Type}.

(** An elementwise binary operation with NumPy/PyTorch broadcasting along
    one dimension: equal sizes pair up, a size-one operand is repeated,
    anything else is a shape error. *)
Definition bcast (f : A -> B -> option C) (a : list A) (b : list B) : option (list C) :=
  if decide (length a = length b) then mapM (fun p => f p.1 p.2) (zip a b)
  else match a, b with
       | [x], _ => mapM (f x) b
       | _, [y] => mapM (fun x => f x y) a
       | _, _ => None
       end.

Definition lift2 (f : A -> B -> C) (x : A) (y : B) : option C := Some (f x y).

Lemma mapM_Some_map {X Y} (g : X -> Y) (l : list X) :
  mapM (fun x => Some (g x)) l = Some (map g l).
Proof. induction l as [|x l IH]; simpl; [done|]. by rewrite IH. Qed.

Lemma bcast_lift2_same (f : A -> B -> C) a b :
  length a = length b -> bcast (lift2 f) a b = Some (zip_with f a b).
Proof.
  intros Hl. unfold bcast. rewrite decide_True by done.
  unfold lift2. rewrite mapM_Some_map. f_equal.
  clear Hl. revert b. induction a as [|x a IH]; intros [|y b]; simpl; try done.
  by rewrite IH.
Qed.

End Broadcast.

(** A matrix against a column of the same height: every entry of a row
    meets that row's single column entry. *)
Lemma bcast_rows_column {A B C} (f : A -> B -> C) (m : list (list A)) (c : list B) :
  length m = length c ->
  bcast (bcast (lift2 f)) m (column c)
  = Some (zip_with (fun row y => map (fun x => f x y) row) m c).
Proof.
  intros Hl. unfold bcast at 1.
  rewrite length_column, decide_True by done.
  revert c Hl. induction m as [|row m IH]; intros [|y c] Hl; simpl in *; try done.
  injection Hl as Hl. rewrite (IH c Hl). clear IH.
  assert (bcast (lift2 f) row [y] = Some (map (fun x => f x y) row)) as ->; [|done].
  unfold bcast. destruct (decide (length row = length [y])) as [He|Hne].
  - destruct row as [|x [|x' row]]; simpl in He; try lia. done.
  - destruct row as [|x [|x' row]]; simpl in *.
    + done.
    + lia.
    + unfold lift2. by rewrite !mapM_Some_map.
Qed.

(** A column against a matrix of the same height. *)
Lemma bcast_column_rows {A B C} (f : A -> B -> C) (c : list A) (m : list (list B)) :
  length c = length m ->
  bcast (bcast (lift2 f)) (column c) m
  = Some (zip_with (fun x row => map (f x) row) c m).
Proof.
  intros Hl. unfold bcast at 1.
  rewrite length_column, decide_True by done.
  revert m Hl. induction c as [|x c IH]; intros [|row m] Hl; simpl in *; try done.
  injection Hl as Hl. rewrite (IH m Hl). clear IH.
  assert (bcast (lift2 f) [x] row = Some (map (f x) row)) as ->; [|done].
  unfold bcast. destruct (decide (length [x] = length row)) as [He|Hne].
  - destruct row as [|y [|y' row]]; simpl in He; try lia. done.
  - unfold lift2. by rewrite mapM_Some_map.
Qed.

(** Two matrices of the same shape. *)
Lemma bcast_matrix_same {A B C} (f : A -> B -> C) (m1 : list (list A)) (m2 : list (list B)) :
  Forall2 (fun r1 r2 => length r1 = length r2) m1 m2 ->
  bcast (bcast (lift2 f)) m1 m2 = Some (zip_with (zip_with f) m1 m2).
Proof.
  intros H. unfold bcast at 1.
  rewrite decide_True by (by eapply Forall2_length).
  induction H as [|r1 r2 m1 m2 Hr Hm IH]; simpl; [done|].
  rewrite bcast_lift2_same by done. simpl. by rewrite IH.
Qed.

(** [np.sum(mask)] of a boolean vector: the number of [True] entries. *)
Fixpoint count_true (row : list bool) : nat :=
  match row with
  | [] => 0
  | b :: rest => (if b then 1 else 0) + count_true rest
  end.

(** [np.mean] of a boolean array as a rational; the mean of an empty array
    is NaN, rendered [None]. *)
Definition mean_bool (hits : list bool) : option Q :=
  match hits with
  | [] => None
  | _ => Some (Z.of_nat (count_true hits) # Pos.of_nat (length hits))
  end.

(** [a[idx]] for an index array: an out-of-range index is an error. *)
Definition gather {X} (a : list X) (idx : list nat) : option (list X) :=
  mapM (fun i => a !! i) idx.

Lemma gather_in_range {X} (a : list X) (idx : list nat) :
  Forall (fun i => i < length a) idx ->
  exists xs, gather a idx = Some xs /\ Forall2 (fun i x => a !! i = Some x) idx xs.
Proof.
  intros Hidx. unfold gather.
  destruct (mapM (fun i => a !! i) idx) as [xs|] eqn:E.
  - exists xs. split; [done|]. by apply mapM_Some_1.
  - apply mapM_None_1, Exists_exists in E as (i & Hin & Hnone).
    rewrite Forall_forall in Hidx. apply lookup_ge_None in Hnone.
    specialize (Hidx i Hin). lia.
Qed.

Lemma bcast_same_Forall2 {A B C} (f : A -> B -> option C) (g : A -> B -> C)
    (a : list A) (b : list B) :
  Forall2 (fun x y => f x y = Some (g x y)) a b -> bcast f a b = Some (zip_with g a b).
Proof.
  intros H. unfold bcast. rewrite decide_True by (by eapply Forall2_length).
  induction H as [|x y a b Hxy Hab IH]; simpl; [done|].
  rewrite Hxy. simpl. by rewrite IH.
Qed.

(** One row against the rows of a matrix of the same width. *)
Lemma bcast_row_rows {A B C} (f : A -> B -> C) (r : list A) (m : list (list B)) :
  Forall (fun row => length row = length r) m ->
  bcast (bcast (lift2 f)) [r] m = Some (map (zip_with f r) m).
Proof.
  intros Hm.
  assert (mapM (bcast (lift2 f) r) m = Some (map (zip_with f r) m)) as Hall.
  { induction Hm as [|row m Hrow Hm IH]; simpl; [done|].
    rewrite bcast_lift2_same by done. simpl. by rewrite IH. }
  unfold bcast at 1. destruct (decide (length [r] = length m)) as [He|Hne]; [|done].
  destruct m as [|row [|row' m]]; simpl in He; try lia. simpl.
  apply Forall_cons in Hm as [Hrow _]. by rewrite bcast_lift2_same.
Qed.

Lemma rect_Forall2 {A B} (d : nat) (m1 : list (list A)) (m2 : list (list B)) :
  length m1 = length m2 ->
  Forall (fun row => length row = d) m1 -> Forall (fun row => length row = d) m2 ->
  Forall2 (fun r1 r2 => length r1 = length r2) m1 m2.
Proof.
  intros Hl H1. revert m2 Hl.
  induction H1 as [|r1 m1 Hr1 H1 IH]; intros [|r2 m2] Hl H2; simpl in *; try done.
  apply Forall_cons in H2 as [Hr2 H2]. injection Hl as Hl.
  constructor; [lia|by apply IH].
Qed.

Lemma lookup_map {A B} (f : A -> B) (l : list A) (i : nat) :
  map f l !! i = f <$> (l !! i).
Proof. apply list_lookup_fmap. Qed.

Lemma Forall2_of_Forall {A B} (PA : A -> Prop) (PB : B -> Prop) (Rel : A -> B -> Prop)
    (a : list A) (b : list B) :
  length a = length b -> Forall PA a -> Forall PB b ->
  (forall x y, PA x -> PB y -> Rel x y) -> Forall2 Rel a b.
Proof.
  intros Hl Ha. revert b Hl.
  induction Ha as [|x a Hx Ha IH]; intros [|y b] Hl Hb HR; simpl in *; try done.
  apply Forall_cons in Hb as [Hy Hb]. injection Hl as Hl.
  constructor; [by apply HR|by apply IH].
Qed.

Lemma zip_with_rect {A B C} (f : A -> B -> list C) (n : nat) (a : list A) (b : list B) :
  Forall (fun y => forall x, length (f x y) = n) b ->
  Forall (fun row => length row = n) (zip_with f a b).
Proof.
  intros Hb. revert a. induction Hb as [|y b Hy Hb IH]; intros [|x a]; simpl; try done.
  constructor; [apply Hy|apply IH].
Qed.

End Tensor.

(** ** Hit-rate evaluation *)

Module HitRate.

Section RecEval.
(** Ratings are floats; [rge] is [>=] on them. *)
Context {R : Type}.
Variable rge : R -> R -> bool.
(** [model.est_rating(I, U, I_neg, I_U, N_U)]: the two returned tensors,
    both two-dimensional, as lists of rows. *)
Variable est_rating :
  list nat -> list nat -> list (list nat) -> list nat -> list nat ->
  option (list (list R) * list (list R)).

(** [RecEval(model, user_item_spm, k, users_eval, items_eval, neg_eval)]
    (FISM notebook).  [user_item_csr] is [user_item_spm.tocsr()]: for each
    user the column indices of the row. *)
Definition RecEval (user_item_csr : list (list nat)) (k : Z)
    (users_eval items_eval : list nat) (neg_eval : list (list nat)) : option Q :=
  neg_items_eval ← Tensor.gather neg_eval users_eval;
  neighbors ← Tensor.gather user_item_csr users_eval;
  let I_U := concat neighbors in
  let N_U := map length neighbors in
  '(r, neg_r) ← est_rating items_eval users_eval neg_items_eval I_U N_U;
  if length r =? 0 then None
  else
    let neg_sample_size := length neg_r / length r in
    neg_r ← Tensor.reshape neg_sample_size (concat neg_r);
    ge ← Tensor.bcast (Tensor.bcast (Tensor.lift2 rge)) neg_r r;
    Tensor.mean_bool (map (fun row => (Z.of_nat (Tensor.count_true row) <=? k)%Z) ge).

(** The HITS@k indicator of one user: at most [k] of the user's negative
    ratings are greater than or equal to the rating of the true item. *)
Definition hit (k : Z) (r_true : R) (r_negs : list R) : bool :=
  (Z.of_nat (Tensor.count_true (map (fun x => rge x r_true) r_negs)) <=? k)%Z.

(** C3: when the model's [est_rating] returns, as [FISM.est_rating] does,
    one rating per evaluated user as a column and the ratings of that
    user's [n] negative items after it in one column, [RecEval] is the mean
    over the evaluated users of the indicator that at most [k] of the
    user's negative ratings are [>=] the rating of the true item. *)
Theorem RecEval_hits_at_k (user_item_csr : list (list nat)) (k : Z)
    (users_eval items_eval : list nat) (neg_eval : list (list nat))
    (neg_items_eval neighbors : list (list nat))
    (rs : list R) (negs : list (list R)) (n : nat) :
  Tensor.gather neg_eval users_eval = Some neg_items_eval ->
  Tensor.gather user_item_csr users_eval = Some neighbors ->
  est_rating items_eval users_eval neg_items_eval
             (concat neighbors) (map length neighbors)
  = Some (Tensor.column rs, Tensor.column (concat negs)) ->
  0 < length users_eval ->
  length rs = length users_eval ->
  length negs = length users_eval ->
  0 < n ->
  Forall (fun row => length row = n) negs ->
  RecEval user_item_csr k users_eval items_eval neg_eval
  = Some (Z.of_nat (Tensor.count_true (zip_with (hit k) rs negs))
          # Pos.of_nat (length users_eval)).
Proof.
  intros Hneg Hnb Hest Hpos Hrs Hnegs Hn Hrect.
  unfold RecEval. rewrite Hneg, Hnb. simpl. rewrite Hest. simpl.
  rewrite !Tensor.length_column, Tensor.concat_column.
  destruct (Nat.eqb_spec (length rs) 0) as [H0|_]; [lia|].
  rewrite (Tensor.length_concat_rect n negs Hrect), Hnegs, Hrs.
  rewrite Nat.mul_comm, Nat.div_mul by lia.
  rewrite (Tensor.reshape_concat n negs Hn Hrect). simpl.
  rewrite Tensor.bcast_rows_column by lia. simpl.
  assert (map (fun row => (Z.of_nat (Tensor.count_true row) <=? k)%Z)
            (zip_with (fun row y => map (fun x => rge x y) row) negs rs)
          = zip_with (hit k) rs negs) as ->.
  { clear. revert rs. induction negs as [|row negs IH]; intros [|y rs]; simpl; try done.
    by rewrite IH. }
  assert (length (zip_with (hit k) rs negs) = length users_eval) as Hlen.
  { rewrite length_zip_with. lia. }
  unfold Tensor.mean_bool. destruct (zip_with (hit k) rs negs) as [|h hs] eqn:E.
  - simpl in Hlen. lia.
  - by rewrite Hlen.
Qed.
End RecEval.

Section DotScore.
Context {R : Type}.
Variables radd rmul : R -> R -> R.
Variable rzero : R.

(** [dot_score(data) = np.dot(data, data.transpose())]: the entry for items
    [i] and [j] is the dot product of their rows. *)
Definition dot_score (data : list (list R)) : option (list (list R)) :=
  Some (map (fun ri => map (fun rj => fold_left radd (zip_with rmul ri rj) rzero) data)
            data).
End DotScore.

Section Knn.
Context {R : Type}.
Variable rsub : R -> R -> R.
Variables rzero rone : R.
Variable rge : R -> R -> bool.
(** [score_fn]: [dot_score] or [cosine_similarity]. *)
Variable score_fn : list (list R) -> option (list (list R)).

(** [np.diag(np.ones(n))]. *)
Definition diag_ones (n : nat) : list (list R) :=
  map (fun i => map (fun j => if i =? j then rone else rzero) (seq 0 n)) (seq 0 n).

(** [m[q, t]] for scalar indices. *)
Definition index2 (m : list (list R)) (q t : nat) : option R :=
  row ← m !! q; row !! t.

(** [knnEvaluate(data, query_eval, item_eval, score_fn)] (retail notebook). *)
Definition knnEvaluate (data : list (list R)) (query_eval item_eval : list nat)
    : option Q :=
  s ← score_fn data;
  scores ← Tensor.bcast (Tensor.bcast (Tensor.lift2 rsub)) s (diag_ones (length data));
  truth_scores ← Tensor.bcast (index2 scores) query_eval item_eval;
  query_scores ← Tensor.gather scores query_eval;
  ge ← Tensor.bcast (Tensor.bcast (Tensor.lift2 rge))
         query_scores (Tensor.column truth_scores);
  Tensor.mean_bool (map (fun row => Tensor.count_true row <? 3) ge).

(** The number of items whose score against the query is [>=] the truth
    score, given the query's row of the score matrix. *)
Definition rank_count (row : list R) (truth : R) : nat :=
  Tensor.count_true (map (fun x => rge x truth) row).

Lemma diag_ones_length n : length (diag_ones n) = n.
Proof. unfold diag_ones. by rewrite length_map, length_seq. Qed.

Lemma diag_ones_lookup n i j :
  i < n -> j < n ->
  index2 (diag_ones n) i j = Some (if i =? j then rone else rzero).
Proof.
  intros Hi Hj. unfold index2, diag_ones.
  rewrite list_lookup_fmap, lookup_seq_lt by done. simpl.
  rewrite list_lookup_fmap, lookup_seq_lt by done. done.
Qed.

Lemma sub_diag_ones (s : list (list R)) (n : nat) :
  length s = n -> Forall (fun row => length row = n) s ->
  Tensor.bcast (Tensor.bcast (Tensor.lift2 rsub)) s (diag_ones n)
  = Some (zip_with (zip_with rsub) s (diag_ones n)).
Proof.
  intros Hs Hrows. unfold Tensor.bcast at 1.
  rewrite diag_ones_length, decide_True by done.
  assert (Forall (fun row => length row = n) (diag_ones n)) as Hd.
  { unfold diag_ones. apply Forall_forall. intros row (i & -> & _)%list_elem_of_fmap.
    by rewrite length_map, length_seq. }
  clear Hs. revert Hd. generalize (diag_ones n) as d. intros d Hd.
  revert d Hd. induction Hrows as [|row s Hrow Hrows IH]; intros [|drow d] Hd; simpl; try done.
  apply Forall_cons in Hd as [Hdrow Hd].
  rewrite Tensor.bcast_lift2_same by lia. simpl.
  by rewrite (IH d Hd).
Qed.

Lemma rank_count_includes (row : list R) (t : nat) (truth : R) :
  rge truth truth = true -> row !! t = Some truth -> 1 <= rank_count row truth.
Proof.
  intros Hrefl. unfold rank_count. revert t.
  induction row as [|x row IH]; intros [|t] Ht; simpl in *; try done.
  - injection Ht as ->. rewrite Hrefl. lia.
  - specialize (IH t Ht). lia.
Qed.

Lemma rank_count_none (row : list R) (truth : R) :
  (forall x, rge x truth = false) -> rank_count row truth = 0.
Proof.
  intros Hnone. unfold rank_count.
  induction row as [|x row IH]; simpl; [done|]. by rewrite Hnone, IH.
Qed.

(** C4, amended: with a square pairwise score matrix [s] and in-range
    queries, [knnEvaluate] works on [s] minus the identity matrix and
    returns the mean, over the query/truth pairs, of the indicator that
    fewer than three items score [>=] the truth item against the query;
    that count includes the truth item itself when the truth score
    compares [>=] to itself, as every float but NaN does, and it is zero
    when nothing compares [>=] to the truth score, as with a NaN. *)
Theorem knnEvaluate_hits (data s : list (list R)) (query_eval item_eval : list nat) :
  let n := length data in
  let scores := zip_with (zip_with rsub) s (diag_ones n) in
  score_fn data = Some s ->
  length s = n ->
  Forall (fun row => length row = n) s ->
  length query_eval = length item_eval ->
  0 < length query_eval ->
  Forall (fun q => q < n) query_eval ->
  Forall (fun t => t < n) item_eval ->
  (forall i j x, index2 s i j = Some x ->
     index2 scores i j = Some (rsub x (if i =? j then rone else rzero))) /\
  exists hits,
    knnEvaluate data query_eval item_eval
    = Some (Z.of_nat (Tensor.count_true hits) # Pos.of_nat (length query_eval)) /\
    Forall2 (fun qt h => exists row truth,
               scores !! qt.1 = Some row /\ row !! qt.2 = Some truth /\
               h = (rank_count row truth <? 3) /\
               (rge truth truth = true -> 1 <= rank_count row truth) /\
               ((forall x, rge x truth = false) -> rank_count row truth = 0))
            (zip query_eval item_eval) hits.
Proof.
  intros n scores Hs Hlen Hrows Hqt Hpos Hq Ht.
  assert (length scores = n) as Hsl.
  { subst scores. rewrite length_zip_with, diag_ones_length. lia. }
  assert (Forall (fun row => length row = n) scores) as Hsrows.
  { subst scores. apply Forall_forall. intros row Hin.
    apply list_elem_of_lookup in Hin as [i Hi].
    apply lookup_zip_with_Some in Hi as (r1 & r2 & -> & H1 & H2).
    rewrite length_zip_with.
    rewrite Forall_forall in Hrows.
    rewrite (Hrows r1) by (eapply list_elem_of_lookup_2; eauto).
    assert (length r2 = n) as ->; [|lia].
    unfold diag_ones in H2. apply list_lookup_fmap_Some in H2 as (k & -> & _).
    by rewrite length_map, length_seq. }
  split.
  { intros i j x Hx. unfold index2 in *.
    destruct (s !! i) as [row|] eqn:Hrow; simpl in Hx; [|done].
    assert (i < n) as Hi by (rewrite <- Hlen; eapply lookup_lt_Some; eauto).
    assert (j < n) as Hj.
    { rewrite Forall_forall in Hrows.
      rewrite <- (Hrows row) by (eapply list_elem_of_lookup_2; eauto).
      eapply lookup_lt_Some; eauto. }
    pose proof (diag_ones_lookup n i j Hi Hj) as Hd. unfold index2 in Hd.
    destruct (diag_ones n !! i) as [drow|] eqn:Hdrow; simpl in Hd; [|done].
    subst scores. rewrite lookup_zip_with, Hrow. simpl. rewrite Hdrow. simpl.
    rewrite lookup_zip_with, Hx. simpl. by rewrite Hd. }
  (* the rows and truth scores selected by the queries *)
  assert (exists qrows, Tensor.gather scores query_eval = Some qrows /\
            Forall2 (fun q row => scores !! q = Some row) query_eval qrows)
    as (qrows & Hg & Hqrows).
  { unfold Tensor.gather.
    destruct (mapM (fun i => scores !! i) query_eval) as [qrows|] eqn:E.
    - exists qrows. split; [done|]. by apply mapM_Some_1.
    - apply mapM_None_1, Exists_exists in E as (q & Hin & Hnone).
      rewrite Forall_forall in Hq. apply lookup_ge_None in Hnone.
      specialize (Hq q Hin). lia. }
  assert (exists truth, Tensor.bcast (index2 scores) query_eval item_eval = Some truth /\
            Forall2 (fun qt x => index2 scores qt.1 qt.2 = Some x)
                    (zip query_eval item_eval) truth)
    as (truth & Htr & Htruth).
  { unfold Tensor.bcast. rewrite decide_True by done.
    destruct (mapM (fun p => index2 scores p.1 p.2) (zip query_eval item_eval))
      as [truth|] eqn:E.
    - exists truth. split; [done|]. by apply mapM_Some_1.
    - apply mapM_None_1, Exists_exists in E as ([q t] & Hin & Hnone).
      simpl in Hnone. exfalso.
      apply elem_of_zip_l in Hin as Hinq. apply elem_of_zip_r in Hin as Hint.
      simpl in *. rewrite Forall_forall in Hq, Ht.
      specialize (Hq q Hinq). specialize (Ht t Hint).
      unfold index2 in Hnone.
      destruct (scores !! q) as [row|] eqn:Hrow; simpl in Hnone.
      + apply lookup_ge_None in Hnone.
        rewrite Forall_forall in Hsrows.
        rewrite (Hsrows row) in Hnone by (eapply list_elem_of_lookup_2; eauto). lia.
      + apply lookup_ge_None in Hrow. lia. }
  assert (length qrows = length query_eval) as Hql by (symmetry; eapply Forall2_length; eauto).
  assert (length truth = length query_eval) as Htl.
  { apply Forall2_length in Htruth. rewrite length_zip in Htruth. lia. }
  exists (zip_with (fun row x => rank_count row x <? 3) qrows truth).
  split.
  - unfold knnEvaluate. rewrite Hs. simpl. fold n.
    rewrite (sub_diag_ones s n Hlen Hrows). simpl.
    fold scores. rewrite Htr. simpl. rewrite Hg. simpl.
    rewrite Tensor.bcast_rows_column by lia. simpl.
    assert (map (fun row => Tensor.count_true row <? 3)
              (zip_with (fun row y => map (fun x => rge x y) row) qrows truth)
            = zip_with (fun row x => rank_count row x <? 3) qrows truth) as ->.
    { clear. revert truth. induction qrows as [|row qrows IH]; intros [|y truth];
        simpl; try done. by rewrite IH. }
    assert (length (zip_with (fun row x => rank_count row x <? 3) qrows truth)
            = length query_eval) as Hl by (rewrite length_zip_with; lia).
    unfold Tensor.mean_bool.
    destruct (zip_with (fun row x => rank_count row x <? 3) qrows truth) eqn:E.
    + simpl in Hl. lia.
    + by rewrite Hl.
  - clear Hg Htr Hpos Hq Ht. revert item_eval qrows truth Hqt Hqrows Htruth Hql Htl.
    induction query_eval as [|q qs IH]; intros [|t ts] qrows truth Hqt Hqrows Htruth Hql Htl;
      simpl in *; try done.
    + destruct qrows; [|done]. destruct truth; [|done]. constructor.
    + destruct qrows as [|row qrows]; [done|]. destruct truth as [|x truth]; [done|].
      simpl. apply Forall2_cons in Hqrows as [Hrow Hqrows].
      apply Forall2_cons in Htruth as [Hx Htruth]. simpl in Hx.
      constructor.
      * exists row, x. unfold index2 in Hx. rewrite Hrow in Hx. simpl in Hx.
        simpl. split; [done|]. split; [done|]. split; [done|]. split.
        -- intros Hrefl. eapply rank_count_includes; eauto.
        -- apply rank_count_none.
      * apply IH; auto.
Qed.
End Knn.

(** Scores with a NaN: as much of float arithmetic as a comparison with a
    NaN needs.  A NaN absorbs in sums, differences and products and
    compares false with everything, itself included. *)
Inductive score : Type :=
| Num (z : Z)
| NaN.

Definition score_op (f : Z -> Z -> Z) (a b : score) : score :=
  match a, b with
  | Num x, Num y => Num (f x y)
  | _, _ => NaN
  end.

Definition score_ge (a b : score) : bool :=
  match a, b with
  | Num x, Num y => (y <=? x)%Z
  | _, _ => false
  end.

(** C4 as stated fails on an embedding with a NaN: item 0 has the
    embedding [(1, NaN)], so its scores against both items are NaN; for
    the query 0 with truth item 1 no item scores [>=] the truth score, the
    count is 0 and does not include the truth item, and the pair is a
    hit. *)
Lemma knnEvaluate_nan_truth :
  knnEvaluate (score_op Z.sub) (Num 0) (Num 1) score_ge
    (dot_score (score_op Z.add) (score_op Z.mul) (Num 0))
    [[Num 1; NaN]; [Num 0; Num 2]] [0] [1] = Some (1 # 1) /\
  dot_score (score_op Z.add) (score_op Z.mul) (Num 0) [[Num 1; NaN]; [Num 0; Num 2]]
  = Some [[NaN; NaN]; [NaN; Num 4]] /\
  zip_with (zip_with (score_op Z.sub)) [[NaN; NaN]; [NaN; Num 4]]
    (diag_ones (Num 0) (Num 1) 2) !! 0 = Some [NaN; NaN] /\
  [NaN; NaN] !! 1 = Some NaN /\
  rank_count score_ge [NaN; NaN] NaN = 0 /\
  ~ (1 <= rank_count score_ge [NaN; NaN] NaN).
Proof. repeat split; try reflexivity. vm_compute. lia. Qed.

End HitRate.

(** ** The ranking losses *)

Module RankLoss.

Section Loss.
Context {R : Type}.
Variables radd rsub rmul : R -> R -> R.
Variable rzero : R.
(** The constant [-1.0]. *)
Variable rneg1 : R.
Variable logsigmoid : R -> R.
(** [t.float()] of an integer entry. *)
Variable of_int : Z -> R.

(** [torch.sum] along one dimension, taken in index order. *)
Definition tsum (v : list R) : R := fold_left radd v rzero.

(** [rank_loss2(pos_score, neg_score)] of the FISM notebook, at the ranks
    [FISM.loss] calls it with: [pos_score] one-dimensional, [neg_score]
    two-dimensional.  The subtraction broadcasts [pos_score] as a single
    row. *)
Definition rank_loss2 (pos_score : list R) (neg_score : list (list R)) : option R :=
  diff ← Tensor.bcast (Tensor.bcast (Tensor.lift2 rsub)) [pos_score] neg_score;
  Some (rmul (tsum (concat (map (map logsigmoid) diff))) rneg1).

(** [FISM.loss(r_ui, neg_r_ui)]. *)
Definition FISM_loss (r_ui : list R) (neg_r_ui : list (list R)) : option R :=
  rank_loss2 r_ui neg_r_ui.

(** The tail of [FISM.forward] once [fism_rating] has returned [r] and the
    two-dimensional [r_neg]: [len(r_neg)] is its number of rows. *)
Definition FISM_forward_loss (r : list R) (r_neg : list (list R)) : option R :=
  if length r =? 0 then None
  else
    let neg_sample_size := length r_neg / length r in
    r_neg ← Tensor.reshape neg_sample_size (concat r_neg);
    FISM_loss r r_neg.

(** [rank_loss2(pos_score, neg_score, neg_sample_size, mask)] of the retail
    notebook: all three tensors are one-dimensional. *)
Definition rank_loss2_masked (pos_score neg_score : list R) (neg_sample_size : nat)
    (mask : list R) : option (list R) :=
  let pos_score := Tensor.column pos_score in
  neg_score ← Tensor.reshape neg_sample_size neg_score;
  mask ← Tensor.reshape neg_sample_size mask;
  diff ← Tensor.bcast (Tensor.bcast (Tensor.lift2 rsub)) pos_score neg_score;
  prod ← Tensor.bcast (Tensor.bcast (Tensor.lift2 rmul)) (map (map logsigmoid) diff) mask;
  Some (map (fun row => rmul (tsum row) rneg1) prod).

(** [mask = (1 - neg_g.edata['false_neg']).float()] in [GNNRec.forward]. *)
Definition false_neg_mask (false_neg : list Z) : list R :=
  map (fun f => of_int (1 - f)) false_neg.

(** Spec side: the terms of one negative score against every positive
    score, and the terms of one positive score against its own negatives. *)
Definition pair_terms (pos : list R) (neg : R) : list R :=
  map (fun p => logsigmoid (rsub p neg)) pos.

Definition masked_terms (p : R) (negs : list R) (false_neg : list Z) : list R :=
  zip_with (fun x f => rmul (logsigmoid (rsub p x)) (of_int (1 - f))) negs false_neg.

Lemma bcast_row_column (pos negs : list R) :
  Tensor.bcast (Tensor.bcast (Tensor.lift2 rsub)) [pos] (Tensor.column negs)
  = Some (map (fun x => map (fun p => rsub p x) pos) negs).
Proof.
  assert (forall x, Tensor.bcast (Tensor.lift2 rsub) pos [x]
                    = Some (map (fun p => rsub p x) pos)) as Hrow.
  { intros x. unfold Tensor.bcast.
    destruct (decide (length pos = length [x])) as [He|Hne].
    - destruct pos as [|p [|p' pos]]; simpl in He; try lia. done.
    - destruct pos as [|p [|p' pos]]; simpl in *; try done; try lia.
      unfold Tensor.lift2. by rewrite !Tensor.mapM_Some_map. }
  assert (mapM (Tensor.bcast (Tensor.lift2 rsub) pos) (Tensor.column negs)
          = Some (map (fun x => map (fun p => rsub p x) pos) negs)) as Hall.
  { induction negs as [|y negs IH]; simpl; [done|].
    rewrite Hrow. simpl. by rewrite IH. }
  unfold Tensor.bcast at 1. rewrite Tensor.length_column.
  destruct (decide (length [pos] = length negs)) as [He|Hne]; [|done].
  destruct negs as [|x [|x' negs]]; simpl in He; try lia. simpl.
  by rewrite Hrow.
Qed.

Lemma masked_row (p : R) (nrow : list R) (frow : list Z) :
  zip_with rmul (map logsigmoid (map (rsub p) nrow)) (map (fun f => of_int (1 - f)) frow)
  = masked_terms p nrow frow.
Proof.
  unfold masked_terms. revert frow.
  induction nrow as [|x nrow IH]; intros [|f frow]; simpl; try done. by rewrite IH.
Qed.

Lemma masked_rows (pos : list R) (negs : list (list R)) (fns : list (list Z)) :
  map (fun row => rmul (tsum row) rneg1)
    (zip_with (zip_with rmul)
       (map (map logsigmoid) (zip_with (fun x row => map (rsub x) row) pos negs))
       (map (map (fun f => of_int (1 - f))) fns))
  = zip_with (fun p nf => rmul (tsum (masked_terms p nf.1 nf.2)) rneg1) pos (zip negs fns).
Proof.
  revert negs fns.
  induction pos as [|p pos IH]; intros [|nrow negs] [|frow fns]; simpl; try done.
  by rewrite masked_row, IH.
Qed.

(** C2: [rank_loss2] is minus the sum of [logsigmoid (pos - neg)] over all
    pairs of a positive and a negative score, both at the function itself
    (positives against a column of negatives) and as reached from
    [FISM.forward], which flattens the batch's negative ratings into one
    column; the retail variant multiplies each pair's term by the mask
    entry [1 - false_neg] of the pair, which is [0] for a false negative,
    before summing the terms of each positive score. *)
Theorem rank_loss2_pairwise :
  (forall pos negs,
     rank_loss2 pos (Tensor.column negs)
     = Some (rmul (tsum (concat (map (pair_terms pos) negs))) rneg1)) /\
  (forall r r_neg,
     0 < length r -> length r_neg = length r ->
     FISM_forward_loss r r_neg
     = Some (rmul (tsum (concat (map (pair_terms r) (concat r_neg)))) rneg1)) /\
  (forall pos negs fns n,
     0 < n -> length negs = length pos -> length fns = length pos ->
     Forall (fun row => length row = n) negs ->
     Forall (fun row => length row = n) fns ->
     rank_loss2_masked pos (concat negs) n (false_neg_mask (concat fns))
     = Some (zip_with (fun p nf => rmul (tsum (masked_terms p nf.1 nf.2)) rneg1)
                      pos (zip negs fns))) /\
  (forall p x, masked_terms p [x] [1%Z] = [rmul (logsigmoid (rsub p x)) (of_int 0)]) /\
  (forall p x, masked_terms p [x] [0%Z] = [rmul (logsigmoid (rsub p x)) (of_int 1)]).
Proof.
  assert (forall pos negs,
     rank_loss2 pos (Tensor.column negs)
     = Some (rmul (tsum (concat (map (pair_terms pos) negs))) rneg1)) as Hcol.
  { intros pos negs. unfold rank_loss2. rewrite bcast_row_column. simpl.
    do 4 f_equal. rewrite map_map. apply map_ext. intros x.
    unfold pair_terms. by rewrite map_map. }
  split; [done|]. split; [|split; [|done]].
  - intros r r_neg Hpos Hlen. unfold FISM_forward_loss.
    destruct (Nat.eqb_spec (length r) 0) as [H0|_]; [lia|].
    rewrite Hlen, Nat.div_same by lia. rewrite Tensor.reshape_one. simpl.
    unfold FISM_loss. apply Hcol.
  - intros pos negs fns n Hn Hnegs Hfns Hrn Hrf. unfold rank_loss2_masked.
    rewrite (Tensor.reshape_concat n negs Hn Hrn). simpl.
    unfold false_neg_mask. rewrite concat_map.
    rewrite (Tensor.reshape_concat n (map (map (fun f => of_int (1 - f))) fns) Hn).
    2:{ apply Forall_map. eapply Forall_impl; [exact Hrf|].
        intros row Hrow. by rewrite length_map. }
    simpl. rewrite Tensor.bcast_column_rows by lia. simpl.
    rewrite Tensor.bcast_matrix_same.
    2:{ clear Hcol. revert negs fns Hnegs Hfns Hrn Hrf.
        induction pos as [|p pos IH]; intros [|nrow negs] [|frow fns] Hnegs Hfns Hrn Hrf;
          try discriminate; [constructor|].
        apply Forall_cons in Hrn as [Hr1 Hrn]. apply Forall_cons in Hrf as [Hr2 Hrf].
        injection Hnegs as Hnegs. injection Hfns as Hfns.
        cbn [zip_with map]. constructor; [|by apply IH].
        rewrite !length_map. lia. }
    simpl. by rewrite masked_rows.
Qed.
End Loss.

End RankLoss.

(** ** FISMrating and FISM.est_rating (FISM notebook) *)

Module FISMRating.

Section Rating.
Context {R : Type}.
Variables radd rsub rmul rdiv rpow : R -> R -> R.
Variables rzero rone : R.
(** [t.float()] of an integer entry. *)
Variable of_int : Z -> R.
(** [x.clamp(min=m)]. *)
Variable clamp_min : R -> R -> R.
(** [self.P] and [self.Q] at one item: the item's row of the embedding
    matrix the callable computes. *)
Variables P Q : nat -> list R.
(** The bias parameters [self.b_u] and [self.b_i]. *)
Variables b_u b_i : list R.
Variable alpha : R.

(** [t.sum(dim)] along one dimension, taken in index order. *)
Definition tsum (v : list R) : R := fold_left radd v rzero.

(** [xs.repeat_interleave(reps)]. *)
Definition repeat_interleave (xs reps : list nat) : option (list nat) :=
  if decide (length xs = length reps)
  then Some (concat (zip_with (fun x n => repeat x n) xs reps))
  else match reps with
       | [n] => Some (concat (map (fun x => repeat x n) xs))
       | _ => None
       end.

(** [idx[:, None].expand_as(src)] along the first dimension. *)
Definition expand_idx (idx : list nat) (len : nat) : option (list nat) :=
  if decide (length idx = len) then Some idx
  else match idx with
       | [i] => Some (repeat i len)
       | _ => None
       end.

(** One row of [scatter_add]: [src] is added onto the leading entries of
    [acc]; it may not be longer. *)
Fixpoint add_prefix (acc src : list R) : option (list R) :=
  match src, acc with
  | [], _ => Some acc
  | s :: src', a :: acc' => rest ← add_prefix acc' src'; Some (radd a s :: rest)
  | _ :: _, [] => None
  end.

(** [acc.scatter_add(0, idx, src)] with the row index [idx] already
    expanded: row [k] of [src] is added to row [idx[k]] of [acc], in order. *)
Fixpoint scatter_add (acc : list (list R)) (idx : list nat) (src : list (list R))
    : option (list (list R)) :=
  match idx, src with
  | [], [] => Some acc
  | i :: idx', s :: src' =>
      row ← acc !! i;
      row' ← add_prefix row s;
      scatter_add (<[i:=row']> acc) idx' src'
  | _, _ => None
  end.

(** The normalizer of a user with [n] interacted items. *)
Definition normalizer (test : bool) (n : nat) : R :=
  if test then rpow (of_int (Z.of_nat n)) alpha
  else rpow (clamp_min (rsub (of_int (Z.of_nat n)) rone) rone) alpha.

(** [t.view(batch, n, -1)] of a matrix given by its rows.  A tensor without
    rows is taken to have no columns. *)
Definition view3 (batch n : nat) (rows : list (list R)) : option (list (list (list R))) :=
  let flat := concat rows in
  if batch * n =? 0 then None
  else if length flat mod (batch * n) =? 0
       then Some (Tensor.chunks batch n
                    (Tensor.chunks (batch * n) (length flat / (batch * n)) flat))
       else None.

(** The [if I_neg is not None] branch of [forward]. *)
Definition neg_ratings (batch_size : nat) (p_ctx : list (list R)) (norm bu : list R)
    (I_neg : list (list nat)) : option (list (list R)) :=
  let n_negs := match I_neg with [] => 0 | row :: _ => length row end in
  let I_neg_flat := concat I_neg in
  q_neg ← view3 batch_size n_negs (map Q I_neg_flat);
  prod ← Tensor.bcast
           (fun pc qn => Tensor.bcast (Tensor.bcast (Tensor.lift2 rmul)) [pc] qn)
           p_ctx q_neg;
  pq_neg ← Tensor.bcast (Tensor.bcast (Tensor.lift2 rdiv))
             (map (map tsum) prod) (Tensor.column norm);
  bi_neg ← mapM (Tensor.gather b_i) I_neg;
  s ← Tensor.bcast (Tensor.bcast (Tensor.lift2 radd)) (Tensor.column bu) bi_neg;
  Tensor.bcast (Tensor.bcast (Tensor.lift2 radd)) s pq_neg.

(** [FISMrating.forward(I, U, I_neg, I_U, N_U, test)]. *)
Definition forward (I U : list nat) (I_neg : option (list (list nat)))
    (I_U N_U : list nat) (test : bool)
    : option (list R * option (list (list R))) :=
  let batch_size := length I in
  U_idx ← repeat_interleave (seq 0 (length U)) N_U;
  let q := map Q I in
  let p := map P I_U in
  let p_sum := map (map (fun _ => rzero)) q in
  idx ← expand_idx U_idx (length p);
  p_sum ← scatter_add p_sum idx p;
  p_ctx ← (if test then Some p_sum
           else Tensor.bcast (Tensor.bcast (Tensor.lift2 rsub)) p_sum (map P I));
  let norm := map (normalizer test) N_U in
  prod ← Tensor.bcast (Tensor.bcast (Tensor.lift2 rmul)) p_ctx q;
  pq ← Tensor.bcast (Tensor.lift2 rdiv) (map tsum prod) norm;
  bu ← Tensor.gather b_u U;
  bi ← Tensor.gather b_i I;
  s ← Tensor.bcast (Tensor.lift2 radd) bu bi;
  r ← Tensor.bcast (Tensor.lift2 radd) s pq;
  match I_neg with
  | None => Some (r, None)
  | Some I_neg =>
      r_neg ← neg_ratings batch_size p_ctx norm bu I_neg;
      Some (r, Some r_neg)
  end.

(** [FISM.est_rating(I, U, I_neg, I_U, N_U)]: the ratings at test time, the
    positive ones as a column and the negative ones reshaped to
    [(-1, len(r_neg) / len(r))]. *)
Definition est_rating (I U : list nat) (I_neg : list (list nat)) (I_U N_U : list nat)
    : option (list (list R) * list (list R)) :=
  res ← forward I U (Some I_neg) I_U N_U true;
  match res with
  | (r, Some r_neg) =>
      if length r =? 0 then None
      else
        let neg_sample_size := length r_neg / length r in
        r_neg ← Tensor.reshape neg_sample_size (concat r_neg);
        Some (Tensor.column r, r_neg)
  | (_, None) => None
  end.

(** *** The formula of the rating, one user at a time *)

(** The sum of a list of [d]-dimensional embeddings. *)
Definition vsum (d : nat) (vs : list (list R)) : list R :=
  fold_left (zip_with radd) vs (repeat rzero d).

Definition dot (a b : list R) : R := tsum (zip_with rmul a b).

(** The context embedding of a user with interacted items [items], for the
    target item [target]. *)
Definition p_ctx_of (test : bool) (d : nat) (target : nat) (items : list nat) : list R :=
  let p_sum := vsum d (map P items) in
  if test then p_sum else zip_with rsub p_sum (P target).

(** [b_u + b_i + (p_ctx . q) / norm] for the item [scored]. *)
Definition rating_of (test : bool) (d : nat) (bu bi : R) (target scored : nat)
    (items : list nat) : R :=
  radd (radd bu bi)
       (rdiv (dot (p_ctx_of test d target items) (Q scored))
             (normalizer test (length items))).

(** *** Scatter-add over interleaved row indices is a per-row sum *)

Lemma add_prefix_same (acc src : list R) :
  length acc = length src -> add_prefix acc src = Some (zip_with radd acc src).
Proof.
  revert acc. induction src as [|s src IH]; intros [|a acc] Hl; simpl in *; try done.
  injection Hl as Hl. by rewrite (IH acc Hl).
Qed.

Lemma scatter_add_app (idx1 idx2 : list nat) (src1 src2 : list (list R)) :
  length idx1 = length src1 ->
  forall acc,
    scatter_add acc (idx1 ++ idx2) (src1 ++ src2)
    = acc' ← scatter_add acc idx1 src1; scatter_add acc' idx2 src2.
Proof.
  revert src1. induction idx1 as [|i idx1 IH]; intros [|s src1] Hl acc; simpl in *; try done.
  injection Hl as Hl.
  destruct (acc !! i) as [row|]; simpl; [|done].
  destruct (add_prefix row s) as [row'|]; simpl; [|done].
  by apply IH.
Qed.

Lemma fold_vadd_length (d : nat) (vs : list (list R)) : forall row,
  length row = d -> Forall (fun v => length v = d) vs ->
  length (fold_left (zip_with radd) vs row) = d.
Proof.
  induction vs as [|v vs IH]; intros row Hrow Hvs; simpl; [done|].
  apply Forall_cons in Hvs as [Hv Hvs]. apply IH; [|done].
  rewrite length_zip_with. lia.
Qed.

Lemma scatter_repeat (d k : nat) (vs : list (list R)) : forall acc row,
  acc !! k = Some row -> length row = d -> Forall (fun v => length v = d) vs ->
  scatter_add acc (repeat k (length vs)) vs
  = Some (<[k := fold_left (zip_with radd) vs row]> acc).
Proof.
  induction vs as [|v vs IH]; intros acc row Hk Hrow Hvs; simpl.
  - by rewrite list_insert_id.
  - apply Forall_cons in Hvs as [Hv Hvs].
    rewrite Hk. simpl. rewrite add_prefix_same by lia. simpl.
    rewrite (IH _ (zip_with radd row v)); [|..|done].
    + by rewrite list_insert_insert_eq.
    + apply list_lookup_insert_eq. by eapply lookup_lt_Some.
    + rewrite length_zip_with. lia.
Qed.

Lemma scatter_segments (d : nat) (segs : list (list (list R))) :
  forall (pre acc : list (list R)),
    length acc = length segs ->
    Forall (fun row => length row = d) acc ->
    Forall (Forall (fun v => length v = d)) segs ->
    scatter_add (pre ++ acc)
      (concat (zip_with (fun x vs => repeat x (length vs))
                        (seq (length pre) (length segs)) segs))
      (concat segs)
    = Some (pre ++ zip_with (fun row vs => fold_left (zip_with radd) vs row) acc segs).
Proof.
  induction segs as [|vs segs IH]; intros pre [|row acc] Hl Hacc Hsegs; simpl in *; try done.
  injection Hl as Hl.
  apply Forall_cons in Hacc as [Hrow Hacc]. apply Forall_cons in Hsegs as [Hvs Hsegs].
  rewrite scatter_add_app by (by rewrite repeat_length).
  rewrite (scatter_repeat d (length pre) vs _ row); [|by apply list_lookup_middle|done..].
  simpl. rewrite insert_app_r_alt by lia. rewrite Nat.sub_diag. simpl.
  specialize (IH (pre ++ [fold_left (zip_with radd) vs row]) acc Hl Hacc Hsegs).
  rewrite length_app in IH. simpl in IH. rewrite Nat.add_1_r in IH.
  rewrite <- !app_assoc in IH. simpl in IH. exact IH.
Qed.

Lemma interleave_length (segs : list (list (list R))) (xs : list nat) :
  length xs = length segs ->
  length (concat (zip_with (fun x vs => repeat x (length vs)) xs segs))
  = length (concat segs).
Proof.
  revert xs. induction segs as [|vs segs IH]; intros [|x xs] Hl; simpl in *; try done.
  injection Hl as Hl. rewrite !length_app, repeat_length. by rewrite IH.
Qed.

(** The [scatter_add] step of [forward] on a batch whose users have the
    interacted items [ctx]: row by row, the sum of the [P]-embeddings. *)
Lemma p_sum_closed (d : nat) (I : list nat) (ctx : list (list nat)) :
  (forall i, length (P i) = d) -> (forall i, length (Q i) = d) ->
  length ctx = length I ->
  exists idx,
    repeat_interleave (seq 0 (length I)) (map length ctx) = Some idx /\
    expand_idx idx (length (map P (concat ctx))) = Some idx /\
    scatter_add (map (map (fun _ => rzero)) (map Q I)) idx (map P (concat ctx))
    = Some (map (fun items => vsum d (map P items)) ctx).
Proof.
  intros HP HQ Hl.
  set (segs := map (map P) ctx).
  assert (map P (concat ctx) = concat segs) as Hp by (subst segs; by rewrite concat_map).
  assert (length segs = length I) as Hsl by (subst segs; by rewrite length_map).
  exists (concat (zip_with (fun x vs => repeat x (length vs)) (seq 0 (length segs)) segs)).
  split; [|split].
  - unfold repeat_interleave.
    rewrite decide_True by (by rewrite length_seq, length_map).
    do 2 f_equal. rewrite Hsl. subst segs. generalize (seq 0 (length I)). clear.
    induction ctx as [|c ctx IH]; intros [|x xs]; simpl; try done.
    by rewrite length_map, IH.
  - rewrite Hp. unfold expand_idx.
    by rewrite decide_True by (apply interleave_length; by rewrite length_seq).
  - rewrite Hp.
    pose proof (scatter_segments d segs [] (map (map (fun _ => rzero)) (map Q I))) as Hs.
    simpl in Hs. rewrite Hs.
    + f_equal. subst segs. clear Hs Hp Hsl. revert I Hl.
      induction ctx as [|c ctx IH]; intros [|i I] Hl; simpl in *; try done.
      injection Hl as Hl. rewrite (IH I Hl). f_equal.
      unfold vsum. f_equal. specialize (HQ i). clear -HQ. revert d HQ.
      induction (Q i) as [|y l IHl]; intros d HQ; simpl in *; subst d; [done|].
      simpl. f_equal. by apply IHl.
    + by rewrite !length_map.
    + apply Forall_forall.
      intros row (q & -> & (i & -> & _)%list_elem_of_fmap)%list_elem_of_fmap.
      by rewrite length_map.
    + subst segs. apply Forall_forall. intros vs (c & -> & _)%list_elem_of_fmap.
      apply Forall_forall. by intros v (i & -> & _)%list_elem_of_fmap.
Qed.

Lemma vsum_length (d : nat) (vs : list (list R)) :
  Forall (fun v => length v = d) vs -> length (vsum d vs) = d.
Proof. intros H. apply fold_vadd_length; [apply repeat_length|done]. Qed.

(** *** Closed forms of the tensors of [forward] *)

Definition p_ctx_rows (test : bool) (d : nat) (I : list nat) (ctx : list (list nat))
    : list (list R) :=
  zip_with (p_ctx_of test d) I ctx.

Definition pq_rows (test : bool) (d : nat) (I : list nat) (ctx : list (list nat))
    : list R :=
  zip_with (fun i items =>
              rdiv (dot (p_ctx_of test d i items) (Q i)) (normalizer test (length items)))
           I ctx.

Lemma p_ctx_rows_length test d I ctx :
  length ctx = length I -> length (p_ctx_rows test d I ctx) = length I.
Proof. intros Hl. unfold p_ctx_rows. rewrite length_zip_with. lia. Qed.

Lemma p_ctx_of_length test d i items :
  (forall i, length (P i) = d) -> length (p_ctx_of test d i items) = d.
Proof.
  intros HP. unfold p_ctx_of.
  assert (length (vsum d (map P items)) = d) as Hv.
  { apply vsum_length, Forall_forall. by intros v (j & -> & _)%list_elem_of_fmap. }
  destruct test; [done|]. rewrite length_zip_with, Hv, HP. lia.
Qed.

Lemma p_ctx_rows_rect test d I ctx :
  (forall i, length (P i) = d) ->
  Forall (fun row => length row = d) (p_ctx_rows test d I ctx).
Proof.
  intros HP. unfold p_ctx_rows. apply Forall_forall. intros row Hin.
  apply list_elem_of_lookup in Hin as [b Hb].
  apply lookup_zip_with_Some in Hb as (i & items & -> & _ & _).
  by apply p_ctx_of_length.
Qed.

Lemma p_ctx_closed (test : bool) (d : nat) (I : list nat) (ctx : list (list nat)) :
  (forall i, length (P i) = d) ->
  length ctx = length I ->
  (if test then Some (map (fun items => vsum d (map P items)) ctx)
   else Tensor.bcast (Tensor.bcast (Tensor.lift2 rsub))
          (map (fun items => vsum d (map P items)) ctx) (map P I))
  = Some (p_ctx_rows test d I ctx).
Proof.
  intros HP Hl. unfold p_ctx_rows, p_ctx_of. destruct test.
  - f_equal. revert I Hl. induction ctx as [|c ctx IH]; intros [|i I] Hl;
      simpl in *; try done. injection Hl as Hl. by rewrite (IH I Hl).
  - rewrite Tensor.bcast_matrix_same.
    + f_equal. revert I Hl. induction ctx as [|c ctx IH]; intros [|i I] Hl;
        simpl in *; try done. injection Hl as Hl. by rewrite (IH I Hl).
    + apply (Tensor.rect_Forall2 d).
      * by rewrite !length_map.
      * apply Forall_forall. intros row (c & -> & _)%list_elem_of_fmap.
        apply vsum_length, Forall_forall. by intros v (j & -> & _)%list_elem_of_fmap.
      * apply Forall_forall. by intros row (c & -> & _)%list_elem_of_fmap.
Qed.

Lemma pq_closed (test : bool) (d : nat) (I : list nat) (ctx : list (list nat)) :
  (forall i, length (P i) = d) -> (forall i, length (Q i) = d) ->
  length ctx = length I ->
  (prod ← Tensor.bcast (Tensor.bcast (Tensor.lift2 rmul))
            (p_ctx_rows test d I ctx) (map Q I);
   Tensor.bcast (Tensor.lift2 rdiv) (map tsum prod)
     (map (normalizer test) (map length ctx)))
  = Some (pq_rows test d I ctx).
Proof.
  intros HP HQ Hl.
  rewrite Tensor.bcast_matrix_same.
  2:{ apply (Tensor.rect_Forall2 d).
      - rewrite p_ctx_rows_length, length_map; done.
      - by apply p_ctx_rows_rect.
      - apply Forall_forall. by intros row (c & -> & _)%list_elem_of_fmap. }
  simpl. rewrite Tensor.bcast_lift2_same.
  2:{ rewrite !length_map, length_zip_with, p_ctx_rows_length, length_map; [lia|done]. }
  f_equal. unfold pq_rows, p_ctx_rows, dot.
  revert I Hl. induction ctx as [|c ctx IH]; intros [|i I] Hl; simpl in *; try done.
  injection Hl as Hl. by rewrite (IH I Hl).
Qed.

Definition neg_rows (test : bool) (d : nat) (I : list nat) (ctx : list (list nat))
    (bu : list R) (I_neg : list (list nat)) (bi_neg : list (list R)) : list (list R) :=
  zip_with (zip_with radd)
    (zip_with (fun x row => map (radd x) row) bu bi_neg)
    (zip_with (fun row y => map (fun x => rdiv x y) row)
       (map (map tsum)
          (zip_with (fun pc qn => map (zip_with rmul pc) qn)
                    (p_ctx_rows test d I ctx) (map (map Q) I_neg)))
       (map (normalizer test) (map length ctx))).

Lemma view3_closed (d n batch : nat) (I_neg : list (list nat)) :
  (forall i, length (Q i) = d) ->
  0 < batch -> 0 < n -> length I_neg = batch ->
  Forall (fun row => length row = n) I_neg ->
  view3 batch n (map Q (concat I_neg)) = Some (map (map Q) I_neg).
Proof.
  intros HQ Hb Hn Hl Hrect. unfold view3.
  assert (length (map Q (concat I_neg)) = batch * n) as Hrows.
  { by rewrite length_map, (Tensor.length_concat_rect n I_neg Hrect), Hl. }
  assert (Forall (fun row => length row = d) (map Q (concat I_neg))) as Hd.
  { apply Forall_forall. by intros row (i & -> & _)%list_elem_of_fmap. }
  rewrite (Tensor.length_concat_rect d _ Hd), Hrows.
  destruct (Nat.eqb_spec (batch * n) 0) as [H0|Hne]; [nia|].
  rewrite Nat.mul_comm, Nat.Div0.mod_mul. simpl.
  rewrite Nat.div_mul by done.
  rewrite <- Hrows at 1. rewrite (Tensor.chunks_concat d _ Hd).
  rewrite concat_map. rewrite <- Hl.
  replace (length I_neg) with (length (map (map Q) I_neg)) by apply length_map.
  rewrite Tensor.chunks_concat; [done|].
  apply Forall_forall. intros row (c & -> & Hin)%list_elem_of_fmap.
  rewrite length_map. rewrite Forall_forall in Hrect. by apply Hrect.
Qed.

Lemma neg_ratings_closed (test : bool) (d n : nat) (I : list nat)
    (ctx : list (list nat)) (bu : list R) (I_neg : list (list nat))
    (bi_neg : list (list R)) :
  (forall i, length (P i) = d) -> (forall i, length (Q i) = d) ->
  length ctx = length I -> length bu = length I ->
  0 < length I -> 0 < n -> length I_neg = length I ->
  Forall (fun row => length row = n) I_neg ->
  mapM (Tensor.gather b_i) I_neg = Some bi_neg ->
  neg_ratings (length I) (p_ctx_rows test d I ctx)
              (map (normalizer test) (map length ctx)) bu I_neg
  = Some (neg_rows test d I ctx bu I_neg bi_neg).
Proof.
  intros HP HQ Hctx Hbu Hpos Hn Hneg Hrect Hbi. unfold neg_ratings.
  assert (match I_neg with [] => 0 | row :: _ => length row end = n) as ->.
  { destruct I_neg as [|row rest]; simpl in *; [lia|].
    by apply Forall_cons in Hrect as [? _]. }
  rewrite (view3_closed d n (length I) I_neg HQ Hpos Hn Hneg Hrect). simpl.
  rewrite (Tensor.bcast_same_Forall2 _ (fun pc qn => map (zip_with rmul pc) qn)).
  2:{ apply (Tensor.Forall2_of_Forall
               (fun pc => length pc = d)
               (fun qn => Forall (fun row => length row = d) qn)).
      - rewrite p_ctx_rows_length, length_map; [lia|done].
      - by apply p_ctx_rows_rect.
      - apply Forall_forall. intros qn (c & -> & _)%list_elem_of_fmap.
        apply Forall_forall. by intros row (i & -> & _)%list_elem_of_fmap.
      - intros pc qn Hpc Hqn. apply Tensor.bcast_row_rows.
        eapply Forall_impl; [exact Hqn|]. intros row Hrow. simpl in *. lia. }
  simpl. rewrite Tensor.bcast_rows_column.
  2:{ rewrite !length_map, length_zip_with, p_ctx_rows_length, length_map; [lia|done]. }
  simpl. rewrite Hbi. simpl.
  assert (length bi_neg = length I) as Hbil.
  { apply length_mapM in Hbi. lia. }
  assert (Forall (fun brow => length brow = n) bi_neg) as Hbirect.
  { apply mapM_Some_1 in Hbi. clear -Hbi Hrect.
    induction Hbi as [|row brow I_neg bi_neg Hrow Hrest IH]; [constructor|].
    apply Forall_cons in Hrect as [Hr Hrect]. constructor; [|by apply IH].
    apply length_mapM in Hrow. lia. }
  rewrite Tensor.bcast_column_rows by lia. simpl.
  rewrite Tensor.bcast_matrix_same; [done|].
  apply (Tensor.rect_Forall2 n).
  - rewrite !length_zip_with, !length_map, length_zip_with, p_ctx_rows_length, length_map;
      [lia|done].
  - apply Tensor.zip_with_rect. eapply Forall_impl; [exact Hbirect|].
    intros brow Hbrow x. simpl. by rewrite length_map.
  - assert (Forall (fun row => length row = n)
              (map (map tsum)
                 (zip_with (fun pc qn => map (zip_with rmul pc) qn)
                    (p_ctx_rows test d I ctx) (map (map Q) I_neg)))) as Hrows.
    { apply Forall_forall. intros row (row' & -> & Hin)%list_elem_of_fmap.
      rewrite length_map.
      apply list_elem_of_lookup in Hin as [b Hb].
      apply lookup_zip_with_Some in Hb as (pc & qn & -> & _ & Hqn).
      rewrite length_map.
      rewrite Tensor.lookup_map in Hqn.
      destruct (I_neg !! b) as [nrow|] eqn:Hnrow; simpl in Hqn; [|done].
      injection Hqn as <-. rewrite length_map.
      rewrite Forall_forall in Hrect. apply Hrect.
      eapply list_elem_of_lookup_2; eauto. }
    revert Hrows. generalize (map (normalizer test) (map length ctx)).
    generalize (map (map tsum)
                 (zip_with (fun pc qn => map (zip_with rmul pc) qn)
                    (p_ctx_rows test d I ctx) (map (map Q) I_neg))).
    clear. intros m. induction m as [|row m IH]; intros [|y ys] Hm; simpl; try done.
    apply Forall_cons in Hm as [Hrow Hm]. constructor; [by rewrite length_map|by apply IH].
Qed.

Lemma forward_closed (test : bool) (d : nat) (I U : list nat) (ctx : list (list nat))
    (bu bi : list R) (I_neg : option (list (list nat))) :
  (forall i, length (P i) = d) -> (forall i, length (Q i) = d) ->
  length U = length I -> length ctx = length I ->
  Tensor.gather b_u U = Some bu -> Tensor.gather b_i I = Some bi ->
  forward I U I_neg (concat ctx) (map length ctx) test
  = let r := zip_with radd (zip_with radd bu bi) (pq_rows test d I ctx) in
    match I_neg with
    | None => Some (r, None)
    | Some I_neg =>
        r_neg ← neg_ratings (length I) (p_ctx_rows test d I ctx)
                  (map (normalizer test) (map length ctx)) bu I_neg;
        Some (r, Some r_neg)
    end.
Proof.
  intros HP HQ HU Hctx Hbu Hbi.
  destruct (p_sum_closed d I ctx HP HQ Hctx) as (idx & H1 & H2 & H3).
  pose proof (p_ctx_closed test d I ctx HP Hctx) as H4.
  pose proof (pq_closed test d I ctx HP HQ Hctx) as H5.
  assert (length bu = length I) as Hbul by (apply length_mapM in Hbu; lia).
  assert (length bi = length I) as Hbil by (apply length_mapM in Hbi; lia).
  unfold forward. rewrite HU, H1.
  cbn [mbind option_bind]. rewrite H2. cbn [mbind option_bind]. rewrite H3.
  cbn [mbind option_bind]. rewrite H4. cbn [mbind option_bind].
  destruct (Tensor.bcast (Tensor.bcast (Tensor.lift2 rmul))
              (p_ctx_rows test d I ctx) (map Q I)) as [prod|] eqn:Hprod;
    cbn [mbind option_bind] in H5; [|done].
  cbn [mbind option_bind]. rewrite H5. cbn [mbind option_bind].
  rewrite Hbu, Hbi. cbn [mbind option_bind].
  rewrite Tensor.bcast_lift2_same by lia. cbn [mbind option_bind].
  rewrite Tensor.bcast_lift2_same; [done|].
  rewrite length_zip_with. unfold pq_rows. rewrite length_zip_with. lia.
Qed.

(** C1: on a batch whose users have the interacted items [ctx] (so that
    [I_U] is their concatenation and [N_U] their sizes), [forward] rates
    item [I[b]] for user [U[b]] as
    [b_u[U] + b_i[I] + (p_ctx . q_I) / norm], where [p_ctx] is the sum of
    the [P]-embeddings of the user's interacted items and [norm] is
    [N_U ^ alpha] when [test] holds, and where otherwise [P(I)] is
    subtracted from [p_ctx] and [norm] is [clamp_min (N_U - 1) 1 ^ alpha];
    the negative items of [I_neg] are rated with the same [p_ctx] and
    [norm]. *)
Theorem forward_rating (test : bool) (d : nat) (I U : list nat) (ctx : list (list nat)) :
  (forall i, length (P i) = d) -> (forall i, length (Q i) = d) ->
  length U = length I -> length ctx = length I ->
  Forall (fun u => u < length b_u) U ->
  Forall (fun i => i < length b_i) I ->
  exists r,
    forward I U None (concat ctx) (map length ctx) test = Some (r, None) /\
    length r = length I /\
    (forall b i u items bu bi,
       I !! b = Some i -> U !! b = Some u -> ctx !! b = Some items ->
       b_u !! u = Some bu -> b_i !! i = Some bi ->
       r !! b = Some (rating_of test d bu bi i i items)) /\
    (forall (I_neg : list (list nat)) (n : nat),
       0 < length I -> 0 < n -> length I_neg = length I ->
       Forall (fun row => length row = n) I_neg ->
       Forall (Forall (fun m => m < length b_i)) I_neg ->
       exists r_neg,
         forward I U (Some I_neg) (concat ctx) (map length ctx) test
         = Some (r, Some r_neg) /\
         length r_neg = length I /\
         Forall (fun row => length row = n) r_neg /\
         (forall b j i u items row m bu bm,
            I !! b = Some i -> U !! b = Some u -> ctx !! b = Some items ->
            I_neg !! b = Some row -> row !! j = Some m ->
            b_u !! u = Some bu -> b_i !! m = Some bm ->
            exists r_row,
              r_neg !! b = Some r_row /\
              r_row !! j = Some (rating_of test d bu bm i m items))).
Proof.
  intros HP HQ HU Hctx HbuR HbiR.
  destruct (Tensor.gather_in_range b_u U HbuR) as (bu & Hbu & Hbu2).
  destruct (Tensor.gather_in_range b_i I HbiR) as (bi & Hbi & Hbi2).
  assert (length bu = length I) as Hbul by (apply length_mapM in Hbu; lia).
  assert (length bi = length I) as Hbil by (apply length_mapM in Hbi; lia).
  exists (zip_with radd (zip_with radd bu bi) (pq_rows test d I ctx)).
  split; [|split; [|split]].
  - by rewrite (forward_closed test d I U ctx bu bi None).
  - rewrite !length_zip_with. unfold pq_rows. rewrite length_zip_with. lia.
  - intros b i u items bub bib Hi Hu Hit Hbub Hbib.
    destruct (Forall2_lookup_l _ _ _ _ _ Hbu2 Hu) as (x & Hx & Hx'). simpl in Hx'.
    destruct (Forall2_lookup_l _ _ _ _ _ Hbi2 Hi) as (y & Hy & Hy'). simpl in Hy'.
    assert (x = bub) as -> by congruence. assert (y = bib) as -> by congruence.
    rewrite !lookup_zip_with, Hx, Hy. simpl.
    unfold pq_rows. rewrite lookup_zip_with, Hi, Hit. done.
  - intros I_neg n Hpos Hn Hneg Hrect Hrange.
    assert (exists bi_neg, mapM (Tensor.gather b_i) I_neg = Some bi_neg)
      as [bi_neg Hbin].
    { destruct (mapM (Tensor.gather b_i) I_neg) as [bi_neg|] eqn:E; [by eexists|].
      apply mapM_None_1, Exists_exists in E as (row & Hin & Hnone).
      rewrite Forall_forall in Hrange.
      destruct (Tensor.gather_in_range b_i row (Hrange row Hin)) as (xs & Hxs & _).
      congruence. }
    exists (neg_rows test d I ctx bu I_neg bi_neg).
    assert (length bi_neg = length I) as Hbinl by (apply length_mapM in Hbin; lia).
    assert (Forall2 (fun row brow => Forall2 (fun m x => b_i !! m = Some x) row brow)
              I_neg bi_neg) as Hbin2.
    { apply mapM_Some_1 in Hbin. eapply Forall2_impl; [exact Hbin|].
      intros row brow Hg. by apply mapM_Some_1 in Hg. }
    assert (Forall (fun brow => length brow = n) bi_neg) as Hbirect.
    { clear -Hbin2 Hrect.
      induction Hbin2 as [|row brow I_neg bi_neg Hrow Hrest IH]; [constructor|].
      apply Forall_cons in Hrect as [Hr Hrect]. constructor; [|by apply IH].
      apply Forall2_length in Hrow. lia. }
    split; [|split; [|split]].
    + rewrite (forward_closed test d I U ctx bu bi (Some I_neg)) by done.
      cbn zeta. cbn match.
      by rewrite (neg_ratings_closed test d n I ctx bu I_neg bi_neg).
    + unfold neg_rows.
      rewrite !length_zip_with, !length_map, length_zip_with, p_ctx_rows_length,
        length_map by done. lia.
    + unfold neg_rows. apply Forall_forall. intros row Hin.
      apply list_elem_of_lookup in Hin as [b Hb].
      apply lookup_zip_with_Some in Hb as (r1 & r2 & -> & Hr1 & Hr2).
      apply lookup_zip_with_Some in Hr1 as (x & brow & -> & _ & Hbrow).
      apply lookup_zip_with_Some in Hr2 as (srow & y & -> & Hsrow & _).
      rewrite length_zip_with, !length_map.
      rewrite Tensor.lookup_map in Hsrow.
      destruct (zip_with (fun pc qn => map (zip_with rmul pc) qn)
                  (p_ctx_rows test d I ctx) (map (map Q) I_neg) !! b)
        as [prow|] eqn:Hprow; simpl in Hsrow; [|done].
      injection Hsrow as <-. rewrite length_map.
      apply lookup_zip_with_Some in Hprow as (pc & qn & -> & _ & Hqn).
      rewrite Tensor.lookup_map in Hqn.
      destruct (I_neg !! b) as [nrow|] eqn:Hnrow; simpl in Hqn; [|done].
      injection Hqn as <-. rewrite !length_map.
      rewrite Forall_forall in Hrect. rewrite Forall_forall in Hbirect.
      rewrite (Hrect nrow) by (eapply list_elem_of_lookup_2; eauto).
      rewrite (Hbirect brow) by (eapply list_elem_of_lookup_2; eauto). lia.
    + intros b j i u items row m bub bm Hi Hu Hit Hrow Hm Hbub Hbm.
      destruct (Forall2_lookup_l _ _ _ _ _ Hbu2 Hu) as (x & Hx & Hx'). simpl in Hx'.
      assert (x = bub) as -> by congruence.
      destruct (Forall2_lookup_l _ _ _ _ _ Hbin2 Hrow) as (brow & Hbrow & Hbrow').
      destruct (Forall2_lookup_l _ _ _ _ _ Hbrow' Hm) as (z & Hz & Hz'). simpl in Hz'.
      assert (z = bm) as -> by congruence.
      unfold neg_rows.
      rewrite !lookup_zip_with, Hx, Hbrow. cbn [mbind option_bind].
      rewrite !Tensor.lookup_map, lookup_zip_with.
      unfold p_ctx_rows at 1. rewrite lookup_zip_with, Hi, Hit.
      cbn [mbind option_bind]. rewrite Tensor.lookup_map, Hrow.
      cbn [mbind option_bind fmap option_fmap option_map].
      eexists. split; [reflexivity|].
      rewrite lookup_zip_with, !Tensor.lookup_map, Hz, Hm.
      cbn [mbind option_bind fmap option_fmap option_map]. done.
Qed.

(** [est_rating] hands the ratings over as two columns: one rating per
    user, then the negative ratings user after user. *)
Lemma est_rating_columns (I U : list nat) (I_neg : list (list nat)) (I_U N_U : list nat)
    (r : list R) (r_neg : list (list R)) :
  forward I U (Some I_neg) I_U N_U true = Some (r, Some r_neg) ->
  0 < length r -> length r_neg = length r ->
  est_rating I U I_neg I_U N_U
  = Some (Tensor.column r, Tensor.column (concat r_neg)).
Proof.
  intros Hf Hpos Hlen. unfold est_rating. rewrite Hf. cbn [mbind option_bind].
  destruct (Nat.eqb_spec (length r) 0) as [H0|_]; [lia|].
  rewrite Hlen, Nat.div_same by lia. by rewrite Tensor.reshape_one.
Qed.
End Rating.

End FISMRating.

(** ** Data split and negative sampling (process_movielens) *)

Module Movielens.

(** A SciPy COO matrix whose data are all ones: the stored [(row, col)]
    entries in storage order. *)
Abbreviation coo := (list (nat * nat)).

(** [spm.shape[0]] of a matrix built without an explicit shape. *)
Definition shape0 (m : coo) : nat := S (foldr Nat.max 0 (map fst m)).

(** The column indices of row [i] of [spm.tocsr()]; the conversion merges
    duplicate entries. *)
Definition csr_row (m : coo) (i : nat) : list nat :=
  remove_dups (map snd (filter (fun e => e.1 = i) m)).

(** [spm.tocsr().indptr[i]]. *)
Definition indptr (m : coo) (i : nat) : nat :=
  sum_list (map (fun r => length (csr_row m r)) (seq 0 i)).

(** [np.random.choice(np.arange(start, stop), 2, replace=False)], driven by
    two raw random numbers: every pair of distinct positions of the range is
    the image of some raw pair.  A range of fewer than two positions raises. *)
Definition choice2 (raw : nat * nat) (start stop : nat) : option (nat * nat) :=
  let size := stop - start in
  if size <? 2 then None
  else
    let a := raw.1 mod size in
    let s := raw.2 mod (size - 1) in
    Some (start + a, start + (if s <? a then s else S s)).

(** One iteration of the loop over the users in [pick_test]. *)
Definition pick_step (m : coo) (rng : nat -> nat * nat)
    (st : option (list nat * list nat * list bool)) (i : nat)
    : option (list nat * list nat * list bool) :=
  '(valid_set, test_set, picks) ← st;
  let movies := map snd m in
  let start_idx := indptr m i in
  let end_idx := indptr m (S i) in
  idx ← choice2 (rng i) start_idx end_idx;
  v ← movies !! idx.1;
  t ← movies !! idx.2;
  Some (<[i:=v]> valid_set, <[i:=t]> test_set, <[idx.2:=true]> (<[idx.1:=true]> picks)).

(** [pick_test(user_movie_spm)]; the global [num_users] is the number of
    rows of the same matrix.  Building the training matrix from no entries
    raises. *)
Definition pick_test (m : coo) (rng : nat -> nat * nat)
    : option (coo * list nat * list nat) :=
  let num_users := shape0 m in
  '(valid_set, test_set, picks) ←
    fold_left (pick_step m rng) (seq 0 num_users)
      (Some (repeat 0 num_users, repeat 0 num_users, repeat false (length m)));
  let train := map fst (filter (fun ep => ep.2 = false) (zip m picks)) in
  match train with
  | [] => None
  | _ => Some (train, valid_set, test_set)
  end.

(** The movies a user interacted with. *)
Definition movies_of (m : coo) (u : nat) : list nat :=
  map snd (filter (fun e => e.1 = u) m).

(** A matrix whose entries are not stored in row order: user 1's three
    interactions come first, then user 0's. *)
Definition unsorted_spm : coo := [(1, 5); (1, 7); (1, 9); (0, 6); (0, 8); (0, 10)].

Lemma choice2_cases (raw : nat * nat) (start stop : nat) :
  stop = start + 3 ->
  exists a b, choice2 raw start stop = Some (start + a, start + b) /\
              a < 3 /\ b < 3 /\ a <> b.
Proof.
  intros ->. unfold choice2. replace (start + 3 - start) with 3 by lia.
  change (3 <? 2) with false. cbv iota. change (3 - 1) with 2.
  pose proof (Nat.mod_upper_bound raw.1 3 ltac:(lia)) as Ha.
  pose proof (Nat.mod_upper_bound raw.2 2 ltac:(lia)) as Hs.
  exists (raw.1 mod 3), (if raw.2 mod 2 <? raw.1 mod 3 then raw.2 mod 2 else S (raw.2 mod 2)).
  split; [done|]. destruct (Nat.ltb_spec (raw.2 mod 2) (raw.1 mod 3)); lia.
Qed.

(** C7 at the unsorted matrix: every user has three interactions, yet
    whatever positions the random choice returns, [pick_test] returns and the
    validation and test items it designates for user 0 are two of user 1's
    movies, which user 0 never interacted with. *)
Theorem pick_test_unsorted (rng : nat -> nat * nat) :
  (forall u, u < shape0 unsorted_spm -> 2 <= length (movies_of unsorted_spm u)) /\
  exists train valid_set test_set v t,
    pick_test unsorted_spm rng = Some (train, valid_set, test_set) /\
    valid_set !! 0 = Some v /\ test_set !! 0 = Some t /\
    In v (movies_of unsorted_spm 1) /\ In t (movies_of unsorted_spm 1) /\
    ~ In v (movies_of unsorted_spm 0) /\ ~ In t (movies_of unsorted_spm 0).
Proof.
  split.
  { intros u Hu. change (shape0 unsorted_spm) with 2 in Hu.
    destruct u as [|[|u]]; [vm_compute; lia..|lia]. }
  destruct (choice2_cases (rng 0) 0 3 eq_refl) as (a0 & b0 & E0 & Ha0 & Hb0 & Hab0).
  destruct (choice2_cases (rng 1) 3 6 eq_refl) as (a1 & b1 & E1 & Ha1 & Hb1 & Hab1).
  unfold pick_test.
  change (shape0 unsorted_spm) with 2. change (seq 0 2) with [0; 1].
  cbn [fold_left]. unfold pick_step.
  change (indptr unsorted_spm 0) with 0. change (indptr unsorted_spm 1) with 3.
  change (indptr unsorted_spm 2) with 6.
  cbn [mbind option_bind]. rewrite E0. cbn [mbind option_bind fst snd].
  destruct a0 as [|[|[|a0]]]; try lia; destruct b0 as [|[|[|b0]]]; try lia;
    cbn [Nat.add map snd unsorted_spm lookup list_lookup mbind option_bind];
    rewrite E1; cbn [mbind option_bind fst snd];
    destruct a1 as [|[|[|a1]]]; try lia; destruct b1 as [|[|[|b1]]]; try lia;
    vm_compute;
    (do 5 eexists; split; [reflexivity|]; split; [reflexivity|]; split; [reflexivity|];
     split; [tauto|]; split; [tauto|]; split; lia).
Qed.

(** *** gen_neg_set *)

(** What running a loop with a bound on its iterations can give. *)
Inductive outcome (A : Type) : Type :=
| Returned (a : A)
| Raised
| OutOfFuel.
Arguments Returned {A} a.
Arguments Raised {A}.
Arguments OutOfFuel {A}.

Section GenNegSet.
(** [user_movie_spm[user, movie] != 0]. *)
Variable interacted : nat -> nat -> bool.
Variables num_users num_movies : nat.
(** [draws user k]: the result of the [k]-th call of
    [np.random.choice(num_movies, neg_sample_size, replace=False)] made
    for [user]. *)
Variable draws : nat -> nat -> list nat.
(** Whether [user_movie_spm[user, movie]] accepts a [float64] index that
    holds an integer.  SciPy once did, with a [DeprecationWarning]; current
    SciPy raises an exception instead. *)
Variable float_index : bool.
(** [set_order user movie_set]: [list(movie_set)] for the set built for
    [user], in the order in which the hash table of the set is traversed. *)
Variable set_order : nat -> gset nat -> list nat.

(** The [for movie in movies] loop with its [break]. *)
Fixpoint scan (user n : nat) (movies : list nat) (movie_set : gset nat) : gset nat :=
  match movies with
  | [] => movie_set
  | movie :: rest =>
      let movie_set :=
        if interacted user movie then movie_set else {[movie]} ∪ movie_set in
      if size movie_set =? n then movie_set else scan user n rest movie_set
  end.

(** The [while len(movie_set) < neg_sample_size] loop, at most [fuel]
    iterations, starting with the [k]-th draw. *)
Fixpoint sample (fuel : nat) (user n k : nat) (movie_set : gset nat)
    : option (gset nat) :=
  if size movie_set <? n then
    match fuel with
    | 0 => None
    | S fuel' => sample fuel' user n (S k) (scan user n (draws user k) movie_set)
    end
  else Some movie_set.

(** The first loop over the users: the rows of [neg_mat].  Assigning a row
    of the wrong length raises, as does drawing more movies than exist.
    [neg_mat] is a [float64] matrix; a row is written as the integers its
    entries hold, which are the movie ids as long as these are below
    [2^53]. *)
Fixpoint fill (fuel : nat) (n : nat) (users : list nat) : outcome (list (list nat)) :=
  match users with
  | [] => Returned []
  | user :: rest =>
      if (0 <? n) && (num_movies <? n) then Raised
      else
        match sample fuel user n 0 ∅ with
        | None => OutOfFuel
        | Some movie_set =>
            let row := set_order user movie_set in
            if length row =? n then
              match fill fuel n rest with
              | Returned rows => Returned (row :: rows)
              | Raised => Raised
              | OutOfFuel => OutOfFuel
              end
            else Raised
        end
  end.

(** The second loop: [assert user_movie_spm[user, movie] == 0], where
    [movie] is read back from [neg_mat] and so is a [float64]: the lookup
    itself raises unless the matrix accepts such an index. *)
Definition asserts_hold (neg_mat : list (list nat)) : bool :=
  forallb (fun ur => forallb (fun movie => float_index && negb (interacted ur.1 movie)) ur.2)
          (zip (seq 0 (length neg_mat)) neg_mat).

(** [gen_neg_set(user_movie_spm, neg_sample_size)]. *)
Definition gen_neg_set (fuel : nat) (neg_sample_size : nat) : outcome (list (list nat)) :=
  match fill fuel neg_sample_size (seq 0 num_users) with
  | Returned neg_mat => if asserts_hold neg_mat then Returned neg_mat else Raised
  | Raised => Raised
  | OutOfFuel => OutOfFuel
  end.

(** The cell that saves a negative set: the three assertions on every
    [(row, col)] pair. *)
Definition save_asserts (neg : list (list nat)) (train_map valid_map test_map : gset (nat * nat))
    : bool :=
  forallb (fun rc => forallb (fun col =>
             bool_decide ((rc.1, col) ∉ train_map) &&
             bool_decide ((rc.1, col) ∉ valid_map) &&
             bool_decide ((rc.1, col) ∉ test_map)) rc.2)
          (zip (seq 0 (length neg)) neg).

(** The non-interacted movies among the first [k] draws of a user. *)
Fixpoint seen (user k : nat) : gset nat :=
  match k with
  | 0 => ∅
  | S k' => seen user k' ∪ list_to_set (filter (fun m => interacted user m = false)
                                               (draws user k'))
  end.

Definition fresh (user : nat) (movies : list nat) : gset nat :=
  list_to_set (filter (fun m => interacted user m = false) movies).

Lemma size_add_le (m : nat) (X : gset nat) : size ({[m]} ∪ X) <= S (size X).
Proof.
  rewrite size_union_alt, size_singleton.
  assert (X ∖ {[m]} ⊆ X) as Hsub.
  { intros x Hx. by apply elem_of_difference in Hx as [? _]. }
  pose proof (subseteq_size (X ∖ {[m]}) X Hsub). lia.
Qed.

Lemma scan_spec (user n : nat) (movies : list nat) : forall X : gset nat,
  size X < n ->
  (forall m, m ∈ X -> interacted user m = false) ->
  let X' := scan user n movies X in
  size X' <= n /\
  (forall m, m ∈ X' -> interacted user m = false) /\
  (size X' = n \/ X' = X ∪ fresh user movies).
Proof.
  induction movies as [|movie rest IH]; intros X Hlt Hneg; simpl.
  - split; [lia|]. split; [done|]. right. unfold fresh. simpl.
    by rewrite (right_id_L ∅ (∪)).
  - set (X1 := if interacted user movie then X else {[movie]} ∪ X).
    assert (size X1 <= n) as Hle1.
    { subst X1. destruct (interacted user movie); [lia|].
      pose proof (size_add_le movie X). lia. }
    assert (forall m, m ∈ X1 -> interacted user m = false) as Hneg1.
    { subst X1. destruct (interacted user movie) eqn:E; [done|].
      intros m [->%elem_of_singleton|Hm]%elem_of_union; auto. }
    assert (X1 ∪ fresh user rest = X ∪ fresh user (movie :: rest)) as Hfresh.
    { subst X1. unfold fresh. rewrite filter_cons.
      destruct (interacted user movie) eqn:E.
      - rewrite decide_False by done. done.
      - rewrite decide_True by done. simpl.
        by rewrite (comm_L (∪) {[movie]} X), <- (assoc_L (∪)). }
    destruct (Nat.eqb_spec (size X1) n) as [Heq|Hne].
    + split; [lia|]. split; [done|]. by left.
    + destruct (IH X1 ltac:(lia) Hneg1) as (H1 & H2 & H3).
      split; [done|]. split; [done|].
      destruct H3 as [H3|H3]; [by left|right]. by rewrite H3.
Qed.

Lemma sample_done (fuel user n k : nat) (X : gset nat) :
  n <= size X -> sample fuel user n k X = Some X.
Proof.
  intros Hle. destruct fuel; simpl;
    destruct (Nat.ltb_spec (size X) n); try lia; done.
Qed.

Lemma sample_sound (fuel user n : nat) : forall k (X X' : gset nat),
  size X <= n ->
  (forall m, m ∈ X -> interacted user m = false) ->
  sample fuel user n k X = Some X' ->
  size X' = n /\ forall m, m ∈ X' -> interacted user m = false.
Proof.
  induction fuel as [|fuel IH]; intros k X X' Hle Hneg; simpl;
    destruct (Nat.ltb_spec (size X) n) as [Hlt|Hge]; try done.
  - intros [= <-]. split; [lia|done].
  - destruct (scan_spec user n (draws user k) X Hlt Hneg) as (H1 & H2 & _).
    by apply IH.
  - intros [= <-]. split; [lia|done].
Qed.

Lemma seen_mono (user j k : nat) : j <= k -> seen user j ⊆ seen user k.
Proof. induction 1 as [|k Hle IH]; simpl; set_solver. Qed.

Lemma seen_clean (user k : nat) : forall m, m ∈ seen user k -> interacted user m = false.
Proof.
  induction k as [|k IH]; simpl; intros m Hm; [set_solver|].
  apply elem_of_union in Hm as [Hm|Hm]; [by apply IH|].
  apply elem_of_list_to_set, list_elem_of_filter in Hm as [Hm _]. done.
Qed.

Lemma sample_terminates (user n k : nat) :
  n <= size (seen user k) ->
  forall fuel j, j + fuel = k -> is_Some (sample fuel user n j (seen user j)).
Proof.
  intros Hk. induction fuel as [|fuel IH]; intros j Hj.
  - replace j with k by lia. rewrite sample_done by done. eauto.
  - simpl. destruct (Nat.ltb_spec (size (seen user j)) n) as [Hlt|Hge]; [|eauto].
    destruct (scan_spec user n (draws user j) (seen user j) Hlt (seen_clean user j))
      as (H1 & _ & [H3|H3]).
    + rewrite sample_done by lia. eauto.
    + rewrite H3. apply (IH (S j)). lia.
Qed.

Lemma sample_fuel_mono (user n : nat) : forall fuel fuel' k (X X' : gset nat),
  sample fuel user n k X = Some X' -> fuel <= fuel' ->
  sample fuel' user n k X = Some X'.
Proof.
  induction fuel as [|fuel IH]; intros fuel' k X X'; simpl;
    destruct (Nat.ltb_spec (size X) n) as [Hlt|Hge]; try done.
  - intros [= <-] _. by apply sample_done.
  - intros Hs Hle. destruct fuel' as [|fuel']; [lia|]. simpl.
    destruct (Nat.ltb_spec (size X) n); [|lia]. apply IH; [done|lia].
  - intros [= <-] _. by apply sample_done.
Qed.

Definition row_ok (n user : nat) (row : list nat) : Prop :=
  length row = n /\ NoDup row /\ forall m, m ∈ row -> interacted user m = false.

(** Whatever the order, the list of a set holds each of its elements
    once. *)
Hypothesis set_order_perm : forall user X, set_order user X ≡ₚ elements X.

Lemma sample_row (fuel user n : nat) (X : gset nat) :
  sample fuel user n 0 ∅ = Some X ->
  length (set_order user X) = n /\ row_ok n user (set_order user X).
Proof.
  intros Hs. apply sample_sound in Hs as [Hsize Hneg].
  - pose proof (set_order_perm user X) as Hp. unfold row_ok.
    assert (length (set_order user X) = n) as Hl.
    { rewrite (Permutation_length Hp). exact Hsize. }
    split; [done|]. split; [done|]. split; [rewrite Hp; apply NoDup_elements|].
    intros m Hm. rewrite Hp in Hm. apply elem_of_elements in Hm. by apply Hneg.
  - rewrite size_empty. lia.
  - set_solver.
Qed.

Lemma fill_sound (fuel n : nat) (users : list nat) : forall rows,
  fill fuel n users = Returned rows -> Forall2 (row_ok n) users rows.
Proof.
  induction users as [|user rest IH]; intros rows; simpl.
  - intros [= <-]. constructor.
  - destruct ((0 <? n) && (num_movies <? n)); [done|].
    destruct (sample fuel user n 0 ∅) as [X|] eqn:Hs; [|done].
    destruct (sample_row fuel user n X Hs) as [Hlen Hrow].
    rewrite Hlen, Nat.eqb_refl.
    destruct (fill fuel n rest) as [rows'| |]; try done.
    intros [= <-]. constructor; [done|by apply IH].
Qed.

Lemma fill_not_raised (fuel n : nat) (users : list nat) :
  n <= num_movies -> fill fuel n users <> Raised.
Proof.
  intros Hn. induction users as [|user rest IH]; simpl; [done|].
  destruct (Nat.ltb_spec num_movies n) as [?|_]; [lia|]. rewrite andb_false_r.
  destruct (sample fuel user n 0 ∅) as [X|] eqn:Hs; [|done].
  destruct (sample_row fuel user n X Hs) as [Hlen Hrow].
  rewrite Hlen, Nat.eqb_refl.
  destruct (fill fuel n rest) as [rows'| |]; done.
Qed.

Lemma fill_terminates (fuel n : nat) (users : list nat) :
  n <= num_movies ->
  Forall (fun user => is_Some (sample fuel user n 0 ∅)) users ->
  exists rows, fill fuel n users = Returned rows.
Proof.
  intros Hn. induction 1 as [|user rest [X Hs] Hrest [rows IH]]; simpl; [by eexists|].
  destruct (Nat.ltb_spec num_movies n) as [?|_]; [lia|]. rewrite andb_false_r.
  rewrite Hs. destruct (sample_row fuel user n X Hs) as [Hlen _].
  rewrite Hlen, Nat.eqb_refl, IH. by eexists.
Qed.

Lemma asserts_hold_rows (n : nat) (rows : list (list nat)) : forall start,
  float_index = true ->
  Forall2 (row_ok n) (seq start (length rows)) rows ->
  forallb (fun ur => forallb (fun movie => float_index && negb (interacted ur.1 movie)) ur.2)
          (zip (seq start (length rows)) rows) = true.
Proof.
  induction rows as [|row rows IH]; intros start Hfloat Hrows; simpl in *; [done|].
  apply Forall2_cons in Hrows as [(_ & _ & Hrow) Hrows].
  rewrite IH by done. rewrite andb_true_r.
  apply forallb_forall. intros m Hm%list_elem_of_In. by rewrite Hfloat, Hrow.
Qed.

(** Without float indices the first lookup of the second loop raises. *)
Lemma asserts_raise (n : nat) (rows : list (list nat)) : forall start,
  float_index = false -> 1 <= n -> rows <> [] ->
  Forall (fun row => length row = n) rows ->
  forallb (fun ur => forallb (fun movie => float_index && negb (interacted ur.1 movie)) ur.2)
          (zip (seq start (length rows)) rows) = false.
Proof.
  intros start Hfloat Hn Hne Hrows. destruct rows as [|row rows]; [done|].
  apply Forall_cons in Hrows as [Hrow _]. destruct row as [|m row]; [simpl in Hrow; lia|].
  simpl. by rewrite Hfloat.
Qed.

Lemma save_asserts_rows (n : nat) (train_map valid_map test_map : gset (nat * nat))
    (rows : list (list nat)) : forall start,
  (forall u m, (u, m) ∈ train_map ∪ valid_map ∪ test_map -> interacted u m = true) ->
  Forall2 (row_ok n) (seq start (length rows)) rows ->
  forallb (fun rc => forallb (fun col =>
             bool_decide ((rc.1, col) ∉ train_map) &&
             bool_decide ((rc.1, col) ∉ valid_map) &&
             bool_decide ((rc.1, col) ∉ test_map)) rc.2)
          (zip (seq start (length rows)) rows) = true.
Proof.
  intros start Hmaps. revert start.
  induction rows as [|row rows IH]; intros start Hrows; simpl in *; [done|].
  apply Forall2_cons in Hrows as [(_ & _ & Hrow) Hrows].
  rewrite IH by done. rewrite andb_true_r.
  apply forallb_forall. intros m Hm%list_elem_of_In.
  specialize (Hrow m Hm).
  rewrite !andb_true_iff, !bool_decide_eq_true.
  repeat split; intros Hin;
    (assert (interacted start m = true) as Ht by (apply Hmaps; set_solver));
    congruence.
Qed.

Lemma gen_neg_set_returned (fuel n : nat) (neg : list (list nat)) :
  gen_neg_set fuel n = Returned neg ->
  Forall2 (row_ok n) (seq 0 num_users) neg.
Proof.
  unfold gen_neg_set.
  destruct (fill fuel n (seq 0 num_users)) as [rows| |] eqn:Hf; try done.
  destruct (asserts_hold rows); [|done]. intros [= <-]. by apply fill_sound in Hf.
Qed.

Lemma productive_bound (n users : nat) :
  (forall u, u < users -> exists k, n <= size (seen u k)) ->
  exists K, forall u, u < users -> n <= size (seen u K).
Proof.
  induction users as [|users IH]; intros H; [exists 0; lia|].
  destruct IH as [K HK]; [intros u Hu; apply H; lia|].
  destruct (H users ltac:(lia)) as [k Hk].
  exists (Nat.max K k). intros u Hu.
  destruct (decide (u = users)) as [->|Hne].
  - pose proof (subseteq_size (seen users k) (seen users (Nat.max K k))
                  (seen_mono users k (Nat.max K k) ltac:(lia))). lia.
  - pose proof (subseteq_size (seen u K) (seen u (Nat.max K k))
                  (seen_mono u K (Nat.max K k) ltac:(lia))).
    specialize (HK u ltac:(lia)). lia.
Qed.

(** X21: with a sparse matrix that accepts float indices, [gen_neg_set]
    never raises (its own assertions pass); whenever it returns, the result has
    one row per user with [neg_sample_size] pairwise distinct movies, none
    of which the user interacted with, and the assertions of the saving
    cell pass for any maps that hold interacted pairs only; and it does
    return once the draws made for each user contain [neg_sample_size]
    distinct non-interacted movies. *)
Theorem gen_neg_set_correct (n : nat) :
  float_index = true ->
  n <= num_movies ->
  (forall fuel, gen_neg_set fuel n <> Raised) /\
  (forall fuel neg,
     gen_neg_set fuel n = Returned neg ->
     length neg = num_users /\
     Forall (fun row => length row = n /\ NoDup row) neg /\
     (forall u row m, neg !! u = Some row -> m ∈ row -> interacted u m = false) /\
     asserts_hold neg = true /\
     (forall train_map valid_map test_map : gset (nat * nat),
        (forall u m, (u, m) ∈ train_map ∪ valid_map ∪ test_map -> interacted u m = true) ->
        save_asserts neg train_map valid_map test_map = true)) /\
  ((forall u, u < num_users -> exists k, n <= size (seen u k)) ->
   exists fuel neg, gen_neg_set fuel n = Returned neg).
Proof.
  intros Hfloat Hn. split; [|split].
  - intros fuel. unfold gen_neg_set.
    destruct (fill fuel n (seq 0 num_users)) as [rows| |] eqn:Hf; try done.
    + apply fill_sound in Hf.
      assert (length rows = num_users) as Hl.
      { apply Forall2_length in Hf. by rewrite length_seq in Hf. }
      unfold asserts_hold. rewrite (asserts_hold_rows n); [done|done|]. by rewrite Hl.
    + by apply fill_not_raised in Hf.
  - intros fuel neg Hret. pose proof (gen_neg_set_returned fuel n neg Hret) as Hrows.
    assert (length neg = num_users) as Hl.
    { apply Forall2_length in Hrows. by rewrite length_seq in Hrows. }
    split; [done|]. split; [|split; [|split]].
    + apply Forall_forall. intros row Hin.
      apply list_elem_of_lookup in Hin as [u Hu].
      destruct (Forall2_lookup_r _ _ _ _ _ Hrows Hu) as (u' & _ & (H1 & H2 & _)). done.
    + intros u row m Hu Hm.
      destruct (Forall2_lookup_r _ _ _ _ _ Hrows Hu) as (u' & Hu' & (_ & _ & H3)).
      apply lookup_seq in Hu' as [-> _]. by apply H3.
    + unfold asserts_hold. apply (asserts_hold_rows n); [done|]. by rewrite Hl.
    + intros train_map valid_map test_map Hmaps. unfold save_asserts.
      apply (save_asserts_rows n); [done|]. by rewrite Hl.
  - intros Hprod. destruct (productive_bound n num_users Hprod) as [K HK].
    destruct (fill_terminates K n (seq 0 num_users) Hn) as [rows Hrows].
    { apply Forall_forall. intros u Hu%list_elem_of_In%in_seq.
      apply (sample_terminates u n K (HK u ltac:(lia)) K 0). lia. }
    exists K, rows. unfold gen_neg_set. rewrite Hrows.
    pose proof (fill_sound K n _ rows Hrows) as Hs.
    assert (length rows = num_users) as Hl.
    { apply Forall2_length in Hs. by rewrite length_seq in Hs. }
    unfold asserts_hold. rewrite (asserts_hold_rows n); [done|done|]. by rewrite Hl.
Qed.

(** Without float indices [gen_neg_set] does not return a matrix that has
    an entry: once every row is sampled, the second loop raises at its
    first lookup. *)
Lemma gen_neg_set_raises (n : nat) :
  float_index = false -> 1 <= n -> 1 <= num_users ->
  (forall fuel neg, gen_neg_set fuel n <> Returned neg) /\
  (forall fuel rows, fill fuel n (seq 0 num_users) = Returned rows ->
                     gen_neg_set fuel n = Raised).
Proof.
  intros Hfloat Hn Hu.
  assert (forall fuel rows, fill fuel n (seq 0 num_users) = Returned rows ->
                            asserts_hold rows = false) as Hfalse.
  { intros fuel rows Hf. apply fill_sound in Hf.
    assert (length rows = num_users) as Hl.
    { apply Forall2_length in Hf. by rewrite length_seq in Hf. }
    unfold asserts_hold. apply (asserts_raise n); [done|done| |].
    - intros ->. simpl in Hl. lia.
    - apply Forall_forall. intros row Hin. apply list_elem_of_lookup in Hin as [u Hrow].
      by destruct (Forall2_lookup_r _ _ _ _ _ Hf Hrow) as (u' & _ & (H1 & _)). }
  split.
  - intros fuel neg. unfold gen_neg_set.
    destruct (fill fuel n (seq 0 num_users)) as [rows| |] eqn:Hf; try done.
    by rewrite (Hfalse fuel rows Hf).
  - intros fuel rows Hf. unfold gen_neg_set. by rewrite Hf, (Hfalse fuel rows Hf).
Qed.
End GenNegSet.

(** C8 at a matrix of one user and two movies, where the user interacted
    with movie 0 only, and one negative per user: the user has one
    non-interacted movie, as the claim demands.  Where the sparse matrix
    rejects float indices, [gen_neg_set] returns for no outcome of the
    random draws and no order of the set, and raises in its second loop as
    soon as the movie 1 is drawn; where float indices are accepted, the same
    draw returns the matrix [[1]]. *)
Theorem gen_neg_set_float_index :
  1 <= length (filter (fun m => (m =? 0) = false) (seq 0 2)) /\
  (forall draws set_order fuel neg,
     gen_neg_set (fun u m => m =? 0) 1 2 draws false set_order fuel 1 <> Returned neg) /\
  gen_neg_set (fun u m => m =? 0) 1 2 (fun u k => [1]) false (fun u => elements) 1 1
  = Raised /\
  gen_neg_set (fun u m => m =? 0) 1 2 (fun u k => [1]) true (fun u => elements) 1 1
  = Returned [[1]].
Proof.
  split; [vm_compute; lia|]. split; [|split; vm_compute; reflexivity].
  intros draws set_order fuel neg. unfold gen_neg_set.
  change (seq 0 1) with [0]. cbn [fill].
  change ((0 <? 1) && (2 <? 1)) with false. cbv iota.
  destruct (sample _ draws fuel 0 1 0 ∅) as [X|]; [|done].
  destruct (set_order 0 X) as [|m [|m' row]]; try done.
Qed.

End Movielens.

(** ** Loading top-k predictions (the analysis notebook) *)

Module TopK.

(** Strings are sequences of code points below 256.  [c.isspace()] on
    these: tab to carriage return, the four separators 28 to 31, the
    blank, NEXT LINE (133) and NO-BREAK SPACE (160). *)
Definition is_space (c : ascii) : bool :=
  let n := nat_of_ascii c in
  ((9 <=? n) && (n <=? 13)) || ((28 <=? n) && (n <=? 32)) || (n =? 133) || (n =? 160).

(** [s.split()]: the maximal runs of non-space characters; [cur] is the run
    being read. *)
Fixpoint split_aux (s : string) (cur : string) : list string :=
  match s with
  | EmptyString => if decide (cur = "") then [] else [cur]
  | String c rest =>
      if is_space c
      then (if decide (cur = "") then split_aux rest "" else cur :: split_aux rest "")
      else split_aux rest (cur +:+ String c "")
  end.

Definition split (s : string) : list string := split_aux s "".

(** [' '.join(toks)]. *)
Fixpoint join (toks : list string) : string :=
  match toks with
  | [] => ""
  | t :: rest =>
      match rest with
      | [] => t
      | _ => t +:+ " " +:+ join rest
      end
  end.

(** The white space [int] skips around a numeral: tab to carriage return,
    the blank, and the two spaces 133 and 160 (which [int] first turns
    into blanks).  The separators 28 to 31 split a line but are not
    skipped by [int]. *)
Definition int_space (c : ascii) : bool :=
  let n := nat_of_ascii c in
  ((9 <=? n) && (n <=? 13)) || (n =? 32) || (n =? 133) || (n =? 160).

Fixpoint lstrip (s : string) : string :=
  match s with
  | EmptyString => s
  | String c rest => if int_space c then lstrip rest else s
  end.

Fixpoint all_space (s : string) : bool :=
  match s with
  | EmptyString => true
  | String c rest => int_space c && all_space rest
  end.

(** The decimal digits below code point 256 are the ASCII ones. *)
Definition digit_of (c : ascii) : option Z :=
  let n := nat_of_ascii c in
  if (48 <=? n) && (n <=? 57) then Some (Z.of_nat (n - 48)) else None.

(** The digits of a numeral, with single underscores allowed between two
    digits, followed by white space only.  [prev_digit] tells whether the
    character before was a digit, [acc] is the value and [digits] the
    number of digits read so far. *)
Fixpoint parse_digits (s : string) (prev_digit : bool) (acc : Z) (digits : nat)
    : option (Z * nat) :=
  match s with
  | EmptyString => if prev_digit then Some (acc, digits) else None
  | String c rest =>
      match digit_of c with
      | Some d => parse_digits rest true (10 * acc + d)%Z (S digits)
      | None =>
          if prev_digit then
            if Ascii.eqb c "_" then parse_digits rest false acc digits
            else if all_space s then Some (acc, digits) else None
          else None
      end
  end.

(** [sys.int_info.default_max_str_digits]: a longer numeral raises
    [ValueError]. *)
Definition int_max_str_digits : nat := 4300.

(** [int(s)]: white space, an optional sign, the digits, white space;
    anything else raises [ValueError]. *)
Definition int (s : string) : option Z :=
  let s := lstrip s in
  let '(negative, body) :=
    match s with
    | String "-"%char rest => (true, rest)
    | String "+"%char rest => (false, rest)
    | _ => (false, s)
    end in
  '(z, digits) ← parse_digits body false 0 0;
  if int_max_str_digits <? digits then None
  else Some (if negative then (- z)%Z else z).

(** [s.startswith(p)]. *)
Definition startswith (s p : string) : bool := String.prefix p s.

(** One iteration of the loop over the lines of the file. *)
Definition read_line (ctx_size : nat) (st : list (list string) * list (list Z))
    (line : string) : option (list (list string) * list (list Z)) :=
  let strs := split line in
  s0 ← head strs;
  if startswith s0 "row" then
    let ctx := drop 2 strs in
    if decide (length ctx = ctx_size) then Some (st.1 ++ [ctx], st.2) else None
  else if startswith s0 "recommend" then
    pred ← mapM int (drop 1 strs);
    Some (st.1, st.2 ++ [pred])
  else Some st.

Definition read_lines (ctx_size : nat) (lines : list string)
    : option (list (list string) * list (list Z)) :=
  fold_left (fun st line => st ← st; read_line ctx_size st line) lines (Some ([], [])).

(** The dictionary [ctx_preds], a Python [dict]: it is traversed in the
    order in which its keys were first inserted, and an assignment to a
    key already present replaces the value in place. *)
Fixpoint dict_set (d : list (string * list Z)) (key : string) (v : list Z) : list (string * list Z) :=
  match d with
  | [] => [(key, v)]
  | (k0, v0) :: rest =>
      if decide (k0 = key) then (k0, v) :: rest else (k0, v0) :: dict_set rest key v
  end.

Definition build_dict (pairs : list (list string * list Z)) : list (string * list Z) :=
  fold_left (fun d cp => dict_set d (join cp.1) cp.2) pairs [].

(** [load_topk_pred(file_name, ctx_size, k)] on the lines of the file. *)
Definition load_topk_pred (lines : list string) (ctx_size k : nat)
    : option (list (list Z) * list (list Z)) :=
  '(ctxs, preds) ← read_lines ctx_size lines;
  let ctx_preds := build_dict (zip ctxs preds) in
  ctxs' ← mapM (fun kv => mapM int (split kv.1)) ctx_preds;
  Some (ctxs', map snd ctx_preds).

(** The lines the loop reads as [row] lines and as [recommend] lines. *)
Definition row_line (line : string) : bool :=
  match head (split line) with
  | Some s0 => startswith s0 "row"
  | None => false
  end.

Definition rec_line (line : string) : bool :=
  match head (split line) with
  | Some s0 => negb (startswith s0 "row") && startswith s0 "recommend"
  | None => false
  end.

(** A token in the form [str] prints integers: [str(int(tok)) == tok]. *)
Definition canonical (tok : string) : Prop :=
  exists z : Z, int tok = Some z /\ pretty z = tok.

(** A token as [split] produces them: not empty and free of spaces. *)
Fixpoint no_space (t : string) : bool :=
  match t with
  | EmptyString => true
  | String c rest => negb (is_space c) && no_space rest
  end.

Definition token (t : string) : Prop := t <> "" /\ no_space t = true.

Example int_examples :
  map int ["1_0"; "_1"; "1_"; "1__0"; " 1 "; "- 1"; "+1"; "-0"; "07"; ""; "+"; "1 0"; "1a"]
  = [Some 10; None; None; None; Some 1; None; Some 1; Some 0; Some 7; None; None; None; None]%Z.
Proof. vm_compute. reflexivity. Qed.

(** The context [12 7] comes first and keeps its place when its second
    [row] line replaces the prediction. *)
Example load_example :
  load_topk_pred ["row 0 12 7"; "recommend 3 4"; "row 1 5 9"; "recommend 8";
                  "row 2 12 7"; "recommend 6"] 2 10
  = Some ([[12; 7]; [5; 9]]%Z, [[6]; [8]]%Z).
Proof. vm_compute. reflexivity. Qed.

(** A [row] line without a [recommend] line to go with it is dropped. *)
Example load_unpaired_row :
  load_topk_pred ["row 0 5"; "recommend 1"; "row 1 5"] 1 10 = Some ([[5]]%Z, [[1]]%Z).
Proof. vm_compute. reflexivity. Qed.

Lemma app_cons (a : ascii) (s t : string) : String a s +:+ t = String a (s +:+ t).
Proof. reflexivity. Qed.

Lemma app_empty_l (t : string) : "" +:+ t = t.
Proof. reflexivity. Qed.

Lemma app_snoc (cur t : string) (c : ascii) :
  (cur +:+ String c "") +:+ t = cur +:+ String c t.
Proof. induction cur as [|a cur IH]; [done|]. rewrite !app_cons. by rewrite IH. Qed.

Lemma app_empty_r (s : string) : s +:+ "" = s.
Proof. induction s as [|a s IH]; [done|]. rewrite app_cons. by rewrite IH. Qed.

Lemma app_not_empty (cur : string) (c : ascii) : cur +:+ String c "" <> "".
Proof. by destruct cur. Qed.

Lemma no_space_snoc (cur : string) (c : ascii) :
  no_space cur = true -> is_space c = false -> no_space (cur +:+ String c "") = true.
Proof.
  intros Hcur Hc. induction cur as [|a cur IH].
  - rewrite app_empty_l. cbn [no_space]. by rewrite Hc.
  - rewrite app_cons. cbn [no_space] in *.
    apply andb_true_iff in Hcur as [Ha Hcur]. rewrite Ha. by apply IH.
Qed.

Lemma split_aux_app (t : string) : forall s cur,
  no_space t = true -> split_aux (t +:+ s) cur = split_aux s (cur +:+ t).
Proof.
  induction t as [|c t IH]; intros s cur Ht.
  - by rewrite app_empty_r.
  - cbn [no_space] in Ht. apply andb_true_iff in Ht as [Hc Ht].
    apply negb_true_iff in Hc. rewrite app_cons. cbn [split_aux]. rewrite Hc.
    rewrite IH by done. by rewrite app_snoc.
Qed.

Lemma split_aux_tokens (s : string) : forall cur,
  no_space cur = true -> Forall token (split_aux s cur).
Proof.
  induction s as [|c s IH]; intros cur Hcur; cbn [split_aux].
  - destruct (decide (cur = "")); [constructor|]. by repeat constructor.
  - destruct (is_space c) eqn:Hc.
    + destruct (decide (cur = "")); [by apply IH|].
      constructor; [done|by apply IH].
    + apply IH. by apply no_space_snoc.
Qed.

Lemma split_tokens (s : string) : Forall token (split s).
Proof. by apply split_aux_tokens. Qed.

(** Splitting the joined tokens gives the tokens back. *)
Lemma split_join (toks : list string) : Forall token toks -> split (join toks) = toks.
Proof.
  unfold split. induction 1 as [|t rest [Hne Hns] Hrest IH]; [done|].
  cbn [join]. destruct rest as [|t' rest'].
  - rewrite <- (app_empty_r t) at 1. rewrite split_aux_app by done.
    rewrite app_empty_l. cbn [split_aux]. by rewrite decide_False.
  - rewrite split_aux_app by done. rewrite app_empty_l, app_cons, app_empty_l.
    cbn [split_aux]. change (is_space " ") with true. cbv iota.
    rewrite decide_False by done. by rewrite IH.
Qed.

Definition ctx_ok (ctx_size : nat) (ctx : list string) : Prop :=
  length ctx = ctx_size /\ Forall token ctx.

Lemma read_line_ok (ctx_size : nat) (st st' : list (list string) * list (list Z))
    (line : string) :
  read_line ctx_size st line = Some st' ->
  Forall (ctx_ok ctx_size) st.1 -> Forall (ctx_ok ctx_size) st'.1.
Proof.
  unfold read_line. destruct (head (split line)) as [s0|]; simpl; [|done].
  destruct (startswith s0 "row").
  - destruct (decide (length (drop 2 (split line)) = ctx_size)) as [Hl|]; [|done].
    intros [= <-] Hst. simpl. apply Forall_app. split; [done|].
    constructor; [|constructor]. split; [done|].
    apply Forall_drop, split_tokens.
  - destruct (startswith s0 "recommend"); [|by intros [= <-]].
    destruct (mapM int (drop 1 (split line))); simpl; [|done]. by intros [= <-].
Qed.

Lemma read_lines_ok (ctx_size : nat) (lines : list string)
    (ctxs : list (list string)) (preds : list (list Z)) :
  read_lines ctx_size lines = Some (ctxs, preds) -> Forall (ctx_ok ctx_size) ctxs.
Proof.
  unfold read_lines.
  assert (forall st0 st,
            fold_left (fun st line => st ← st; read_line ctx_size st line) lines st0
            = Some st ->
            exists st1, st0 = Some st1 /\
              (Forall (ctx_ok ctx_size) st1.1 -> Forall (ctx_ok ctx_size) st.1)) as Hgen.
  { induction lines as [|line lines IH]; intros st0 st Hf; simpl in Hf.
    - exists st. by split.
    - apply IH in Hf as (st1 & Hst1 & Himp).
      destruct st0 as [st0|]; simpl in Hst1; [|done].
      exists st0. split; [done|]. intros H0. apply Himp.
      by eapply read_line_ok. }
  intros Hf. apply Hgen in Hf as (st1 & [= <-] & Himp). simpl in Himp.
  apply Himp. constructor.
Qed.

Lemma dict_set_new (d : list (string * list Z)) (key : string) (v : list Z) :
  key ∉ map fst d -> dict_set d key v = d ++ [(key, v)].
Proof.
  induction d as [|[k0 v0] d IH]; intros Hnot; [done|].
  cbn [dict_set]. cbn [map fst] in Hnot. apply not_elem_of_cons in Hnot as [Hne Hnot].
  rewrite decide_False by done. by rewrite IH.
Qed.

Lemma dict_set_old (d : list (string * list Z)) (key : string) (v : list Z) :
  key ∈ map fst d ->
  exists i v0, d !! i = Some (key, v0) /\ dict_set d key v = <[i := (key, v)]> d.
Proof.
  induction d as [|[k0 v0] d IH]; intros Hin; [by apply elem_of_nil in Hin|].
  cbn [dict_set]. destruct (decide (k0 = key)) as [->|Hne].
  - by exists 0, v0.
  - cbn [map fst] in Hin. apply elem_of_cons in Hin as [Heq|Hin]; [done|].
    destruct (IH Hin) as (i & v1 & Hi & ->). by exists (S i), v1.
Qed.

Lemma build_dict_snoc (pairs : list (list string * list Z)) (cp : list string * list Z) :
  build_dict (pairs ++ [cp]) = dict_set (build_dict pairs) (join cp.1) cp.2.
Proof. unfold build_dict. by rewrite fold_left_app. Qed.

(** The dictionary built from a list of pairs: its keys are pairwise
    distinct; the value stored under a key is that of the last pair with
    this key; every pair's key is present; and the keys stand in the order
    of their first pairs. *)
Lemma build_dict_spec (pairs : list (list string * list Z)) :
  let d := build_dict pairs in
  NoDup (map fst d) /\
  (forall i key pred, d !! i = Some (key, pred) ->
     exists j c, pairs !! j = Some (c, pred) /\ join c = key /\
       forall j' c' p', j < j' -> pairs !! j' = Some (c', p') -> join c' <> key) /\
  (forall j c p, pairs !! j = Some (c, p) -> join c ∈ map fst d) /\
  (forall i1 i2 k1 k2, i1 < i2 -> map fst d !! i1 = Some k1 -> map fst d !! i2 = Some k2 ->
     exists j1 c1 p1, pairs !! j1 = Some (c1, p1) /\ join c1 = k1 /\
       forall j2 c2 p2, pairs !! j2 = Some (c2, p2) -> join c2 = k2 -> j1 < j2).
Proof.
  induction pairs as [|[c0 p0] pairs IH] using rev_ind.
  - cbn. split; [constructor|]. split; [done|]. split; [done|]. done.
  - destruct IH as (Hnd & Hlast & Hall & Hord).
    rewrite build_dict_snoc. cbn [fst snd]. set (d := build_dict pairs) in *.
    assert (forall j c p, (pairs ++ [(c0, p0)]) !! j = Some (c, p) ->
              (j < length pairs /\ pairs !! j = Some (c, p)) \/
              (j = length pairs /\ c = c0 /\ p = p0)) as Hcases.
    { intros j c p Hj. destruct (decide (j < length pairs)) as [Hlt|Hge].
      - left. split; [done|]. by rewrite lookup_app_l in Hj.
      - right. assert (j = length pairs) as ->.
        { apply lookup_lt_Some in Hj. rewrite length_app in Hj. simpl in Hj. lia. }
        rewrite list_lookup_middle in Hj by done. by injection Hj as <- <-. }
    destruct (decide (join c0 ∈ map fst d)) as [Hin|Hnot].
    + destruct (dict_set_old d (join c0) p0 Hin) as (i0 & v0 & Hi0 & ->).
      assert (map fst (<[i0 := (join c0, p0)]> d) = map fst d) as Hkeys.
      { change (fst <$> <[i0 := (join c0, p0)]> d = fst <$> d).
        rewrite list_fmap_insert. apply list_insert_id.
        by rewrite list_lookup_fmap, Hi0. }
      cbv zeta. rewrite Hkeys. split; [done|]. split; [|split].
      * intros i key pred Hi. destruct (decide (i = i0)) as [->|Hne].
        -- rewrite list_lookup_insert_eq in Hi by (by eapply lookup_lt_Some).
           injection Hi as <- <-. exists (length pairs), c0.
           split; [by rewrite list_lookup_middle|]. split; [done|].
           intros j' c' p' Hlt Hj'. apply lookup_lt_Some in Hj'.
           rewrite length_app in Hj'. simpl in Hj'. lia.
        -- rewrite list_lookup_insert_ne in Hi by done.
           destruct (Hlast _ _ _ Hi) as (j & c & Hj & Hc & Hlater).
           exists j, c. split; [by apply lookup_app_l_Some|]. split; [done|].
           intros j' c' p' Hlt Hj'.
           destruct (Hcases _ _ _ Hj') as [[_ Hold]|(_ & -> & ->)]; [by eapply Hlater|].
           intros Heq. apply Hne. eapply NoDup_lookup; [exact Hnd| |].
           ++ by rewrite list_lookup_fmap, Hi.
           ++ by rewrite list_lookup_fmap, Hi0, Heq.
      * intros j c p Hj. destruct (Hcases _ _ _ Hj) as [[_ Hold]|(_ & -> & ->)]; [by eapply Hall|done].
      * intros i1 i2 k1 k2 Hlt H1 H2.
        destruct (Hord _ _ _ _ Hlt H1 H2) as (j1 & c1 & p1 & Hj1 & Hc1 & Hfirst).
        exists j1, c1, p1. split; [by apply lookup_app_l_Some|]. split; [done|].
        intros j2 c2 p2 Hj2 Hc2.
        destruct (Hcases _ _ _ Hj2) as [[_ Hold]|(-> & _ & _)]; [by eapply Hfirst|].
        by eapply lookup_lt_Some.
    + rewrite dict_set_new by done. cbv zeta. rewrite map_app. cbn [map fst].
      split; [|split; [|split]].
      * apply NoDup_app. split; [done|]. split; [|apply NoDup_singleton].
        intros x Hx Hx'. apply list_elem_of_singleton in Hx'. by subst.
      * intros i key pred Hi. apply lookup_app_Some in Hi as [Hi|[Hge Hi]].
        -- destruct (Hlast _ _ _ Hi) as (j & c & Hj & Hc & Hlater).
           exists j, c. split; [by apply lookup_app_l_Some|]. split; [done|].
           intros j' c' p' Hlt Hj'.
           destruct (Hcases _ _ _ Hj') as [[_ Hold]|(_ & -> & ->)]; [by eapply Hlater|].
           intros Heq. apply Hnot. rewrite Heq.
           apply list_elem_of_fmap. exists (key, pred). split; [done|].
           by eapply list_elem_of_lookup_2.
        -- apply list_lookup_singleton_Some in Hi as [_ [= <- <-]].
           exists (length pairs), c0. split; [by rewrite list_lookup_middle|]. split; [done|].
           intros j' c' p' Hlt Hj'. apply lookup_lt_Some in Hj'.
           rewrite length_app in Hj'. simpl in Hj'. lia.
      * intros j c p Hj. apply elem_of_app.
        destruct (Hcases _ _ _ Hj) as [[_ Hold]|(_ & -> & ->)]; [left; by eapply Hall|].
        right. by apply list_elem_of_singleton.
      * intros i1 i2 k1 k2 Hlt H1 H2.
        apply lookup_app_Some in H2 as [H2|[Hge H2]].
        -- assert (map fst d !! i1 = Some k1) as H1'.
           { apply lookup_lt_Some in H2. by rewrite lookup_app_l in H1 by lia. }
           destruct (Hord _ _ _ _ Hlt H1' H2) as (j1 & c1 & p1 & Hj1 & Hc1 & Hfirst).
           exists j1, c1, p1. split; [by apply lookup_app_l_Some|]. split; [done|].
           intros j2 c2 p2 Hj2 Hc2.
           destruct (Hcases _ _ _ Hj2) as [[_ Hold]|(-> & _ & _)]; [by eapply Hfirst|].
           by eapply lookup_lt_Some.
        -- apply list_lookup_singleton_Some in H2 as [Hi2 <-].
           assert (map fst d !! i1 = Some k1) as H1'.
           { by rewrite lookup_app_l in H1 by lia. }
           change (map fst d) with (fst <$> d) in H1'. rewrite list_lookup_fmap in H1'.
           destruct (d !! i1) as [[k1' v1]|] eqn:Hd; [|done]. injection H1' as <-.
           destruct (Hlast _ _ _ Hd) as (j & c & Hj & Hc & _).
           exists j, c, v1. split; [by apply lookup_app_l_Some|]. split; [done|].
           intros j2 c2 p2 Hj2 Hc2.
           destruct (Hcases _ _ _ Hj2) as [[_ Hold]|(-> & _ & _)].
           ++ exfalso. apply Hnot. rewrite <- Hc2. by eapply Hall.
           ++ by eapply lookup_lt_Some.
Qed.

Lemma fold_read_None (ctx_size : nat) (lines : list string) :
  fold_left (fun st line => st ← st; read_line ctx_size st line) lines None = None.
Proof. induction lines as [|line lines IH]; [done|]. exact IH. Qed.

Lemma filter_bool_cons {A : Type} (p : A -> bool) (x : A) (l : list A) :
  filter p (x :: l) = if p x then x :: filter p l else filter p l.
Proof.
  rewrite filter_cons. destruct (p x); [by rewrite decide_True|].
  by rewrite decide_False by (by intros []).
Qed.

(** The two lists the loop builds, read off the lines of the file. *)
Lemma read_lines_closed (ctx_size : nat) (lines : list string) : forall a b cs ps,
  fold_left (fun st line => st ← st; read_line ctx_size st line) lines (Some (a, b))
  = Some (cs, ps) ->
  cs = a ++ map (fun line => drop 2 (split line)) (filter row_line lines) /\
  exists ps',
    mapM (fun line => mapM int (drop 1 (split line))) (filter rec_line lines) = Some ps' /\
    ps = b ++ ps'.
Proof.
  induction lines as [|line lines IH]; intros a b cs ps Hf.
  - injection Hf as <- <-. split; [by rewrite app_nil_r|].
    exists []. split; [done|]. by rewrite app_nil_r.
  - cbn [fold_left mbind option_bind] in Hf.
    destruct (read_line ctx_size (a, b) line) as [[a1 b1]|] eqn:Hline;
      [|by rewrite fold_read_None in Hf].
    destruct (IH _ _ _ _ Hf) as (-> & ps1 & Hps1 & ->). clear IH Hf.
    unfold read_line in Hline. rewrite !filter_bool_cons.
    assert (row_line line = match head (split line) with
                            | Some s0 => startswith s0 "row"
                            | None => false
                            end) as -> by done.
    assert (rec_line line = match head (split line) with
                            | Some s0 => negb (startswith s0 "row") && startswith s0 "recommend"
                            | None => false
                            end) as -> by done.
    destruct (head (split line)) as [s0|]; cbn [mbind option_bind] in Hline; [|done].
    destruct (startswith s0 "row") eqn:Er; cbn [negb andb].
    + destruct (decide (length (drop 2 (split line)) = ctx_size)); [|done].
      injection Hline as <- <-. cbn [fst snd map]. rewrite <- app_assoc.
      split; [done|]. by exists ps1.
    + destruct (startswith s0 "recommend") eqn:Ec.
      * destruct (mapM int (drop 1 (split line))) as [pred|] eqn:Hpred;
          cbn [mbind option_bind] in Hline; [|done].
        injection Hline as <- <-. cbn [fst snd].
        split; [done|]. exists (pred :: ps1). cbn [mapM]. rewrite Hpred.
        cbn [mbind option_bind]. rewrite Hps1. cbn [mbind option_bind mret option_ret].
        split; [done|]. by rewrite <- app_assoc.
      * injection Hline as <- <-. split; [done|]. by exists ps1.
Qed.

Lemma canonical_tokens (key : list string) (c : list Z) :
  Forall canonical key -> mapM int key = Some c -> key = map pretty c.
Proof.
  intros Hcan Hc. apply mapM_Some_1 in Hc.
  induction Hc as [|t z key c Hz Hrest IH]; [done|].
  apply Forall_cons in Hcan as [(z' & Hz' & Hp) Hcan].
  simpl. rewrite <- IH by done. f_equal. congruence.
Qed.

(** C10, amended: when [load_topk_pred] returns, the two lists have equal
    length.  The loop pairs the [j]-th [row] line of the file with its
    [j]-th [recommend] line, for [j] below the number of [recommend]
    lines; a line without a partner is dropped.  The returned contexts are
    the integer readings of pairwise distinct token sequences [keys], each
    of [ctx_size] tokens like every context read from a [row] line; these
    are exactly the token sequences of the paired [row] lines, in the order
    of their first pairs; the prediction returned with a context is the one
    of the last pair whose [row] line carries these tokens; and the
    returned contexts themselves are pairwise distinct when every token is
    written the way [str] prints integers. *)
Theorem load_topk_pred_dedup (lines : list string) (ctx_size k : nat)
    (ctxs preds : list (list Z)) :
  load_topk_pred lines ctx_size k = Some (ctxs, preds) ->
  exists (row_ctxs : list (list string)) (rec_preds : list (list Z))
         (keys : list (list string)),
    row_ctxs = map (fun line => drop 2 (split line)) (filter row_line lines) /\
    mapM (fun line => mapM int (drop 1 (split line))) (filter rec_line lines)
    = Some rec_preds /\
    read_lines ctx_size lines = Some (row_ctxs, rec_preds) /\
    length ctxs = length preds /\
    length keys = length ctxs /\
    NoDup keys /\
    Forall2 (fun key c => mapM int key = Some c) keys ctxs /\
    Forall (fun c => length c = ctx_size) row_ctxs /\
    Forall (fun c => length c = ctx_size) ctxs /\
    (forall i key pred,
       keys !! i = Some key -> preds !! i = Some pred ->
       exists j,
         row_ctxs !! j = Some key /\ rec_preds !! j = Some pred /\
         forall j', j < j' < length rec_preds -> row_ctxs !! j' <> Some key) /\
    (forall j key, j < length rec_preds -> row_ctxs !! j = Some key -> key ∈ keys) /\
    (forall i1 i2 key1 key2,
       i1 < i2 -> keys !! i1 = Some key1 -> keys !! i2 = Some key2 ->
       exists j1,
         j1 < length rec_preds /\ row_ctxs !! j1 = Some key1 /\
         forall j2, j2 < length rec_preds -> row_ctxs !! j2 = Some key2 -> j1 < j2) /\
    (Forall (Forall canonical) keys -> NoDup ctxs).
Proof.
  unfold load_topk_pred. intros Hload.
  destruct (read_lines ctx_size lines) as [[row_ctxs rec_preds]|] eqn:Hread;
    simpl in Hload; [|done].
  set (pairs := zip row_ctxs rec_preds) in *.
  set (items := build_dict pairs) in *.
  destruct (mapM (fun kv => mapM int (split kv.1)) items) as [cs|] eqn:Hcs;
    simpl in Hload; [|done].
  injection Hload as <- <-.
  pose proof (read_lines_ok ctx_size lines row_ctxs rec_preds Hread) as Hok.
  destruct (read_lines_closed ctx_size lines [] [] _ _ Hread) as (Hrows & ps & Hps & Hrec).
  rewrite app_nil_l in Hrows, Hrec. subst ps.
  destruct (build_dict_spec pairs) as (Hnd & Hlast & Hall & Hord). fold items in Hnd, Hlast, Hall, Hord.
  (* the pairs are the row contexts and predictions of equal index *)
  assert (forall j c p, pairs !! j = Some (c, p) <->
            row_ctxs !! j = Some c /\ rec_preds !! j = Some p) as Hpair.
  { intros j c p. unfold pairs. rewrite lookup_zip_with_Some. split.
    - by intros (x & y & [= -> ->] & Hx & Hy).
    - intros [Hx Hy]. by exists c, p. }
  assert (forall j c p, pairs !! j = Some (c, p) -> split (join c) = c) as Htok.
  { intros j c p Hj. apply Hpair in Hj as [Hj _]. apply split_join.
    rewrite Forall_forall in Hok. apply (Hok c). by eapply list_elem_of_lookup_2. }
  assert (forall j c, j < length rec_preds -> row_ctxs !! j = Some c ->
            exists p, pairs !! j = Some (c, p)) as Hpaired.
  { intros j c Hlt Hj. destruct (lookup_lt_is_Some_2 rec_preds j Hlt) as [p Hp].
    exists p. by apply Hpair. }
  (* every item of the dictionary comes from a pair *)
  assert (forall i key pred, items !! i = Some (key, pred) ->
            exists j c, pairs !! j = Some (c, pred) /\ join c = key /\ split key = c /\
              forall j' c' p', j < j' -> pairs !! j' = Some (c', p') -> join c' <> key) as Hitem.
  { intros i key pred Hi. destruct (Hlast _ _ _ Hi) as (j & c & Hj & Hc & Hlater).
    exists j, c. split; [done|]. split; [done|]. split; [|done].
    rewrite <- Hc. by eapply Htok. }
  assert (NoDup (map (fun kv : string * list Z => split kv.1) items)) as Hkeysnd.
  { assert (map (fun kv : string * list Z => split kv.1) items = split <$> (fst <$> items))
      as -> by (by rewrite <- list_fmap_compose).
    apply NoDup_fmap_2_strong; [|exact Hnd].
    intros k1 k2 H1 H2 Heq.
    apply list_elem_of_fmap in H1 as ([k1' p1] & -> & H1).
    apply list_elem_of_fmap in H2 as ([k2' p2] & -> & H2). simpl in *.
    apply list_elem_of_lookup in H1 as [i1 H1], H2 as [i2 H2].
    destruct (Hitem _ _ _ H1) as (_ & c1 & _ & Hj1 & Hs1 & _).
    destruct (Hitem _ _ _ H2) as (_ & c2 & _ & Hj2 & Hs2 & _).
    congruence. }
  exists row_ctxs, rec_preds, (map (fun kv => split kv.1) items).
  split; [done|]. split; [done|]. split; [done|].
  split; [|split; [|split; [|split; [|split; [|split; [|split; [|split; [|split]]]]]]]].
  - apply length_mapM in Hcs. by rewrite length_map.
  - apply length_mapM in Hcs. by rewrite length_map.
  - exact Hkeysnd.
  - apply Forall2_fmap_l. by apply mapM_Some_1 in Hcs.
  - eapply Forall_impl; [exact Hok|]. by intros c [Hl _].
  - apply mapM_Some_1 in Hcs. apply Forall_forall. intros c Hin.
    apply list_elem_of_lookup in Hin as [i Hi].
    destruct (Forall2_lookup_r _ _ _ _ _ Hcs Hi) as ([key pred] & Hkv & Hint).
    simpl in Hint. apply length_mapM in Hint. rewrite <- Hint.
    destruct (Hitem i key pred Hkv) as (j & c' & Hj & _ & -> & _).
    apply Hpair in Hj as [Hj _]. rewrite Forall_forall in Hok.
    apply (Hok c'). by eapply list_elem_of_lookup_2.
  - intros i key pred Hkey Hpred.
    rewrite list_lookup_fmap in Hkey. rewrite list_lookup_fmap in Hpred.
    destruct (items !! i) as [[k0 p0]|] eqn:Hi; simpl in *; [|done].
    injection Hkey as <-. injection Hpred as <-.
    destruct (Hitem _ k0 p0 Hi) as (j & c & Hj & Hjoin & Hsplit & Hlater).
    exists j. rewrite Hsplit. apply Hpair in Hj as Hj'. destruct Hj' as [Hr Hp].
    split; [done|]. split; [done|].
    intros j' [Hlt Hlen] Hj'. destruct (Hpaired _ _ Hlen Hj') as [p' Hp'].
    by apply (Hlater _ _ _ Hlt Hp').
  - intros j key Hlt Hj. destruct (Hpaired _ _ Hlt Hj) as [p Hp].
    pose proof (Hall _ _ _ Hp) as Hin.
    apply list_elem_of_fmap in Hin as ([k0 p0] & Hk & Hin). simpl in Hk.
    apply list_elem_of_fmap. exists (k0, p0). split; [|done].
    simpl. rewrite <- Hk. symmetry. by eapply Htok.
  - intros i1 i2 key1 key2 Hlt H1 H2.
    rewrite list_lookup_fmap in H1. rewrite list_lookup_fmap in H2.
    destruct (items !! i1) as [[k1 p1]|] eqn:Hi1; simpl in H1; [|done].
    destruct (items !! i2) as [[k2 p2]|] eqn:Hi2; simpl in H2; [|done].
    injection H1 as <-. injection H2 as <-.
    destruct (Hord i1 i2 k1 k2 Hlt) as (j1 & c1 & q1 & Hj1 & Hc1 & Hfirst).
    { change (map fst items) with (fst <$> items). by rewrite list_lookup_fmap, Hi1. }
    { change (map fst items) with (fst <$> items). by rewrite list_lookup_fmap, Hi2. }
    exists j1. pose proof (Htok _ _ _ Hj1) as Hs1. rewrite Hc1 in Hs1.
    apply Hpair in Hj1 as Hj1'. destruct Hj1' as [Hr1 Hq1].
    split; [by eapply lookup_lt_Some|]. split; [by rewrite Hs1|].
    intros j2 Hlen Hj2. destruct (Hpaired _ _ Hlen Hj2) as [q2 Hq2].
    apply (Hfirst _ _ _ Hq2).
    destruct (Hitem _ _ _ Hi2) as (j & c & Hj & Hjoin & Hsplit & _).
    by rewrite Hsplit.
  - intros Hcan.
    assert (map (fun kv : string * list Z => split kv.1) items = map (map pretty) cs) as Hkeys.
    { apply mapM_Some_1 in Hcs. clear -Hcs Hcan.
      induction Hcs as [|kv c items cs Hc Hrest IH]; [done|].
      simpl in Hcan. apply Forall_cons in Hcan as [Hcan1 Hcan].
      simpl. rewrite IH by done. f_equal. by apply canonical_tokens. }
    apply (NoDup_fmap_1 (map pretty)). change (NoDup (map (map pretty) cs)).
    by rewrite <- Hkeys.
Qed.

(** C10 as stated fails: the tokens [07] and [7] are different dictionary
    keys, so both contexts are kept, and both read as the integer 7. *)
Lemma load_topk_pred_repeated_context :
  exists ctxs preds,
    load_topk_pred ["row 0 07"; "recommend 1"; "row 1 7"; "recommend 2"] 1 10
    = Some (ctxs, preds) /\
    ~ NoDup ctxs.
Proof.
  exists [[7]; [7]]%Z. eexists. split; [vm_compute; reflexivity|].
  intros Hnd. apply NoDup_cons in Hnd as [Hnotin _]. apply Hnotin. by left.
Qed.

End TopK.

(** A file with a repeated context and canonical numerals: the context
    [12 7] keeps the place of its first [row] line and gets the prediction
    of its last one. *)
Lemma load_topk_pred_dedup_witness :
  TopK.load_topk_pred ["row 0 12 7"; "recommend 3 4"; "row 1 5 9"; "recommend 8";
                       "row 2 12 7"; "recommend 6"] 2 10
  = Some ([[12; 7]; [5; 9]]%Z, [[6]; [8]]%Z) /\
  exists keys : list (list string),
    NoDup keys /\
    Forall2 (fun key c => mapM TopK.int key = Some c) keys [[12; 7]; [5; 9]]%Z /\
    length [[12; 7]; [5; 9]]%Z = length [[6]; [8]]%Z.
Proof.
  assert (TopK.load_topk_pred
            ["row 0 12 7"; "recommend 3 4"; "row 1 5 9"; "recommend 8";
             "row 2 12 7"; "recommend 6"] 2 10
          = Some ([[12; 7]; [5; 9]]%Z, [[6]; [8]]%Z)) as H by (vm_compute; reflexivity).
  split; [exact H|].
  destruct (TopK.load_topk_pred_dedup _ _ _ _ _ H)
    as (row_ctxs & rec_preds & keys & _ & _ & _ & Hlen & _ & Hnd & Hkeys & _).
  exists keys. split; [exact Hnd|]. split; [exact Hkeys|]. exact Hlen.
Defined.

(** ** The item graph cells (FISM notebook) *)

Module ItemGraph.

Section Notebook.
(** [R]: the weights; [UserItem]: the training user-item matrix. *)
Context {R UserItem : Type}.

(** A SciPy sparse matrix by its stored entries, in storage order. *)
Record spm : Type := mkSpm {
  spm_row : list nat;
  spm_col : list nat;
  spm_data : list R
}.

(** The three functions of [graph_construct], each with the arguments its
    notebook cell passes. *)
Variables create_SLIM_graph create_cooccur_graph create_cosine_graph : UserItem -> spm.
(** [torch.tensor(x, dtype=torch.float32)] on one entry. *)
Variable to_float32 : R -> R.
Variable user_item_spm : UserItem.










End Notebook.

End ItemGraph.

(** ** The theorems at concrete inputs *)

(** A batch of two users over integer scalars, in training mode: user 1
    has three interacted items and rates item 2 at [20 + 3 + 8 / 2 = 27]. *)
Lemma forward_rating_witness :
  exists r,
    FISMRating.forward Z.add Z.sub Z.mul Z.div Z.pow 0%Z 1%Z (fun z => z) Z.max
      (fun i => [Z.of_nat i; 1%Z]) (fun i => [1%Z; Z.of_nat i])
      [10; 20]%Z [1; 2; 3; 4]%Z 1%Z
      [0; 2] [0; 1] None (concat [[0; 1]; [2; 3; 1]]) (map length [[0; 1]; [2; 3; 1]]) false
    = Some (r, None) /\
    r !! 1 = Some 27%Z.
Proof.
  destruct (FISMRating.forward_rating Z.add Z.sub Z.mul Z.div Z.pow 0%Z 1%Z
              (fun z => z) Z.max
              (fun i => [Z.of_nat i; 1%Z]) (fun i => [1%Z; Z.of_nat i])
              [10; 20]%Z [1; 2; 3; 4]%Z 1%Z false 2 [0; 2] [0; 1] [[0; 1]; [2; 3; 1]]
              ltac:(intros; reflexivity) ltac:(intros; reflexivity)
              ltac:(reflexivity) ltac:(reflexivity)
              ltac:(repeat (constructor; [simpl; lia|]); constructor)
              ltac:(repeat (constructor; [simpl; lia|]); constructor))
    as (r & Hf & _ & Hr & _).
  exists r. split; [exact Hf|].
  rewrite (Hr 1 2 1 [2; 3; 1] 20%Z 3%Z) by reflexivity. reflexivity.
Defined.

(** The masked loss of two positive scores with two negatives each, the
    second negative of the first being a false negative. *)
Lemma rank_loss2_pairwise_witness :
  RankLoss.rank_loss2_masked Z.add Z.sub Z.mul 0%Z (-1)%Z (fun x => Z.min x 0)
    [5; 1]%Z (concat [[3; 7]; [0; 2]]%Z) 2
    (RankLoss.false_neg_mask (fun z => z) (concat [[0; 1]; [0; 0]]%Z))
  = Some [0; 1]%Z.
Proof.
  destruct (RankLoss.rank_loss2_pairwise Z.add Z.sub Z.mul 0%Z (-1)%Z
              (fun x => Z.min x 0) (fun z => z)) as (_ & _ & Hmasked & _).
  rewrite (Hmasked [5; 1]%Z [[3; 7]; [0; 2]]%Z [[0; 1]; [0; 0]]%Z 2
             ltac:(lia) ltac:(reflexivity) ltac:(reflexivity)
             ltac:(repeat (constructor; [reflexivity|]); constructor)
             ltac:(repeat (constructor; [reflexivity|]); constructor)).
  reflexivity.
Defined.

(** [RecEval] on the FISM model over integer scalars: both users have at
    most one negative rated at least as high as the true item. *)
Lemma RecEval_hits_at_k_witness :
  HitRate.RecEval Z.geb
    (FISMRating.est_rating Z.add Z.sub Z.mul Z.div Z.pow 0%Z 1%Z (fun z => z) Z.max
       (fun i => [Z.of_nat i; 1%Z]) (fun i => [1%Z; Z.of_nat i])
       [10; 20]%Z [1; 2; 3; 4]%Z 1%Z)
    [[0; 1]; [2]] 1 [0; 1] [2; 3] [[3; 0]; [0; 1]]
  = Some (2 # 2).
Proof.
  rewrite (HitRate.RecEval_hits_at_k Z.geb
             (FISMRating.est_rating Z.add Z.sub Z.mul Z.div Z.pow 0%Z 1%Z (fun z => z)
                Z.max (fun i => [Z.of_nat i; 1%Z]) (fun i => [1%Z; Z.of_nat i])
                [10; 20]%Z [1; 2; 3; 4]%Z 1%Z)
             [[0; 1]; [2]] 1 [0; 1] [2; 3]
             [[3; 0]; [0; 1]] [[3; 0]; [0; 1]] [[0; 1]; [2]]
             [15; 29]%Z [[17; 11]; [23; 25]]%Z 2
             ltac:(reflexivity) ltac:(reflexivity) ltac:(vm_compute; reflexivity)
             ltac:(simpl; lia) ltac:(reflexivity) ltac:(reflexivity) ltac:(lia)
             ltac:(repeat (constructor; [reflexivity|]); constructor)).
  reflexivity.
Defined.

(** [knnEvaluate] with the dot-product score on three items: the first two
    of the three queries are hits, the third one is not. *)
Lemma knnEvaluate_hits_witness :
  exists hits,
    hits = [true; true; false] /\
    HitRate.knnEvaluate Z.sub 0%Z 1%Z Z.geb (HitRate.dot_score Z.add Z.mul 0%Z)
      [[1; 0]; [1; 1]; [0; 2]]%Z [0; 1; 2] [1; 2; 0]
    = Some (Z.of_nat (Tensor.count_true hits) # Pos.of_nat 3).
Proof.
  destruct (HitRate.knnEvaluate_hits Z.sub 0%Z 1%Z Z.geb
              (HitRate.dot_score Z.add Z.mul 0%Z)
              [[1; 0]; [1; 1]; [0; 2]]%Z [[1; 1; 0]; [1; 2; 2]; [0; 2; 4]]%Z
              [0; 1; 2] [1; 2; 0]
              ltac:(reflexivity) ltac:(reflexivity)
              ltac:(repeat (constructor; [reflexivity|]); constructor)
              ltac:(reflexivity) ltac:(simpl; lia)
              ltac:(repeat (constructor; [simpl; lia|]); constructor)
              ltac:(repeat (constructor; [simpl; lia|]); constructor))
    as (_ & hits & Hk & Hall).
  exists hits. split; [|exact Hk].
  apply Forall2_cons_inv_l in Hall
    as (h0 & hits0 & (row0 & t0 & Hr0 & Ht0 & -> & _) & Hall & ->).
  vm_compute in Hr0. injection Hr0 as <-. vm_compute in Ht0. injection Ht0 as <-.
  apply Forall2_cons_inv_l in Hall
    as (h1 & hits1 & (row1 & t1 & Hr1 & Ht1 & -> & _) & Hall & ->).
  vm_compute in Hr1. injection Hr1 as <-. vm_compute in Ht1. injection Ht1 as <-.
  apply Forall2_cons_inv_l in Hall
    as (h2 & hits2 & (row2 & t2 & Hr2 & Ht2 & -> & _) & Hall & ->).
  vm_compute in Hr2. injection Hr2 as <-. vm_compute in Ht2. injection Ht2 as <-.
  apply Forall2_nil_inv_l in Hall as ->. reflexivity.
Defined.


(** One user who interacted with movie 0, three movies, two negatives: the
    first draw already supplies movies 1 and 2. *)
Lemma gen_neg_set_correct_witness :
  2 <= 3 /\
  exists fuel neg,
    Movielens.gen_neg_set (fun u m => m =? 0) 1 3 (fun u k => [0; 1; 2]) true
      (fun u => elements) fuel 2
    = Movielens.Returned neg.
Proof.
  split; [lia|].
  destruct (Movielens.gen_neg_set_correct (fun u m => m =? 0) 1 3
              (fun u k => [0; 1; 2]) true (fun u => elements)
              ltac:(intros; cbv beta; reflexivity) 2 ltac:(reflexivity) ltac:(lia))
    as (_ & _ & Hterm).
  apply Hterm. intros u Hu. exists 1.
  assert (u = 0) as -> by lia. vm_compute. lia.
Defined.

(** * The edge sampler of the FISM notebook (Recommendation-fism.ipynb) *)

Module EdgeSampler.

(** [np.arange(start, stop, step)] on non-negative integers; a zero step
    raises. *)
Definition arange (start stop step : nat) : option (list nat) :=
  if step =? 0 then None
  else Some (map (fun k => start + k * step) (seq 0 ((stop - start + step - 1) / step))).

(** [np.split(l, idxs)]: the slices [l[:i0]], [l[i0:i1]], ..., [l[ik:]]. *)
Fixpoint split_at {A} (l : list A) (prev : nat) (idxs : list nat) : list (list A) :=
  match idxs with
  | [] => [drop prev l]
  | i :: rest => take (i - prev) (drop prev l) :: split_at l i rest
  end.

Definition np_split {A} (l : list A) (idxs : list nat) : list (list A) := split_at l 0 idxs.

(** The mutable part of an [EdgeSampler]. *)
Record sampler : Type := mkSampler { batches : list (list nat); idx : nat }.

(** What [__next__] returns. *)
Record batch : Type := mkBatch {
  I : list nat;
  U : list nat;
  I_neg : list (list nat);
  I_U : list nat;
  N_U : list nat
}.

Inductive next_result : Type :=
| Yield (b : batch) (s : sampler)
| StopIteration
| Error.

(** The column indices of row [u] of [spm.tocsr()]: the conversion merges
    duplicate entries and leaves the indices of a row in increasing order. *)
Definition csr_indices (m : list (nat * nat)) (u : nat) : list nat :=
  filter (fun c => (u, c) ∈ m) (seq 0 (S (foldr Nat.max 0 (map snd m)))).

Section Sampler.
(** [user_item_spm.tocoo()]: the stored entries. *)
Variable user_item_spm : list (nat * nat).
Variables batch_size neg_sample_size : nat.
(** [choice k size]: the result of the [k]-th call
    [np.random.choice(num_items, size)]. *)
Variable choice : nat -> nat -> list nat.

(** [EdgeSampler.__init__]; [edge_ids] is the permutation drawn by
    [np.random.permutation(user_item_spm.nnz)]. *)
Definition init (edge_ids : list nat) : option sampler :=
  splits ← arange batch_size (length edge_ids) batch_size;
  Some (mkSampler (np_split edge_ids splits) 0).

(** [EdgeSampler.__next__]. *)
Definition next (s : sampler) : next_result :=
  if idx s =? length (batches s) then StopIteration
  else
    match batches s !! idx s with
    | None => Error
    | Some b =>
        match Tensor.gather (map snd user_item_spm) b,
              Tensor.gather (map fst user_item_spm) b with
        | Some movies, Some users =>
            let neighbors := map (csr_indices user_item_spm) users in
            match Tensor.reshape neg_sample_size
                    (choice (idx s) (neg_sample_size * length b)) with
            | Some negs =>
                Yield (mkBatch movies users negs (concat neighbors) (map length neighbors))
                      (mkSampler (batches s) (S (idx s)))
            | None => Error
            end
        | _, _ => Error
        end
    end.

(** [for batch in sampler]: the batches yielded until [StopIteration], with
    at most [fuel] calls of [__next__]. *)
Fixpoint iterate (fuel : nat) (s : sampler) : option (list batch) :=
  match fuel with
  | 0 => None
  | S fuel' =>
      match next s with
      | StopIteration => Some []
      | Error => None
      | Yield b s' => bs ← iterate fuel' s'; Some (b :: bs)
      end
  end.

Definition points (start step c : nat) : list nat :=
  map (fun k => start + k * step) (seq 0 c).

Lemma points_S (start step c : nat) :
  points start step (S c) = start :: points (start + step) step c.
Proof.
  unfold points. cbn [seq map]. f_equal; [lia|].
  rewrite <- seq_shift, map_map. apply map_ext. intros k. lia.
Qed.

Lemma split_at_concat {A} (l : list A) (step c : nat) : forall prev,
  concat (split_at l prev (points (prev + step) step c)) = drop prev l.
Proof.
  induction c as [|c IH]; intros prev.
  - simpl. apply app_nil_r.
  - rewrite points_S. cbn [split_at concat]. rewrite IH.
    replace (prev + step - prev) with step by lia.
    rewrite <- drop_drop. apply take_drop.
Qed.

Lemma split_at_length {A} (l : list A) (step c : nat) : forall prev,
  length (split_at l prev (points (prev + step) step c)) = S c.
Proof.
  induction c as [|c IH]; intros prev; [done|].
  rewrite points_S. cbn [split_at length]. by rewrite IH.
Qed.

Lemma split_at_lookup {A} (l : list A) (step c : nat) : forall prev j b,
  split_at l prev (points (prev + step) step c) !! j = Some b ->
  (j < c /\ b = take step (drop (prev + j * step) l)) \/
  (j = c /\ b = drop (prev + c * step) l).
Proof.
  induction c as [|c IH]; intros prev j b.
  - simpl. destruct j as [|j]; simpl; [|done]. intros [= <-]. right.
    split; [done|]. f_equal. lia.
  - rewrite points_S. cbn [split_at]. destruct j as [|j]; simpl.
    + intros [= <-]. left. split; [lia|].
      replace (prev + step - prev) with step by lia. do 2 f_equal. lia.
    + intros Hj. destruct (IH _ _ _ Hj) as [[Hlt ->]|[-> ->]].
      * left. split; [lia|]. do 2 f_equal. lia.
      * right. split; [done|]. f_equal. lia.
Qed.

(** The number of split points [np.arange(bs, n, bs)] has. *)
Lemma split_count (n bs : nat) :
  0 < bs ->
  let c := (n - bs + bs - 1) / bs in
  c = (n - 1) / bs /\ (0 < n -> c * bs < n /\ n <= S c * bs).
Proof.
  intros Hbs c.
  assert (c = (n - 1) / bs) as Hc.
  { subst c. destruct (decide (n <= bs)) as [Hle|Hgt].
    - replace (n - bs + bs - 1) with (bs - 1) by lia.
      rewrite !Nat.div_small by lia. done.
    - f_equal. lia. }
  split; [done|]. intros Hn. rewrite Hc.
  pose proof (Nat.Div0.mul_div_le (n - 1) bs).
  pose proof (Nat.mul_succ_div_gt (n - 1) bs ltac:(lia)).
  split; nia.
Qed.

(** X1: with a positive batch size the batches of a sampler are the
    consecutive slices of the drawn permutation: put end to end they give
    the permutation back, so when it is a permutation of the edge ids every
    edge id lies in exactly one batch. *)
Theorem init_batches_partition (edge_ids : list nat) :
  0 < batch_size ->
  exists s,
    init edge_ids = Some s /\ idx s = 0 /\
    concat (batches s) = edge_ids /\
    (edge_ids ≡ₚ seq 0 (length user_item_spm) ->
     concat (batches s) ≡ₚ seq 0 (length user_item_spm)).
Proof.
  intros Hbs. unfold init, arange.
  destruct (Nat.eqb_spec batch_size 0) as [?|_]; [lia|]. simpl.
  eexists. split; [reflexivity|]. split; [done|]. simpl.
  assert (concat (np_split edge_ids
            (map (fun k => batch_size + k * batch_size)
               (seq 0 ((length edge_ids - batch_size + batch_size - 1) / batch_size))))
          = edge_ids) as Hc.
  { unfold np_split. apply (split_at_concat edge_ids batch_size _ 0). }
  split; [exact Hc|]. by rewrite Hc.
Qed.

(** X2: there are [(nnz - 1) / batch_size + 1] batches (one, empty, batch
    for an empty matrix); every batch but the last holds exactly
    [batch_size] edge ids, and the last holds between one and [batch_size]
    when there is an edge at all. *)
Theorem init_batch_sizes (edge_ids : list nat) (s : sampler) :
  init edge_ids = Some s ->
  0 < batch_size /\
  length (batches s) = S ((length edge_ids - 1) / batch_size) /\
  forall i b, batches s !! i = Some b ->
    length b <= batch_size /\
    (S i < length (batches s) -> length b = batch_size) /\
    (0 < length edge_ids -> 0 < length b).
Proof.
  unfold init, arange.
  destruct (Nat.eqb_spec batch_size 0) as [?|Hne]; [done|]. simpl.
  intros [= <-]. simpl. split; [lia|].
  set (n := length edge_ids).
  destruct (split_count n batch_size ltac:(lia)) as [Hc Hn].
  set (c := (n - batch_size + batch_size - 1) / batch_size) in *.
  assert (n = 0 -> c = 0) as Hc0.
  { intros H0. rewrite Hc, H0. simpl. apply Nat.Div0.div_0_l. }
  assert (length (np_split edge_ids (points (0 + batch_size) batch_size c)) = S c) as Hlen
    by apply split_at_length.
  change (map (fun k => batch_size + k * batch_size) (seq 0 c))
    with (points (0 + batch_size) batch_size c).
  split; [by rewrite Hlen, <- Hc|].
  intros i b Hb. rewrite Hlen.
  destruct (split_at_lookup _ _ _ _ _ _ Hb) as [[Hlt ->]|[-> ->]].
  - rewrite length_take, length_drop. fold n.
    destruct (decide (0 < n)) as [Hpos|Hz]; [|specialize (Hc0 ltac:(lia)); lia].
    destruct (Hn Hpos) as [H1 H2]. split; [lia|]. split; [nia|nia].
  - rewrite length_drop. fold n. split; [|split; [lia|]].
    + destruct (decide (0 < n)) as [Hpos|Hz]; [|lia].
      destruct (Hn Hpos) as [H1 H2]. lia.
    + intros Hpos. destruct (Hn Hpos) as [H1 H2]. lia.
Qed.

Lemma gather_zip (m : list (nat * nat)) (b us vs : list nat) :
  Tensor.gather (map fst m) b = Some us ->
  Tensor.gather (map snd m) b = Some vs ->
  Tensor.gather m b = Some (zip us vs).
Proof.
  unfold Tensor.gather. intros Hu%mapM_Some_1 Hv%mapM_Some_1. apply mapM_Some_2.
  revert vs Hv. induction Hu as [|i u b us Hi Hu IH]; intros vs Hv.
  - inversion Hv. constructor.
  - inversion Hv as [|? v ? vs' Hiv Hv']; subst. simpl. constructor; [|by apply IH].
    rewrite Tensor.lookup_map in Hi. rewrite Tensor.lookup_map in Hiv.
    destruct (m !! i) as [[u' v']|]; simpl in *; [|done]. congruence.
Qed.

Lemma gather_total {X} (a : list X) (b : list nat) :
  Forall (fun i => i < length a) b -> is_Some (Tensor.gather a b).
Proof.
  intros H. destruct (Tensor.gather_in_range a b H) as (xs & -> & _). eauto.
Qed.

Lemma reshape_rows {X} (n : nat) (l : list X) (rows : list (list X)) :
  Tensor.reshape n l = Some rows ->
  0 < n /\ length rows = length l / n /\ Forall (fun row => length row = n) rows.
Proof.
  unfold Tensor.reshape.
  destruct (Nat.eqb_spec n 0) as [?|Hn]; [done|].
  destruct (Nat.eqb_spec (length l mod n) 0) as [Hmod|?]; [|done].
  intros [= <-]. split; [lia|].
  assert (length l = (length l / n) * n) as Hl.
  { pose proof (Nat.div_mod_eq (length l) n). lia. }
  revert Hl. generalize (length l / n) as r. clear Hmod. intros r. revert l.
  induction r as [|r IH]; intros l Hl; simpl; [split; [done|constructor]|].
  destruct (IH (drop n l)) as [H1 H2]; [rewrite length_drop; lia|].
  split; [by rewrite H1|]. constructor; [|done]. rewrite length_take. lia.
Qed.

Lemma le_max (l : list nat) (x : nat) : x ∈ l -> x <= foldr Nat.max 0 l.
Proof.
  induction l as [|y l IH]; intros Hx; [by apply elem_of_nil in Hx|].
  apply elem_of_cons in Hx. cbn [foldr]. destruct Hx as [->|Hx]; [lia|].
  specialize (IH Hx). lia.
Qed.

Lemma in_csr_indices (m : list (nat * nat)) (u i : nat) :
  (u, i) ∈ m -> i ∈ csr_indices m u.
Proof.
  intros Hin. unfold csr_indices. apply list_elem_of_filter. split; [done|].
  apply elem_of_seq. split; [lia|].
  assert (i <= foldr Nat.max 0 (map snd m)); [|lia].
  apply le_max. apply list_elem_of_fmap. by exists (u, i).
Qed.

(** X3: a batch [__next__] yields is well shaped for the rating model:
    [I], [U] and [N_U] have one entry per edge id of the current chunk,
    [(U[k], I[k])] is the stored interaction with that id, [I_U] is the
    concatenation of the rows of the users of [U] and [N_U] their sizes, the
    target item [I[k]] is one of the items of the row of [U[k]] (so no
    [N_U[k]] is zero), [I_neg] has rows of [neg_sample_size] items, and the
    sampler has advanced by one chunk. *)
Theorem next_batch_shape (s s' : sampler) (out : batch) :
  next s = Yield out s' ->
  batches s' = batches s /\ idx s' = S (idx s) /\
  (exists b,
     batches s !! idx s = Some b /\
     Tensor.gather user_item_spm b = Some (zip (U out) (I out)) /\
     length (I out) = length b /\ length (U out) = length b /\
     length (N_U out) = length b /\
     length (I_neg out) = length (choice (idx s) (neg_sample_size * length b))
                          / neg_sample_size) /\
  Forall (fun row => length row = neg_sample_size) (I_neg out) /\
  I_U out = concat (map (csr_indices user_item_spm) (U out)) /\
  N_U out = map length (map (csr_indices user_item_spm) (U out)) /\
  forall k i u,
    I out !! k = Some i -> U out !! k = Some u ->
    (u, i) ∈ user_item_spm /\
    i ∈ csr_indices user_item_spm u /\
    exists n_u, N_U out !! k = Some n_u /\ 1 <= n_u.
Proof.
  unfold next. destruct (Nat.eqb_spec (idx s) (length (batches s))) as [?|Hne]; [done|].
  destruct (batches s !! idx s) as [b|] eqn:Hb; [|done].
  destruct (Tensor.gather (map snd user_item_spm) b) as [movies|] eqn:Hm; [|done].
  destruct (Tensor.gather (map fst user_item_spm) b) as [users|] eqn:Hu; [|done].
  destruct (Tensor.reshape neg_sample_size (choice (idx s) (neg_sample_size * length b)))
    as [negs|] eqn:Hr; [|done].
  intros [= <- <-]. cbn [batches idx I U I_neg I_U N_U].
  pose proof (gather_zip _ _ _ _ Hu Hm) as Hz.
  assert (length movies = length b) as Hlm by (apply length_mapM in Hm; lia).
  assert (length users = length b) as Hlu by (apply length_mapM in Hu; lia).
  destruct (reshape_rows _ _ _ Hr) as (Hn & Hrows & Hrect).
  split; [done|]. split; [done|]. split.
  { exists b. rewrite !length_map. done. }
  split; [done|]. split; [done|]. split; [done|].
  intros k i u Hi Hk.
  assert ((u, i) ∈ user_item_spm) as Hin.
  { apply mapM_Some_1 in Hz.
    assert (zip users movies !! k = Some (u, i)) as Hzk.
    { rewrite lookup_zip_with, Hk. simpl. by rewrite Hi. }
    destruct (Forall2_lookup_r _ _ _ _ _ Hz Hzk) as (id & _ & Hid).
    eapply list_elem_of_lookup_2; eauto. }
  split; [done|]. pose proof (in_csr_indices _ _ _ Hin) as Hrow. split; [done|].
  exists (length (csr_indices user_item_spm u)).
  rewrite !Tensor.lookup_map, Hk. simpl. split; [done|].
  destruct (csr_indices user_item_spm u); [by apply elem_of_nil in Hrow|simpl; lia].
Qed.

Lemma iterate_S (fuel : nat) (s : sampler) :
  iterate (S fuel) s
  = match next s with
    | StopIteration => Some []
    | Error => None
    | Yield b s' => bs ← iterate fuel s'; Some (b :: bs)
    end.
Proof. reflexivity. Qed.

Lemma iterate_from (bs : list (list nat)) :
  0 < neg_sample_size ->
  (forall k size, length (choice k size) = size) ->
  Forall (Forall (fun id => id < length user_item_spm)) bs ->
  forall k i, i + k = length bs ->
    exists outs,
      iterate (S k) (mkSampler bs i) = Some outs /\
      Forall2 (fun b o => Tensor.gather user_item_spm b = Some (zip (U o) (I o)))
              (drop i bs) outs.
Proof.
  intros Hn Hchoice Hrange. induction k as [|k IH]; intros i Hi.
  - exists []. rewrite iterate_S. unfold next. cbn [idx batches].
    rewrite (proj2 (Nat.eqb_eq i (length bs))) by lia. split; [done|].
    rewrite drop_ge by lia. constructor.
  - assert (i < length bs) as Hlt by lia.
    destruct (lookup_lt_is_Some_2 bs i Hlt) as [b Hb].
    assert (Forall (fun id => id < length user_item_spm) b) as Hbr.
    { rewrite Forall_forall in Hrange. apply Hrange.
      eapply list_elem_of_lookup_2; eauto. }
    destruct (gather_total (map snd user_item_spm) b) as [movies Hm];
      [by rewrite length_map|].
    destruct (gather_total (map fst user_item_spm) b) as [users Hu];
      [by rewrite length_map|].
    assert (is_Some (Tensor.reshape neg_sample_size
                       (choice i (neg_sample_size * length b)))) as [negs Hr].
    { unfold Tensor.reshape. rewrite Hchoice.
      destruct (Nat.eqb_spec neg_sample_size 0) as [?|_]; [lia|].
      rewrite Nat.mul_comm, Nat.Div0.mod_mul. simpl. eauto. }
    destruct (IH (S i) ltac:(lia)) as (outs & Hit & Houts).
    eexists. split.
    + rewrite iterate_S. unfold next. cbn [idx batches].
      rewrite (proj2 (Nat.eqb_neq i (length bs))) by lia.
      rewrite Hb, Hm, Hu, Hr, Hit. reflexivity.
    + rewrite (drop_S _ _ _ Hb). constructor; [|done].
      cbn [U I]. by apply gather_zip.
Qed.

Lemma gather_concat (m : list (nat * nat)) (bs : list (list nat))
    (zs : list (list (nat * nat))) :
  Forall2 (fun b z => Tensor.gather m b = Some z) bs zs ->
  Forall2 (fun id e => m !! id = Some e) (concat bs) (concat zs).
Proof.
  induction 1 as [|b z bs zs Hb Hrest IH]; simpl; [constructor|].
  apply Forall2_app; [|done]. by apply mapM_Some_1 in Hb.
Qed.

Lemma lookup_permutation (m es : list (nat * nat)) (ids : list nat) :
  Forall2 (fun id e => m !! id = Some e) ids es ->
  ids ≡ₚ seq 0 (length m) -> es ≡ₚ m.
Proof.
  intros Hall Hperm.
  assert (es = (fun id => m !!! id) <$> ids) as ->.
  { clear Hperm. induction Hall as [|id e ids es He Hrest IH]; [done|].
    rewrite fmap_cons. f_equal; [|exact IH].
    symmetry. by apply list_lookup_total_correct. }
  rewrite Hperm.
  assert ((fun id => m !!! id) <$> seq 0 (length m) = m) as ->; [|done].
  apply list_eq. intros i.
  rewrite list_lookup_fmap.
  destruct (decide (i < length m)) as [Hlt|Hge].
  - rewrite lookup_seq_lt by done. simpl.
    by rewrite list_lookup_lookup_total_lt.
  - rewrite lookup_seq_ge by lia. simpl. symmetry. apply lookup_ge_None. lia.
Qed.

(** X4: one pass over a fresh sampler ([for batch in EdgeSampler(...)])
    makes exactly one call of [__next__] per chunk before [StopIteration],
    and the training examples [(U[k], I[k])] of the yielded batches are,
    all together, the stored interactions of the matrix, each exactly as
    often as it is stored. *)
Theorem epoch_covers_every_interaction (edge_ids : list nat) :
  0 < batch_size -> 0 < neg_sample_size ->
  (forall k size, length (choice k size) = size) ->
  edge_ids ≡ₚ seq 0 (length user_item_spm) ->
  exists s outs,
    init edge_ids = Some s /\
    iterate (S (length (batches s))) s = Some outs /\
    length outs = length (batches s) /\
    concat (map (fun o => zip (U o) (I o)) outs) ≡ₚ user_item_spm.
Proof.
  intros Hbs Hn Hchoice Hperm.
  assert (exists s, init edge_ids = Some s /\ idx s = 0 /\ concat (batches s) = edge_ids)
    as (s & Hs & Hidx & Hcat).
  { unfold init, arange. destruct (Nat.eqb_spec batch_size 0) as [?|_]; [lia|]. simpl.
    eexists. split; [reflexivity|]. split; [done|]. simpl.
    apply (split_at_concat edge_ids batch_size _ 0). }
  destruct s as [bs i]. simpl in Hidx, Hcat. subst i.
  assert (Forall (Forall (fun id => id < length user_item_spm)) bs) as Hrange.
  { apply Forall_forall. intros b Hb. apply Forall_forall. intros id Hid.
    assert (id ∈ edge_ids) as Hin.
    { rewrite <- Hcat. apply list_elem_of_In, in_concat. exists b.
      split; by apply list_elem_of_In. }
    rewrite Hperm in Hin. apply list_elem_of_In, in_seq in Hin. lia. }
  destruct (iterate_from bs Hn Hchoice Hrange (length bs) 0 ltac:(lia))
    as (outs & Hit & Houts).
  exists (mkSampler bs 0), outs. cbn [batches]. split; [done|]. split; [done|].
  rewrite drop_0 in Houts. split; [symmetry; by eapply Forall2_length|].
  apply (lookup_permutation _ _ edge_ids); [|done].
  rewrite <- Hcat. apply gather_concat.
  clear -Houts. induction Houts as [|b o bs outs Hb Hrest IH]; simpl; by constructor.
Qed.

End Sampler.

End EdgeSampler.

(** * Evaluation pairs and the check of the negative edges (Recommendation.ipynb) *)

Module Retail.

(** The inner loop of [construct_edges] over one row of the CSR matrix:
    [row] is [spm[i].indices]. *)
Definition row_edges (row : list nat) (acc : option (list nat * list nat))
    : option (list nat * list nat) :=
  let num_items := length row in
  fold_left (fun acc t =>
               '(query, truth) ← acc;
               q ← row !! t;
               r ← row !! (t + 1);
               Some (query ++ [q], truth ++ [r]))
            (seq 0 (num_items - 1)) acc.

(** [construct_edges(data)] from the CSR matrix built of the sorted data:
    for each session the stored item indices. *)
Definition construct_edges (spm : list (list nat)) : option (list nat * list nat) :=
  fold_left (fun acc row => row_edges row acc) spm (Some ([], [])).

Lemma row_edges_closed (row : list nat) (query truth : list nat) :
  row_edges row (Some (query, truth))
  = Some (query ++ take (length row - 1) row, truth ++ drop 1 row).
Proof.
  unfold row_edges.
  assert (forall k, k <= length row - 1 ->
            fold_left (fun acc t =>
                         '(query, truth) ← acc;
                         q ← row !! t;
                         r ← row !! (t + 1);
                         Some (query ++ [q], truth ++ [r]))
                      (seq 0 k) (Some (query, truth))
            = Some (query ++ take k row, truth ++ take k (drop 1 row))) as Hk.
  { induction k as [|k IH]; intros Hle.
    - simpl. by rewrite !app_nil_r.
    - rewrite seq_S, fold_left_app, IH by lia. simpl.
      destruct (lookup_lt_is_Some_2 row k ltac:(lia)) as [q Hq].
      destruct (lookup_lt_is_Some_2 row (k + 1) ltac:(lia)) as [r Hr].
      rewrite Hq, Hr. simpl.
      rewrite (take_S_r row k q Hq).
      rewrite (take_S_r (drop 1 row) k r) by (rewrite lookup_drop; by rewrite Nat.add_comm).
      by rewrite !app_assoc. }
  rewrite Hk by lia. do 3 f_equal. apply take_ge. rewrite length_drop. lia.
Qed.

Lemma adjacent_distinct (row : list nat) :
  NoDup row -> Forall2 (fun q t => q <> t) (take (length row - 1) row) (drop 1 row).
Proof.
  induction row as [|a [|b rest] IH]; intros Hnd; simpl; try constructor.
  - apply NoDup_cons in Hnd as [Ha _]. intros ->. apply Ha. by left.
  - apply NoDup_cons in Hnd as [_ Hnd]. specialize (IH Hnd).
    simpl in IH. by rewrite Nat.sub_0_r in IH.
Qed.

(** X5: [construct_edges] never raises; the queries are the stored items
    of every session but its last one and the truths those of every session
    but its first one, in storage order, so a session of [n] stored items
    gives [n - 1] pairs of neighbouring items (none for [n <= 1]), and no
    pair has the same item twice when the indices of a row are distinct. *)
Theorem construct_edges_adjacent (spm : list (list nat)) :
  exists query truth,
    construct_edges spm = Some (query, truth) /\
    query = concat (map (fun row => take (length row - 1) row) spm) /\
    truth = concat (map (drop 1) spm) /\
    length query = length truth /\
    length query = sum_list (map (fun row => length row - 1) spm) /\
    (Forall NoDup spm -> Forall2 (fun q t => q <> t) query truth).
Proof.
  assert (forall query truth,
            fold_left (fun acc row => row_edges row acc) spm (Some (query, truth))
            = Some (query ++ concat (map (fun row => take (length row - 1) row) spm),
                    truth ++ concat (map (drop 1) spm))) as Hgen.
  { induction spm as [|row spm IH]; intros query truth; simpl.
    - by rewrite !app_nil_r.
    - rewrite row_edges_closed, IH. by rewrite <- !app_assoc. }
  eexists _, _. split; [apply Hgen|]. simpl. split; [done|]. split; [done|].
  assert (length (concat (map (fun row => take (length row - 1) row) spm))
          = sum_list (map (fun row => length row - 1) spm)) as Hq.
  { clear Hgen. induction spm as [|row spm IH]; simpl; [done|].
    rewrite length_app, length_take, IH. lia. }
  assert (length (concat (map (drop 1) spm))
          = sum_list (map (fun row => length row - 1) spm)) as Ht.
  { clear Hq Hgen. induction spm as [|row spm IH]; simpl; [done|].
    rewrite length_app, length_drop, IH. lia. }
  split; [by rewrite Hq, Ht|]. split; [done|].
  clear. induction 1 as [|row spm Hrow Hspm IH]; simpl; [constructor|].
  apply Forall2_app; [by apply adjacent_distinct|done].
Qed.

(** [spsp.coo_matrix((np.ones(len(data)), (visitorid, itemid))).tocsr()]
    row by row; [data] lists the [(visitorid, itemid)] pairs of the sorted
    frame.  No shape is given, so an empty frame raises. *)
Definition tocsr (data : list (nat * nat)) : option (list (list nat)) :=
  if decide (data = []) then None
  else Some (map (EdgeSampler.csr_indices data) (seq 0 (Movielens.shape0 data))).

(** [construct_edges(data)] from the pairs of the frame. *)
Definition construct_edges_of (data : list (nat * nat)) : option (list nat * list nat) :=
  spm ← tocsr data;
  construct_edges spm.

(** [q] and [t] are items of one visitor with no item of that visitor
    between them. *)
Definition neighbours (data : list (nat * nat)) (q t : nat) : Prop :=
  q < t /\ exists u, (u, q) ∈ data /\ (u, t) ∈ data /\
                     forall c, (u, c) ∈ data -> ~ (q < c < t).

Lemma max_le (l : list nat) (b : nat) : Forall (fun x => x <= b) l -> foldr Nat.max 0 l <= b.
Proof. induction 1 as [|x l Hx _ IH]; cbn [foldr]; lia. Qed.

Lemma max_same (l l' : list nat) :
  (forall x, x ∈ l <-> x ∈ l') -> foldr Nat.max 0 l = foldr Nat.max 0 l'.
Proof.
  intros H. apply Nat.le_antisymm; apply max_le, Forall_forall; intros x Hx;
    apply EdgeSampler.le_max; by apply H.
Qed.

Lemma filter_seq_head (P : nat -> Prop) `{!forall c, Decision (P c)} (n : nat) :
  forall s b rest,
    filter P (seq s n) = b :: rest ->
    s <= b /\ P b /\ (forall c, s <= c < b -> ~ P c) /\
    exists k, rest = filter P (seq (S b) k) /\ S b + k = s + n.
Proof.
  induction n as [|n IH]; intros s b rest Hf; [done|].
  cbn [seq] in Hf. rewrite filter_cons in Hf. destruct (decide (P s)) as [Hs|Hs].
  - injection Hf as <- <-. split; [lia|]. split; [done|]. split; [intros c ?; lia|].
    exists n. split; [done|lia].
  - destruct (IH (S s) b rest Hf) as (Hle & Hb & Hnone & k & Hrest & Hk).
    split; [lia|]. split; [done|]. split.
    + intros c Hc. destruct (decide (c = s)) as [->|Hne]; [done|]. apply Hnone. lia.
    + exists k. split; [done|lia].
Qed.

Lemma filter_seq_adjacent (P : nat -> Prop) `{!forall c, Decision (P c)} (n : nat) :
  forall s,
    Forall2 (fun q t => q < t /\ P q /\ P t /\ forall c, P c -> ~ (q < c < t))
            (take (length (filter P (seq s n)) - 1) (filter P (seq s n)))
            (drop 1 (filter P (seq s n))).
Proof.
  induction n as [n IH] using lt_wf_ind. intros s.
  destruct (filter P (seq s n)) as [|a rest] eqn:E; [constructor|].
  destruct (filter_seq_head P n s a rest E) as (Hsa & Ha & _ & k & -> & Hk).
  cbn [length drop]. rewrite Nat.sub_succ, Nat.sub_0_r.
  destruct (filter P (seq (S a) k)) as [|b rest'] eqn:E'; [constructor|].
  destruct (filter_seq_head P k (S a) b rest' E') as (Hab & Hb & Hnone & _).
  cbn [take]. constructor.
  - split; [lia|]. split; [done|]. split; [done|].
    intros c Hc Hbetween. apply (Hnone c); [lia|done].
  - specialize (IH k ltac:(lia) (S a)). rewrite E' in IH.
    cbn [length drop] in IH. by rewrite Nat.sub_succ, Nat.sub_0_r in IH.
Qed.

Lemma Forall2_concat {A B} (Rel : A -> B -> Prop) (xs : list (list A)) (ys : list (list B)) :
  Forall2 (Forall2 Rel) xs ys -> Forall2 Rel (concat xs) (concat ys).
Proof. induction 1; cbn [concat]; [constructor|by apply Forall2_app]. Qed.

(** X20: on a frame with at least one event [construct_edges] returns, and
    every pair it returns relates two items of one visitor that are
    neighbours in the order of the item ids: the conversion to CSR sorts
    the items of a visitor and merges repeated ones, so the result does not
    depend on the order of the events (nor on their timestamps) but only on
    which visitor saw which item. *)
Theorem construct_edges_by_item_id (data : list (nat * nat)) :
  data <> [] ->
  exists query truth,
    construct_edges_of data = Some (query, truth) /\
    Forall2 (neighbours data) query truth /\
    forall data', (forall e, e ∈ data <-> e ∈ data') ->
                  construct_edges_of data' = Some (query, truth).
Proof.
  intros Hne. unfold construct_edges_of, tocsr. rewrite decide_False by done.
  cbn [mbind option_bind].
  set (spm := map (EdgeSampler.csr_indices data) (seq 0 (Movielens.shape0 data))).
  assert (forall spm0 query truth,
            fold_left (fun acc row => row_edges row acc) spm0 (Some (query, truth))
            = Some (query ++ concat (map (fun row => take (length row - 1) row) spm0),
                    truth ++ concat (map (drop 1) spm0))) as Hgen.
  { induction spm0 as [|row spm0 IH]; intros query truth; cbn [fold_left map concat].
    - by rewrite !app_nil_r.
    - rewrite row_edges_closed, IH. by rewrite <- !(assoc_L (++)). }
  exists (concat (map (fun row => take (length row - 1) row) spm)),
         (concat (map (drop 1) spm)).
  split; [apply (Hgen spm [] [])|]. split.
  - apply Forall2_concat. subst spm. rewrite !map_map.
    apply Forall2_fmap. apply Forall_Forall2_diag, Forall_forall. intros u _.
    unfold EdgeSampler.csr_indices.
    eapply Forall2_impl; [apply filter_seq_adjacent|].
    intros q t (Hlt & Hq & Ht & Hnone). split; [done|]. by exists u.
  - intros data' Hsame.
    assert (data' <> []) as Hne'.
    { destruct data as [|e data]; [done|]. intros ->.
      specialize (Hsame e). destruct Hsame as [Hin _].
      by apply elem_of_nil in Hin; [|left]. }
    rewrite decide_False by done. cbn [mbind option_bind].
    assert (map (EdgeSampler.csr_indices data') (seq 0 (Movielens.shape0 data')) = spm) as ->;
      [|apply (Hgen spm [] [])].
    subst spm.
    assert (forall (f : nat * nat -> nat),
              foldr Nat.max 0 (map f data') = foldr Nat.max 0 (map f data)) as Hmax.
    { intros f. apply max_same. intros x. split.
      - intros Hx. apply list_elem_of_fmap in Hx. destruct Hx as (e & -> & He).
        apply list_elem_of_fmap. exists e. split; [done|]. by apply Hsame.
      - intros Hx. apply list_elem_of_fmap in Hx. destruct Hx as (e & -> & He).
        apply list_elem_of_fmap. exists e. split; [done|]. by apply Hsame. }
    unfold Movielens.shape0. rewrite (Hmax fst). apply map_ext. intros u.
    unfold EdgeSampler.csr_indices. rewrite (Hmax snd).
    apply list_filter_iff. intros c. symmetry. apply Hsame.
Qed.

(** [a[mask]] for a boolean mask: the entries where the mask holds; a mask
    of another length raises. *)
Definition mask_select {A} (a : list A) (mask : list bool) : option (list A) :=
  if decide (length a = length mask)
  then Some (map fst (filter (fun p => p.2 = true) (zip a mask)))
  else None.

Section VerifyNeg.
(** [loss_spm] is a square matrix over the items; [in_loss s d] says that
    its entry at [(s, d)] is not zero. *)
Variable num_items : nat.
Variable in_loss : nat -> nat -> bool.

(** [loss_spm[rows, cols] != 0] for two index arrays: one entry per pair,
    an index outside the matrix raises.  The two arrays are always selected
    by the same mask, so they have the same length. *)
Definition loss_index (rows cols : list nat) : option (list bool) :=
  if decide (length rows = length cols)
  then mapM (fun p => if (p.1 <? num_items) && (p.2 <? num_items)
                      then Some (in_loss p.1 p.2) else None) (zip rows cols)
  else None.

(** [verify_neg(neg_g)]: [edges] are the edges of the subgraph in edge-id
    order, [parent_nid] maps its nodes to the parent graph, [false_neg] is
    the edge feature.  [None] is an [IndexError] or a failed assertion. *)
Definition verify_neg (edges : list (nat * nat)) (parent_nid : list nat)
    (false_neg : list Z) : option unit :=
  src_nid ← Tensor.gather parent_nid (map fst edges);
  dst_nid ← Tensor.gather parent_nid (map snd edges);
  true_neg_src ← mask_select src_nid (map (fun f => (f =? 0)%Z) false_neg);
  true_neg_dst ← mask_select dst_nid (map (fun f => (f =? 0)%Z) false_neg);
  false_neg_src ← mask_select src_nid (map (fun f => (f =? 1)%Z) false_neg);
  false_neg_dst ← mask_select dst_nid (map (fun f => (f =? 1)%Z) false_neg);
  true_hits ← loss_index true_neg_src true_neg_dst;
  if Tensor.count_true (map negb true_hits) =? length true_neg_src
  then
    false_hits ← loss_index false_neg_src false_neg_dst;
    if Tensor.count_true false_hits =? length false_neg_src
    then Some tt
    else None
  else None.

Lemma map_negb_zip_with (f : nat -> nat -> bool) (a b : list nat) :
  map negb (zip_with f a b) = zip_with (fun s d => negb (f s d)) a b.
Proof.
  revert b. induction a as [|x a IH]; intros [|y b]; simpl; [done..|]. by rewrite IH.
Qed.

Lemma select_in (src : list nat) (mask : list bool) (P : nat -> Prop) :
  Forall P src -> Forall P (map fst (filter (fun p => p.2 = true) (zip src mask))).
Proof.
  intros H. apply Forall_forall. intros x Hx.
  apply list_elem_of_fmap in Hx. destruct Hx as ([y b] & -> & Hy).
  apply list_elem_of_filter in Hy. destruct Hy as [_ Hy].
  apply elem_of_zip_l in Hy. rewrite Forall_forall in H. by apply H.
Qed.

Lemma loss_index_in_range (rows cols : list nat) :
  length rows = length cols ->
  Forall (fun s => s < num_items) rows -> Forall (fun d => d < num_items) cols ->
  loss_index rows cols = Some (zip_with in_loss rows cols).
Proof.
  intros Hl Hr Hc. unfold loss_index. rewrite decide_True by done. clear Hl.
  revert cols Hc. induction Hr as [|s rows Hs Hr IH]; intros [|d cols] Hc; try done.
  apply Forall_cons in Hc. destruct Hc as [Hd Hc].
  apply Nat.ltb_lt in Hs. apply Nat.ltb_lt in Hd. specialize (IH cols Hc).
  cbn [zip zip_with mapM fst snd] in *. rewrite Hs, Hd. cbn [andb mbind option_bind].
  rewrite IH. done.
Qed.

Lemma count_true_all (l : list bool) :
  Tensor.count_true l = length l <-> Forall (fun b => b = true) l.
Proof.
  assert (Tensor.count_true l <= length l) as Hle.
  { induction l as [|[] l IH]; simpl; lia. }
  induction l as [|b l IH]; simpl in *.
  - split; [constructor|done].
  - assert (Tensor.count_true l <= length l) as Hle'.
    { clear. induction l as [|[] l IH]; simpl; lia. }
    rewrite Forall_cons. destruct b; simpl.
    + rewrite <- IH by done. split; [intros; split; [done|lia]|intros [_ ?]; lia].
    + split; [lia|by intros [? _]].
Qed.

Lemma select_length (src dst : list nat) (mask : list bool) :
  length src = length dst ->
  length (filter (fun p => p.2 = true) (zip src mask))
  = length (filter (fun p => p.2 = true) (zip dst mask)).
Proof.
  revert dst mask. induction src as [|s src IH]; intros [|d dst] [|b mask] Hl;
    simpl in *; try done.
  rewrite !filter_cons. simpl. injection Hl as Hl.
  destruct b; [rewrite !decide_True by done|rewrite !decide_False by done]; simpl;
    by rewrite (IH dst mask Hl).
Qed.

Lemma select_pairs (src dst : list nat) (mask : list bool) (f : nat -> nat -> bool) :
  length src = length mask -> length dst = length mask ->
  Forall (fun b => b = true)
    (zip_with f (map fst (filter (fun p => p.2 = true) (zip src mask)))
                (map fst (filter (fun p => p.2 = true) (zip dst mask))))
  <-> forall k s d, src !! k = Some s -> dst !! k = Some d ->
                    mask !! k = Some true -> f s d = true.
Proof.
  revert dst mask. induction src as [|s src IH]; intros [|d dst] [|b mask] Hs Hd;
    simpl in *; try done.
  injection Hs as Hs. injection Hd as Hd. rewrite !filter_cons. simpl.
  destruct b.
  - rewrite !decide_True by done. simpl. rewrite Forall_cons, (IH dst mask Hs Hd).
    split.
    + intros [H0 Hrest] [|k] s' d'; simpl; [by intros [= <-] [= <-] _|apply Hrest].
    + intros H. split; [by apply (H 0)|]. intros k. apply (H (S k)).
  - rewrite !decide_False by done. rewrite (IH dst mask Hs Hd).
    split.
    + intros Hrest [|k] s' d'; simpl; [by intros _ _ [=]|apply Hrest].
    + intros H k. apply (H (S k)).
Qed.

(** X6: on a well-formed negative subgraph (one flag per edge, endpoints
    that are nodes of the subgraph) [verify_neg] passes exactly when every
    edge flagged [0] is absent from the loss graph and every edge flagged
    [1] is present; an edge with any other flag is not checked. *)
Theorem verify_neg_passes_iff (edges : list (nat * nat)) (parent_nid : list nat)
    (false_neg : list Z) :
  length false_neg = length edges ->
  Forall (fun e => e.1 < length parent_nid /\ e.2 < length parent_nid) edges ->
  Forall (fun p => p < num_items) parent_nid ->
  verify_neg edges parent_nid false_neg = Some tt <->
  forall k e s d f,
    edges !! k = Some e -> parent_nid !! e.1 = Some s -> parent_nid !! e.2 = Some d ->
    false_neg !! k = Some f ->
    (f = 0%Z -> in_loss s d = false) /\ (f = 1%Z -> in_loss s d = true).
Proof.
  intros Hlen Hrange Hitems.
  destruct (Tensor.gather_in_range parent_nid (map fst edges)) as (src & Hsrc & Hsrc2).
  { apply Forall_map. eapply Forall_impl; [exact Hrange|]. by intros e [? _]. }
  destruct (Tensor.gather_in_range parent_nid (map snd edges)) as (dst & Hdst & Hdst2).
  { apply Forall_map. eapply Forall_impl; [exact Hrange|]. by intros e [_ ?]. }
  assert (length src = length edges) as Hls.
  { apply Forall2_length in Hsrc2. by rewrite length_map in Hsrc2. }
  assert (length dst = length edges) as Hld.
  { apply Forall2_length in Hdst2. by rewrite length_map in Hdst2. }
  unfold verify_neg. rewrite Hsrc, Hdst. cbn [mbind option_bind].
  unfold mask_select. rewrite !length_map.
  rewrite !decide_True by lia. cbn [mbind option_bind].
  set (m0 := map (fun f => (f =? 0)%Z) false_neg).
  set (m1 := map (fun f => (f =? 1)%Z) false_neg).
  assert (Forall (fun s => s < num_items) src) as Hsi.
  { apply Forall_forall. intros x Hx. apply list_elem_of_lookup in Hx. destruct Hx as [k Hk].
    destruct (Forall2_lookup_r _ _ _ _ _ Hsrc2 Hk) as (i & _ & Hi).
    rewrite Forall_forall in Hitems. apply Hitems. by eapply list_elem_of_lookup_2. }
  assert (Forall (fun d => d < num_items) dst) as Hdi.
  { apply Forall_forall. intros x Hx. apply list_elem_of_lookup in Hx. destruct Hx as [k Hk].
    destruct (Forall2_lookup_r _ _ _ _ _ Hdst2 Hk) as (i & _ & Hi).
    rewrite Forall_forall in Hitems. apply Hitems. by eapply list_elem_of_lookup_2. }
  assert (forall m, length (map fst (filter (fun p : nat * bool => p.2 = true) (zip src m)))
                    = length (map fst (filter (fun p : nat * bool => p.2 = true) (zip dst m))))
    as Hsel.
  { intros m. rewrite !length_map. apply select_length. lia. }
  rewrite (loss_index_in_range _ _ (Hsel m0) (select_in src m0 _ Hsi) (select_in dst m0 _ Hdi)).
  rewrite (loss_index_in_range _ _ (Hsel m1) (select_in src m1 _ Hsi) (select_in dst m1 _ Hdi)).
  cbn [mbind option_bind]. rewrite map_negb_zip_with.
  pose proof (select_pairs src dst m0 (fun s d => negb (in_loss s d))
                ltac:(subst m0; rewrite length_map; lia)
                ltac:(subst m0; rewrite length_map; lia)) as H0.
  pose proof (select_pairs src dst m1 in_loss
                ltac:(subst m1; rewrite length_map; lia)
                ltac:(subst m1; rewrite length_map; lia)) as H1.
  set (tn := zip_with (fun s d => negb (in_loss s d))
               (map fst (filter (fun p => p.2 = true) (zip src m0)))
               (map fst (filter (fun p => p.2 = true) (zip dst m0)))) in *.
  set (fn := zip_with in_loss
               (map fst (filter (fun p => p.2 = true) (zip src m1)))
               (map fst (filter (fun p => p.2 = true) (zip dst m1)))) in *.
  assert (length tn = length (map fst (filter (fun p => p.2 = true) (zip src m0)))) as Htn.
  { subst tn. rewrite length_zip_with. 
    assert (length (map fst (filter (fun p => p.2 = true) (zip src m0)))
            = length (map fst (filter (fun p => p.2 = true) (zip dst m0)))) as E; [|lia].
    rewrite !length_map. apply select_length. lia. }
  assert (length fn = length (map fst (filter (fun p => p.2 = true) (zip src m1)))) as Hfn.
  { subst fn. rewrite length_zip_with. 
    assert (length (map fst (filter (fun p => p.2 = true) (zip src m1)))
            = length (map fst (filter (fun p => p.2 = true) (zip dst m1)))) as E; [|lia].
    rewrite !length_map. apply select_length. lia. }
  rewrite <- Htn, <- Hfn.
  assert (forall k e s d, edges !! k = Some e -> parent_nid !! e.1 = Some s ->
            parent_nid !! e.2 = Some d -> src !! k = Some s /\ dst !! k = Some d) as Hres.
  { intros k e s d He Hs Hd.
    assert (map fst edges !! k = Some e.1) as H1' by (by rewrite Tensor.lookup_map, He).
    assert (map snd edges !! k = Some e.2) as H2' by (by rewrite Tensor.lookup_map, He).
    destruct (Forall2_lookup_l _ _ _ _ _ Hsrc2 H1') as (s' & Hs' & Hs'').
    destruct (Forall2_lookup_l _ _ _ _ _ Hdst2 H2') as (d' & Hd' & Hd'').
    simpl in *. split; congruence. }
  split.
  - intros Hpass.
    destruct (Nat.eqb_spec (Tensor.count_true tn) (length tn)) as [Ht|]; [|done].
    destruct (Nat.eqb_spec (Tensor.count_true fn) (length fn)) as [Hf|]; [|done].
    pose proof (proj1 H0 (proj1 (count_true_all _) Ht)) as Ht'.
    pose proof (proj1 H1 (proj1 (count_true_all _) Hf)) as Hf'.
    intros k e s d f He Hs Hd Hfk.
    destruct (Hres k e s d He Hs Hd) as [Hsk Hdk]. split; intros ->.
    + apply negb_true_iff. apply (Ht' k s d Hsk Hdk).
      subst m0. by rewrite Tensor.lookup_map, Hfk.
    + apply (Hf' k s d Hsk Hdk). subst m1. by rewrite Tensor.lookup_map, Hfk.
  - intros Hall.
    assert (forall k s d, src !! k = Some s -> dst !! k = Some d ->
              exists e, edges !! k = Some e /\ parent_nid !! e.1 = Some s /\
                        parent_nid !! e.2 = Some d) as Hback.
    { intros k s d Hsk Hdk.
      destruct (Forall2_lookup_r _ _ _ _ _ Hsrc2 Hsk) as (i & Hi & Hi').
      destruct (Forall2_lookup_r _ _ _ _ _ Hdst2 Hdk) as (j & Hj & Hj').
      rewrite Tensor.lookup_map in Hi. rewrite Tensor.lookup_map in Hj.
      destruct (edges !! k) as [e|]; simpl in *; [|done].
      injection Hi as <-. injection Hj as <-. eauto. }
    assert (Tensor.count_true tn = length tn) as ->.
    { apply count_true_all. apply (proj2 H0). intros k s d Hsk Hdk Hm.
      destruct (Hback k s d Hsk Hdk) as (e & He & Hs & Hd).
      subst m0. rewrite Tensor.lookup_map in Hm.
      destruct (false_neg !! k) as [f|] eqn:Hf; simpl in Hm; [|done].
      injection Hm as Hm. apply Z.eqb_eq in Hm.
      apply negb_true_iff. by apply (Hall k e s d f He Hs Hd Hf). }
    rewrite Nat.eqb_refl.
    assert (Tensor.count_true fn = length fn) as ->.
    { apply count_true_all. apply (proj2 H1). intros k s d Hsk Hdk Hm.
      destruct (Hback k s d Hsk Hdk) as (e & He & Hs & Hd).
      subst m1. rewrite Tensor.lookup_map in Hm.
      destruct (false_neg !! k) as [f|] eqn:Hf; simpl in Hm; [|done].
      injection Hm as Hm. apply Z.eqb_eq in Hm.
      by apply (Hall k e s d f He Hs Hd Hf). }
    by rewrite Nat.eqb_refl.
Qed.
End VerifyNeg.

End Retail.

(** * Popularity of the test items (Recommendation-fism.ipynb) *)

Module Popularity.

(** A Python dict with integer keys, in insertion order: assigning to a key
    that is present keeps its place. *)
Definition dict (V : Type) : Type := list (nat * V).

Fixpoint dict_set {V} (d : dict V) (k : nat) (v : V) : dict V :=
  match d with
  | [] => [(k, v)]
  | kv :: rest => if kv.1 =? k then (k, v) :: rest else kv :: dict_set rest k v
  end.

(** [np.nonzero(cond)[0]]: the positions where the condition holds, in
    increasing order. *)
Definition nonzero (cond : list bool) : list nat :=
  map fst (filter (fun p => p.2 = true) (zip (seq 0 (length cond)) cond)).

Section Cell.
(** [item_deg]: the column sums of the training matrix.  Its data are ones,
    so the sums are counts. *)
Variable item_deg : list nat.
(** [int(items_test[i])]. *)
Variable items_test : list nat.
Variable num_users : nat.

(** The loop that fills [test_deg]; an index out of range raises. *)
Definition test_deg : option (list nat) :=
  mapM (fun i => item ← items_test !! i; item_deg !! item) (seq 0 num_users).

(** The three groups of keys of [test_deg_dict]: [1..9], [10, 20, .., 90]
    and [100]. *)
Definition test_deg_dict (test_deg : list nat) : dict (list nat) :=
  let d := fold_left (fun d i => dict_set d i (nonzero (map (fun x => x =? i) test_deg)))
                     (seq 1 9) [] in
  let d := fold_left (fun d i =>
                        dict_set d (i * 10)
                          (nonzero (map (fun x => (i * 10 <=? x) && (x <? (i + 1) * 10))
                                        test_deg)))
                     (seq 1 9) d in
  dict_set d 100 (nonzero (map (fun x => 100 <=? x) test_deg)).

(** The loop over [test_deg_dict.items()] that accumulates [tmp]. *)
Definition count_users (d : dict (list nat)) : nat :=
  fold_left (fun tmp kv => tmp + length kv.2) d 0.

(** The cell: the dictionary and the printed [tmp]. *)
Definition degree_cell : option (dict (list nat) * nat) :=
  td ← test_deg;
  let d := test_deg_dict td in
  Some (d, count_users d).

(** The degrees that the bucket of a key holds. *)
Definition bucket (key x : nat) : Prop :=
  if key <? 10 then x = key
  else if key <? 100 then key <= x < key + 10
  else 100 <= x.

Definition bucketb (key x : nat) : bool :=
  if key <? 10 then x =? key
  else if key <? 100 then (key <=? x) && (x <? key + 10)
  else 100 <=? x.

Definition keys : list nat :=
  [1; 2; 3; 4; 5; 6; 7; 8; 9; 10; 20; 30; 40; 50; 60; 70; 80; 90; 100].

Definition hits (x : nat) : nat := length (filter (fun key => bucketb key x = true) keys).
End Cell.

Lemma bucketb_spec (key x : nat) : bucketb key x = true <-> bucket key x.
Proof.
  unfold bucketb, bucket. destruct (key <? 10); [apply Nat.eqb_eq|].
  destruct (key <? 100); [|apply Nat.leb_le].
  rewrite andb_true_iff, Nat.leb_le, Nat.ltb_lt. done.
Qed.

Lemma test_deg_dict_closed (td : list nat) :
  test_deg_dict td = map (fun key => (key, nonzero (map (bucketb key) td))) keys.
Proof. reflexivity. Qed.

Lemma hits_spec (x : nat) : hits x = if 1 <=? x then 1 else 0.
Proof. do 100 (destruct x as [|x]; [reflexivity|]). reflexivity. Qed.

Lemma nonzero_from (cond : list bool) (start : nat) :
  length (filter (fun p : nat * bool => p.2 = true) (zip (seq start (length cond)) cond))
  = Tensor.count_true cond /\
  forall u, u ∈ map fst (filter (fun p : nat * bool => p.2 = true)
                                (zip (seq start (length cond)) cond))
            <-> start <= u /\ cond !! (u - start) = Some true.
Proof.
  revert start. induction cond as [|b cond IH]; intros start.
  - split; [done|]. intros u. simpl. rewrite elem_of_nil. split; [done|]. by intros [_ ?].
  - destruct (IH (S start)) as [IHl IHm].
    cbn [length seq zip zip_with]. change (zip_with pair ?a ?b) with (zip a b).
    rewrite filter_cons. cbn [snd]. split.
    + destruct b; [rewrite decide_True by done|rewrite decide_False by done];
        cbn [length Tensor.count_true]; rewrite IHl; done.
    + intros u. destruct b; [rewrite decide_True by done|rewrite decide_False by done].
      * cbn [map fst]. rewrite elem_of_cons, IHm. split.
        -- intros [->|[Hle Hu]]; [by rewrite Nat.sub_diag|].
           split; [lia|]. by replace (u - start) with (S (u - S start)) by lia.
        -- intros [Hle Hu]. destruct (decide (u = start)) as [|Hne]; [by left|right].
           split; [lia|]. by replace (u - start) with (S (u - S start)) in Hu by lia.
      * rewrite IHm. split.
        -- intros [Hle Hu]. split; [lia|].
           by replace (u - start) with (S (u - S start)) by lia.
        -- intros [Hle Hu]. destruct (decide (u = start)) as [->|Hne].
           { by rewrite Nat.sub_diag in Hu. }
           split; [lia|]. by replace (u - start) with (S (u - S start)) in Hu by lia.
Qed.

Lemma nonzero_length (cond : list bool) : length (nonzero cond) = Tensor.count_true cond.
Proof. unfold nonzero. rewrite length_map. apply nonzero_from. Qed.

Lemma nonzero_elem (cond : list bool) (u : nat) : u ∈ nonzero cond <-> cond !! u = Some true.
Proof.
  unfold nonzero. rewrite (proj2 (nonzero_from cond 0) u), Nat.sub_0_r.
  split; [by intros [_ ?]|]. intros ?; split; [lia|done].
Qed.

Lemma count_users_sum (d : dict (list nat)) :
  count_users d = sum_list (map (fun kv => length kv.2) d).
Proof.
  unfold count_users.
  assert (forall acc, fold_left (fun tmp (kv : nat * list nat) => tmp + length kv.2) d acc
                      = acc + sum_list (map (fun kv => length kv.2) d)) as H.
  { induction d as [|kv d IH]; intros acc; simpl; [lia|]. rewrite IH. lia. }
  by rewrite H.
Qed.

(** Counting bucket by bucket is counting user by user. *)
Lemma buckets_sum (ks td : list nat) :
  sum_list (map (fun key => Tensor.count_true (map (bucketb key) td)) ks)
  = sum_list (map (fun x => length (filter (fun key => bucketb key x = true) ks)) td).
Proof.
  induction ks as [|k ks IH].
  - simpl. induction td as [|x td IHt]; simpl; [done|]. by rewrite <- IHt.
  - cbn [map sum_list]. rewrite IH. clear IH.
    induction td as [|x td IHt]; [done|].
    cbn [map sum_list Tensor.count_true]. rewrite filter_cons.
    destruct (bucketb k x); [rewrite decide_True by done|rewrite decide_False by done];
      cbn [length]; unfold id in *; lia.
Qed.

Lemma test_deg_length (item_deg items_test : list nat) (num_users : nat) (td : list nat) :
  test_deg item_deg items_test num_users = Some td -> length td = num_users.
Proof.
  unfold test_deg. intros H. apply length_mapM in H. by rewrite length_seq in H.
Qed.

(** X7: when the test item of every user is a column of the training
    matrix, the cell builds the nineteen buckets [1..9], [10, 20, .., 90],
    [100] in that order; a user is listed under a key exactly when the
    degree of their test item falls in the key's range, no user is listed
    twice, and the printed total [tmp] is the number of users whose test
    item has degree at least one, so it equals [num_users] only when no
    test item is unseen in training. *)
Theorem degree_buckets_count (item_deg items_test : list nat) (num_users : nat) :
  num_users <= length items_test ->
  Forall (fun item => item < length item_deg) (take num_users items_test) ->
  exists td d tmp,
    test_deg item_deg items_test num_users = Some td /\
    degree_cell item_deg items_test num_users = Some (d, tmp) /\
    length td = num_users /\
    map fst d = keys /\
    (forall key us u, (key, us) ∈ d ->
       (u ∈ us <-> exists x, td !! u = Some x /\ bucket key x)) /\
    (forall key key' us us' u, (key, us) ∈ d -> (key', us') ∈ d ->
       u ∈ us -> u ∈ us' -> key = key') /\
    tmp = length (filter (fun x => 1 <= x) td) /\
    tmp <= num_users /\
    (tmp = num_users <-> Forall (fun x => 1 <= x) td).
Proof.
  intros Hlen Hrange.
  assert (exists td, test_deg item_deg items_test num_users = Some td) as [td Htd].
  { apply mapM_is_Some. apply Forall_forall. intros i Hi. unfold compose.
    apply elem_of_seq in Hi.
    destruct (lookup_lt_is_Some_2 items_test i ltac:(lia)) as [item Hitem].
    rewrite Hitem. cbn [mbind option_bind]. apply lookup_lt_is_Some_2.
    rewrite Forall_forall in Hrange. apply Hrange.
    apply list_elem_of_lookup. exists i. rewrite lookup_take_lt by lia. done. }
  pose proof (test_deg_length _ _ _ _ Htd) as Hl.
  assert (forall key us, (key, us) ∈ test_deg_dict td ->
            key ∈ keys /\ us = nonzero (map (bucketb key) td)) as Hd.
  { intros key us H. rewrite test_deg_dict_closed in H.
    apply list_elem_of_fmap in H. destruct H as (k & [= -> ->] & Hk). done. }
  assert (forall key us u, (key, us) ∈ test_deg_dict td ->
            (u ∈ us <-> exists x, td !! u = Some x /\ bucket key x)) as Hmem.
  { intros key us u H. destruct (Hd key us H) as [_ ->].
    rewrite nonzero_elem, Tensor.lookup_map. split.
    - destruct (td !! u) as [x|]; [|done]. simpl. intros [= Hb].
      exists x. split; [done|]. by apply bucketb_spec.
    - intros (x & -> & Hb). simpl. f_equal. by apply bucketb_spec. }
  assert (count_users (test_deg_dict td) = length (filter (fun x => 1 <= x) td)) as Htmp.
  { rewrite count_users_sum, test_deg_dict_closed, map_map. cbn [snd].
    erewrite map_ext; [|intros key; apply nonzero_length].
    rewrite buckets_sum. clear. induction td as [|x td IH]; [done|].
    cbn [map sum_list]. rewrite filter_cons, IH.
    change (length (filter (fun key => bucketb key x = true) keys)) with (hits x).
    rewrite hits_spec. destruct (Nat.leb_spec 1 x).
    - rewrite decide_True by done. done.
    - rewrite decide_False by lia. done. }
  exists td, (test_deg_dict td), (count_users (test_deg_dict td)).
  split; [done|]. split; [unfold degree_cell; by rewrite Htd|].
  split; [done|]. split; [by rewrite test_deg_dict_closed, map_map, map_id|].
  split; [exact Hmem|]. split.
  { intros key key' us us' u H H' Hu Hu'.
    apply (Hmem key us u H) in Hu. apply (Hmem key' us' u H') in Hu'.
    destruct Hu as (x & Hx & Hb). destruct Hu' as (x' & Hx' & Hb').
    assert (x' = x) as -> by congruence.
    destruct (Hd key us H) as [Hk _]. destruct (Hd key' us' H') as [Hk' _].
    unfold keys in Hk, Hk'. unfold bucket in Hb, Hb'.
    repeat (apply elem_of_cons in Hk; destruct Hk as [->|Hk]);
      [..|by apply elem_of_nil in Hk];
      (repeat (apply elem_of_cons in Hk'; destruct Hk' as [->|Hk']);
       [..|by apply elem_of_nil in Hk']); simpl in Hb, Hb'; lia. }
  rewrite Htmp. split; [done|].
  pose proof (length_filter (fun x => 1 <= x) td) as Hf. split; [lia|].
  rewrite <- Hl. clear. induction td as [|x td IH]; [split; [constructor|done]|].
  rewrite filter_cons. pose proof (length_filter (fun x => 1 <= x) td) as Hf.
  destruct (decide (1 <= x)); cbn [length]; rewrite Forall_cons.
  - split; [intros H; split; [done|apply IH; lia]|intros [_ H]; f_equal; by apply IH].
  - split; [lia|intros [? _]; lia].
Qed.

End Popularity.

(** * Coverage of recommendations (part_000) *)

Module Coverage.

(** [strs[0::2]]: the tokens at even positions. *)
Fixpoint evens {A} (l : list A) : list A :=
  match l with
  | [] => []
  | x :: rest => x :: match rest with
                      | [] => []
                      | _ :: rest' => evens rest'
                      end
  end.

(** One iteration of the loop over the lines in [load_txt_csr]; the state
    is [(row, col, row_id)]. *)
Definition read_row (st : list nat * list Z * nat) (line : string)
    : option (list nat * list Z * nat) :=
  let '(row, col, row_id) := st in
  col_idx ← mapM TopK.int (evens (TopK.split line));
  Some (row ++ repeat row_id (length col_idx), col ++ col_idx, S row_id).

Definition read_rows (lines : list string) (st : list nat * list Z * nat)
    : option (list nat * list Z * nat) :=
  fold_left (fun st line => st ← st; read_row st line) lines (Some st).

(** [np.array(l, dtype=np.int64)]: an integer outside the range of [int64]
    raises [OverflowError]. *)
Definition int64_array (l : list Z) : option (list Z) :=
  mapM (fun c => if ((- 2 ^ 63 <=? c) && (c <? 2 ^ 63))%Z then Some c else None) l.

Section Loader.
(** Whether this version of SciPy converts the shape it infers to [int64],
    as recent versions do. *)
Variable shape_int64 : bool.

(** [spsp.coo_matrix((np.ones(len(row)), (row, col)))]: no shape is given,
    so empty index arrays raise, and so does a negative index; the number
    of columns is inferred as the largest index plus one, which at the
    index [2^63 - 1] does not fit [int64]. *)
Definition coo_matrix (row : list nat) (col : list Z) : option (list (nat * nat)) :=
  if decide (row = []) then None
  else
    col' ← mapM (fun c => if ((c <? 0) || (shape_int64 && (2 ^ 63 <=? c + 1)))%Z
                          then None else Some (Z.to_nat c)) col;
    Some (zip row col').

(** [load_txt_csr(file_name)] on the lines of the file.  The row ids are
    line numbers, which fit [int64] on every file. *)
Definition load_txt_csr (lines : list string) : option (list (nat * nat)) :=
  '(row, col, _) ← read_rows lines ([], [], 0);
  col ← int64_array col;
  coo_matrix row col.

(** The first column index that is rejected. *)
Definition index_limit : Z := if shape_int64 then (2 ^ 63 - 1)%Z else (2 ^ 63)%Z.
End Loader.

(** The index [2^63] does not fit the index array; the index [2^63 - 1]
    does, and is rejected where the inferred shape has to fit as well; a
    negative index and a file without an index are rejected by
    [coo_matrix]. *)
Example load_txt_csr_rejects :
  load_txt_csr false ["9223372036854775808 1"] = None /\
  load_txt_csr true ["9223372036854775807 1"] = None /\
  load_txt_csr false ["-1 1"] = None /\
  load_txt_csr false [""] = None /\
  load_txt_csr false ["3 1.0 5 2.0"; ""; "1_0 1"] = Some [(0, 3); (0, 5); (2, 10)].
Proof. vm_compute. done. Qed.

(** The line feed that ends a line read from a file. *)
Definition eol : string := String (ascii_of_nat 10) "".

Lemma split_aux_space (c : ascii) (s : string) : forall cur,
  TopK.is_space c = true ->
  TopK.split_aux (s +:+ String c "") cur = TopK.split_aux s cur.
Proof.
  induction s as [|a s IH]; intros cur Hc.
  - rewrite TopK.app_empty_l. cbn [TopK.split_aux]. rewrite Hc.
    by destruct (decide (cur = "")).
  - rewrite TopK.app_cons. cbn [TopK.split_aux].
    destruct (TopK.is_space a); [destruct (decide (cur = ""))|]; by rewrite IH.
Qed.

Lemma split_line (toks : list string) :
  Forall TopK.token toks -> TopK.split (TopK.join toks +:+ eol) = toks.
Proof.
  intros H. unfold TopK.split, eol. rewrite split_aux_space by done.
  by apply TopK.split_join.
Qed.

Lemma read_rows_None (lines : list string) :
  fold_left (fun st line => st ← st; read_row st line) lines None = None.
Proof. induction lines as [|line lines IH]; [done|]. exact IH. Qed.

(** The loop in closed form: the column indices line by line, each line's
    row id repeated once per index. *)
Lemma read_rows_closed (lines : list string) : forall row col row_id,
  read_rows lines (row, col, row_id) =
  (cols ← mapM (fun line => mapM TopK.int (evens (TopK.split line))) lines;
   Some (row ++ concat (imap (fun i cs => repeat (row_id + i) (length cs)) cols),
         col ++ concat cols, row_id + length lines)).
Proof.
  unfold read_rows. induction lines as [|line lines IH]; intros row col row_id.
  - cbn. by rewrite !app_nil_r, Nat.add_0_r.
  - cbn [fold_left mapM mbind option_bind read_row].
    destruct (mapM TopK.int (evens (TopK.split line))) as [col_idx|]; cbn [mbind option_bind].
    + rewrite IH. 
      destruct (mapM (fun line => mapM TopK.int (evens (TopK.split line))) lines)
        as [cols|]; cbn [mbind option_bind mret option_ret]; [|done].
      rewrite imap_cons. cbn [concat length]. rewrite <- !(assoc_L (++)), Nat.add_0_r.
      assert (imap (fun i cs => repeat (S row_id + i) (length cs)) cols
              = imap ((fun i (cs : list Z) => repeat (row_id + i) (length cs)) ∘ S) cols) as ->.
      { apply imap_ext. intros i cs _. unfold compose. f_equal. lia. }
      by rewrite Nat.add_succ_r.
    + apply read_rows_None.
Qed.

Lemma zip_rows (cols : list (list nat)) : forall start,
  zip (concat (imap (fun i cs => repeat (start + i) (length cs)) cols)) (concat cols)
  = concat (imap (fun i cs => map (pair (start + i)) cs) cols).
Proof.
  induction cols as [|cs cols IH]; intros start; [done|].
  rewrite !imap_cons. cbn [concat]. rewrite Nat.add_0_r.
  rewrite zip_with_app by (by rewrite repeat_length).
  f_equal.
  - clear. induction cs as [|c cs IH]; [done|]. cbn. by rewrite <- IH.
  - specialize (IH (S start)).
    erewrite (imap_ext _ (fun i cs => repeat (S start + i) (length cs))) by
      (intros i x _; unfold compose; f_equal; lia).
    erewrite (imap_ext (_ ∘ S) (fun i cs => map (pair (S start + i)) cs)) by
      (intros i x _; unfold compose; f_equal; f_equal; lia).
    exact IH.
Qed.

Lemma length_rows {A} (cols : list (list A)) : forall start,
  length (concat (imap (fun i cs => repeat (start + i) (length cs)) cols))
  = length (concat cols).
Proof.
  induction cols as [|cs cols IH]; intros start; [done|].
  rewrite imap_cons. cbn [concat]. rewrite !length_app, repeat_length.
  f_equal. rewrite <- (IH (S start)). f_equal. f_equal. apply imap_ext.
  intros i x _. unfold compose. f_equal. lia.
Qed.

Lemma concat_fmap_length (cols : list (list nat)) :
  length (concat (map (map Z.of_nat) cols)) = length (concat cols).
Proof.
  induction cols as [|cs cols IH]; [done|].
  cbn [map concat]. by rewrite !length_app, length_map, IH.
Qed.

Lemma int64_array_Some (l l' : list Z) :
  int64_array l = Some l' <->
  l' = l /\ Forall (fun c => (- 2 ^ 63 <= c < 2 ^ 63)%Z) l.
Proof.
  unfold int64_array. rewrite mapM_Some. split.
  - induction 1 as [|c c' l l' Hc _ [-> IH]]; [done|].
    destruct (Z.leb_spec (- 2 ^ 63) c), (Z.ltb_spec c (2 ^ 63)); try done.
    injection Hc as <-. split; [done|]. constructor; [lia|done].
  - intros [-> H]. induction H as [|c l Hc _ IH]; constructor; [|done].
    destruct (Z.leb_spec (- 2 ^ 63) c), (Z.ltb_spec c (2 ^ 63)); try lia. done.
Qed.

Section Indices.
Variable shape_int64 : bool.

Lemma to_nat_cols (col : list Z) (col' : list nat) :
  (col1 ← int64_array col;
   mapM (fun c => if ((c <? 0) || (shape_int64 && (2 ^ 63 <=? c + 1)))%Z
                  then None else Some (Z.to_nat c)) col1) = Some col' <->
  col = map Z.of_nat col' /\
  Forall (fun c => (Z.of_nat c < index_limit shape_int64)%Z) col'.
Proof.
  split.
  - destruct (int64_array col) as [col1|] eqn:E; cbn [mbind option_bind]; [|done].
    apply int64_array_Some in E as [-> Hrange]. rewrite mapM_Some.
    induction 1 as [|c c' col col' Hc _ IH]; [done|].
    apply Forall_cons in Hrange as [Hc0 Hrange]. destruct (IH Hrange) as [-> Hlim].
    destruct (Z.ltb_spec c 0); [done|].
    unfold index_limit. destruct shape_int64; cbn [orb andb] in Hc.
    + destruct (Z.leb_spec (2 ^ 63) (c + 1)); [done|]. injection Hc as <-.
      split; [cbn [map]; f_equal; lia|]. constructor; [lia|done].
    + injection Hc as <-. split; [cbn [map]; f_equal; lia|]. constructor; [lia|done].
  - intros [-> Hlim].
    assert (int64_array (map Z.of_nat col') = Some (map Z.of_nat col')) as ->.
    { apply int64_array_Some. split; [done|]. apply Forall_fmap.
      eapply Forall_impl; [exact Hlim|]. intros c Hc. cbn.
      unfold index_limit in Hc. destruct shape_int64; lia. }
    cbn [mbind option_bind]. rewrite mapM_Some.
    induction Hlim as [|c' col' Hc _ IH]; constructor; [|done].
    destruct (Z.ltb_spec (Z.of_nat c') 0); [lia|].
    unfold index_limit in Hc. destruct shape_int64; cbn [orb andb].
    + destruct (Z.leb_spec (2 ^ 63) (Z.of_nat c' + 1)); [lia|]. by rewrite Nat2Z.id.
    + by rewrite Nat2Z.id.
Qed.

Lemma concat_of_nat (colsZ : list (list Z)) (col' : list nat) :
  concat colsZ = map Z.of_nat col' ->
  exists cols, colsZ = map (map Z.of_nat) cols /\ col' = concat cols.
Proof.
  revert col'. induction colsZ as [|cs colsZ IH]; intros col' H.
  - exists []. destruct col'; [done|discriminate].
  - cbn [concat] in H.
    assert (cs = map Z.of_nat (take (length cs) col') /\
            concat colsZ = map Z.of_nat (drop (length cs) col')) as [Hcs Hrest].
    { assert (length cs <= length col') as Hle.
      { apply (f_equal length) in H. rewrite length_app, length_map in H. lia. }
      rewrite <- (take_drop (length cs) col') in H at 1.
      rewrite map_app in H. apply app_inj_1 in H; [done|].
      rewrite length_map, length_take. lia. }
    destruct (IH _ Hrest) as (cols & -> & Hc).
    exists (take (length cs) col' :: cols). cbn [map concat].
    rewrite <- Hcs. split; [done|]. by rewrite <- Hc, take_drop.
Qed.

(** With a non-empty row array, the two conversions of the column indices
    are all that [coo_matrix] after [int64_array] can fail on. *)
Lemma coo_matrix_cols (row : list nat) (col : list Z) :
  row <> [] ->
  (col1 ← int64_array col; coo_matrix shape_int64 row col1)
  = (col' ← (col1 ← int64_array col;
             mapM (fun c => if ((c <? 0) || (shape_int64 && (2 ^ 63 <=? c + 1)))%Z
                            then None else Some (Z.to_nat c)) col1);
     Some (zip row col')).
Proof.
  intros Hne. destruct (int64_array col) as [col1|]; cbn [mbind option_bind]; [|done].
  unfold coo_matrix. by rewrite decide_False.
Qed.

Lemma coo_matrix_empty (col : list Z) :
  (col1 ← int64_array col; coo_matrix shape_int64 [] col1) = None.
Proof. by destruct (int64_array col). Qed.

Lemma load_txt_csr_shape (lines : list string) (m : list (nat * nat)) :
  load_txt_csr shape_int64 lines = Some m ->
  exists cols : list (list nat),
    Forall2 (fun line cs =>
               mapM TopK.int (evens (TopK.split line)) = Some (map Z.of_nat cs)) lines cols /\
    Forall (Forall (fun c => (Z.of_nat c < index_limit shape_int64)%Z)) cols /\
    concat cols <> [] /\
    m = concat (imap (fun i cs => map (pair i) cs) cols).
Proof.
  unfold load_txt_csr. rewrite read_rows_closed. cbn [app Nat.add].
  destruct (mapM (fun line => mapM TopK.int (evens (TopK.split line))) lines)
    as [colsZ|] eqn:E; cbn [mbind option_bind]; [|done].
  destruct (decide (concat (imap (fun i (cs : list Z) => repeat i (length cs)) colsZ) = []))
    as [Hnil|Hne]; [by rewrite Hnil, coo_matrix_empty|].
  rewrite coo_matrix_cols by done.
  destruct (col1 ← int64_array (concat colsZ); mapM _ col1) as [col'|] eqn:E';
    cbn [mbind option_bind]; [|done].
  intros [= <-]. apply to_nat_cols in E' as [E' Hlim].
  destruct (concat_of_nat _ _ E') as (cols & -> & ->).
  exists cols. split; [|split; [|split]].
  + apply mapM_Some_1 in E. apply Forall2_fmap_r in E. exact E.
  + clear -Hlim. induction cols as [|cs cols IH]; [constructor|].
    cbn [concat] in Hlim. apply Forall_app in Hlim as [Hcs Hrest].
    constructor; [done|by apply IH].
  + intros Hnil. apply Hne. apply nil_length_inv.
    rewrite (length_rows _ 0), concat_fmap_length. by rewrite Hnil.
  + pose proof (zip_rows cols 0) as Hz. cbn [Nat.add] in Hz. rewrite <- Hz. f_equal.
    f_equal. rewrite imap_fmap. apply imap_ext. intros i cs _. unfold compose.
    by rewrite length_map.
Qed.

Lemma rows_sorted (cols : list (list nat)) : forall start,
  Forall (fun e => start <= e.1 < start + length cols)
         (concat (imap (fun i cs => map (pair (start + i)) cs) cols)) /\
  forall i j e e', i <= j ->
    concat (imap (fun i cs => map (pair (start + i)) cs) cols) !! i = Some e ->
    concat (imap (fun i cs => map (pair (start + i)) cs) cols) !! j = Some e' ->
    e.1 <= e'.1.
Proof.
  induction cols as [|cs cols IH]; intros start.
  - split; [constructor|]. intros i j e e' _ H. simpl in H. by rewrite lookup_nil in H.
  - rewrite imap_cons. cbn [concat length].
    assert (imap ((fun i (cs : list nat) => map (pair (start + i)) cs) ∘ S) cols
            = imap (fun i cs => map (pair (S start + i)) cs) cols) as ->.
    { apply imap_ext. intros i x _. unfold compose. f_equal. f_equal. lia. }
    destruct (IH (S start)) as [IHb IHs]. rewrite Nat.add_0_r.
    assert (Forall (fun e : nat * nat => e.1 = start) (map (pair start) cs)) as Hhead.
    { apply Forall_forall. intros e He. apply list_elem_of_fmap in He.
      by destruct He as (c & -> & _). }
    split.
    + apply Forall_app. split.
      * eapply Forall_impl; [exact Hhead|]. intros e ->. lia.
      * eapply Forall_impl; [exact IHb|]. intros e ?. simpl in *. lia.
    + intros i j e e' Hij Hi Hj.
      rewrite Forall_forall in Hhead. rewrite Forall_forall in IHb.
      apply lookup_app_Some in Hi. apply lookup_app_Some in Hj.
      destruct Hi as [Hi|[Hli Hi]], Hj as [Hj|[Hlj Hj]].
      * apply list_elem_of_lookup_2 in Hi. apply list_elem_of_lookup_2 in Hj.
        rewrite (Hhead e Hi), (Hhead e' Hj). done.
      * apply list_elem_of_lookup_2 in Hi. apply list_elem_of_lookup_2 in Hj.
        rewrite (Hhead e Hi). specialize (IHb e' Hj). simpl in IHb. lia.
      * apply lookup_lt_Some in Hj. lia.
      * eapply IHs; [|exact Hi|exact Hj]. lia.
Qed.

(** X8: [load_txt_csr] returns exactly on the files whose tokens at even
    positions all read as non-negative integers below the first index that
    the index arrays reject ([2^63], or [2^63 - 1] where SciPy converts the
    inferred shape to [int64]) and that hold at least one such token; the
    matrix then stores, line after line, one entry per index with the
    number of the line as its row. *)
Theorem load_txt_csr_entries (lines : list string) (m : list (nat * nat)) :
  load_txt_csr shape_int64 lines = Some m <->
  exists cols : list (list nat),
    Forall2 (fun line cs =>
               mapM TopK.int (evens (TopK.split line)) = Some (map Z.of_nat cs)) lines cols /\
    Forall (Forall (fun c => (Z.of_nat c < index_limit shape_int64)%Z)) cols /\
    concat cols <> [] /\
    m = concat (imap (fun i cs => map (pair i) cs) cols).
Proof.
  split; [apply load_txt_csr_shape|].
  unfold load_txt_csr. rewrite read_rows_closed. cbn [app Nat.add].
  intros (cols & Hall & Hlim & Hne & ->).
  assert (mapM (fun line => mapM TopK.int (evens (TopK.split line))) lines
          = Some (map (map Z.of_nat) cols)) as ->.
  { apply mapM_Some_2. by apply Forall2_fmap_r. }
  cbn [mbind option_bind].
  assert (concat (imap (fun i cs => repeat i (length cs)) (map (map Z.of_nat) cols))
          = concat (imap (fun i cs => repeat i (length cs)) cols)) as ->.
  { f_equal. rewrite imap_fmap. apply imap_ext. intros i cs _. unfold compose.
    by rewrite length_map. }
  rewrite coo_matrix_cols.
  + assert ((col1 ← int64_array (concat (map (map Z.of_nat) cols));
             mapM (fun c => if ((c <? 0) || (shape_int64 && (2 ^ 63 <=? c + 1)))%Z
                            then None else Some (Z.to_nat c)) col1)
            = Some (concat cols)) as ->.
    { apply to_nat_cols. split.
      - clear. induction cols as [|cs cols IH]; [done|].
        cbn [map concat]. by rewrite map_app, IH.
      - clear -Hlim. induction Hlim as [|cs cols Hcs _ IH]; [constructor|].
        cbn [concat]. apply Forall_app. by split. }
    cbn [mbind option_bind]. f_equal. apply (zip_rows cols 0).
  + intros Hnil. apply Hne. apply nil_length_inv.
    pose proof (length_rows cols 0) as Hl. cbn [Nat.add] in Hl.
    by rewrite <- Hl, Hnil.
Qed.


(** X9: the matrix that [load_txt_csr] returns is not empty and is stored
    in row-major order: along the stored entries the row never decreases,
    and every row is the number of a line of the file. *)
Theorem load_txt_csr_row_order (lines : list string) (m : list (nat * nat)) :
  load_txt_csr shape_int64 lines = Some m ->
  m <> [] /\
  Forall (fun e => e.1 < length lines) m /\
  forall i j e e', i <= j -> m !! i = Some e -> m !! j = Some e' -> e.1 <= e'.1.
Proof.
  intros H. destruct (load_txt_csr_shape _ _ H) as (cols & Hall & _ & Hne & ->).
  destruct (rows_sorted cols 0) as [Hb Hs]. cbn [Nat.add] in Hb, Hs.
  apply Forall2_length in Hall. split; [|split].
  - intros Hnil. apply Hne. apply nil_length_inv.
    apply (f_equal length) in Hnil. cbn [length] in Hnil. rewrite <- Hnil. clear.
    generalize (@pair nat nat). intros f.
    revert f. induction cols as [|cs cols IH]; intros f; [done|].
    rewrite imap_cons. cbn [concat]. rewrite !length_app, length_map. f_equal.
    apply (IH (f ∘ S)).
  - rewrite Hall. eapply Forall_impl; [exact Hb|]. intros e ?. simpl in *. lia.
  - exact Hs.
Qed.
End Indices.

(** [np.sum(m, axis=0)] of a matrix of [n] columns, given by its rows. *)
Definition col_sums (n : nat) (rows : list (list nat)) : list nat :=
  fold_left (zip_with Nat.add) rows (repeat 0 n).

(** [np.squeeze(np.array(np.sum(m, axis=0) > 0))]. *)
Definition used (n : nat) (rows : list (list nat)) : list bool :=
  map (fun s => 0 <? s) (col_sums n rows).

(** [coverage(ctx, targets)]; the quotient of two counts, [None] when it is
    [0 / 0], which NumPy renders as NaN. *)
Definition coverage (n : nat) (ctx targets : list (list nat)) : option Q :=
  let u_ctx := used n ctx in
  let u_target := used n targets in
  let num := Tensor.count_true (zip_with andb u_ctx u_target) in
  let den := Tensor.count_true u_ctx in
  if den =? 0 then None else Some (Z.of_nat num # Pos.of_nat den).

(** Some selected row has an entry in column [j]. *)
Definition col_used (rows : list (list nat)) (j : nat) : Prop :=
  exists r v, r ∈ rows /\ r !! j = Some v /\ 0 < v.

Lemma fold_sums (n : nat) (rows : list (list nat)) : forall acc,
  length acc = n -> Forall (fun r => length r = n) rows ->
  length (fold_left (zip_with Nat.add) rows acc) = n /\
  forall j s, fold_left (zip_with Nat.add) rows acc !! j = Some s ->
    (0 < s <-> (exists a, acc !! j = Some a /\ 0 < a) \/ col_used rows j).
Proof.
  induction rows as [|r rows IH]; intros acc Hacc Hrows.
  - split; [done|]. intros j s Hs. cbn [fold_left] in Hs. split.
    + intros H. left. eauto.
    + intros [(a & Ha & Hpos)|(r & v & Hr & _)]; [congruence|by apply elem_of_nil in Hr].
  - apply Forall_cons in Hrows. destruct Hrows as [Hr Hrows]. cbn [fold_left].
    destruct (IH (zip_with Nat.add acc r)) as [IHl IHs]; [|done|].
    { rewrite length_zip_with. lia. }
    split; [done|]. intros j s Hs. rewrite (IHs j s Hs). split.
    + intros [(a & Ha & Hpos)|(r' & v & Hr' & Hv & Hpos)].
      * apply lookup_zip_with_Some in Ha. destruct Ha as (x & y & -> & Hx & Hy).
        destruct (decide (0 < x)); [left; eauto|].
        right. exists r, y. split; [by left|]. split; [done|lia].
      * right. exists r', v. split; [by right|done].
    + intros [(a & Ha & Hpos)|(r' & v & Hr' & Hv & Hpos)].
      * left. destruct (lookup_lt_is_Some_2 r j) as [y Hy].
        { apply lookup_lt_Some in Ha. lia. }
        exists (a + y). split; [|lia]. apply lookup_zip_with_Some. eauto.
      * apply elem_of_cons in Hr'. destruct Hr' as [->|Hr'].
        -- left. destruct (lookup_lt_is_Some_2 acc j) as [a Ha].
           { apply lookup_lt_Some in Hv. lia. }
           exists (a + v). split; [|lia]. apply lookup_zip_with_Some. eauto.
        -- right. exists r', v. done.
Qed.

Lemma used_spec (n : nat) (rows : list (list nat)) :
  Forall (fun r => length r = n) rows ->
  length (used n rows) = n /\
  forall j, used n rows !! j = Some true <-> j < n /\ col_used rows j.
Proof.
  intros Hrows. unfold used, col_sums.
  destruct (fold_sums n rows (repeat 0 n)) as [Hl Hs]; [apply repeat_length|done|].
  rewrite length_map. split; [done|]. intros j. rewrite Tensor.lookup_map. split.
  - destruct (fold_left (zip_with Nat.add) rows (repeat 0 n) !! j) as [s|] eqn:E; [|done].
    simpl. intros [= Hpos]. apply Nat.ltb_lt in Hpos.
    split; [apply lookup_lt_Some in E; lia|].
    apply (Hs j s E) in Hpos. destruct Hpos as [(a & Ha & Hpos)|]; [|done].
    apply list_elem_of_lookup_2, list_elem_of_In, repeat_spec in Ha. lia.
  - intros [Hj Hu].
    destruct (lookup_lt_is_Some_2 (fold_left (zip_with Nat.add) rows (repeat 0 n)) j)
      as [s E]; [lia|].
    rewrite E. simpl. f_equal. apply Nat.ltb_lt. apply (Hs j s E). by right.
Qed.

Lemma count_and (a b : list bool) :
  length a = length b ->
  Tensor.count_true (zip_with andb a b) <= Tensor.count_true a /\
  (Tensor.count_true (zip_with andb a b) = Tensor.count_true a <->
   forall j, a !! j = Some true -> b !! j = Some true) /\
  (Tensor.count_true (zip_with andb a b) = 0 <->
   forall j, a !! j = Some true -> b !! j <> Some true).
Proof.
  revert b. induction a as [|x a IH]; intros [|y b] Hl; try discriminate.
  - split; [done|]. split; (split; [|done]); intros _ j H; by rewrite lookup_nil in H.
  - injection Hl as Hl. destruct (IH b Hl) as (IHle & IHeq & IH0).
    cbn [zip_with Tensor.count_true]. split; [destruct x, y; simpl; lia|]. split.
    + split.
      * intros H [|j]; cbn.
        -- intros [= ->]. destruct y; [done|]. simpl in H. lia.
        -- apply IHeq. destruct x, y; simpl in H; lia.
      * intros H. pose proof (H 0) as H0. cbn in H0.
        assert (Tensor.count_true (zip_with andb a b) = Tensor.count_true a) as ->.
        { apply IHeq. intros j. apply (H (S j)). }
        destruct x; [|done]. by injection (H0 eq_refl) as ->.
    + split.
      * intros H [|j]; cbn.
        -- intros [= ->] [= ->]. simpl in H. lia.
        -- apply IH0. lia.
      * intros H. pose proof (H 0) as H0. cbn in H0.
        assert (Tensor.count_true (zip_with andb a b) = 0) as ->.
        { apply IH0. intros j. apply (H (S j)). }
        destruct x, y; simpl; try done. by destruct (H0 eq_refl).
Qed.

Lemma count_true_pos (a : list bool) :
  Tensor.count_true a = 0 <-> forall j, a !! j <> Some true.
Proof.
  induction a as [|x a IH].
  - split; [|done]. intros _ j. by rewrite lookup_nil.
  - cbn [Tensor.count_true]. split.
    + intros H [|j]; cbn; [destruct x; [simpl in H; lia|done]|].
      apply IH. lia.
    + intros H. pose proof (H 0) as H0. cbn in H0.
      destruct x; [done|]. simpl. apply IH. intros j. apply (H (S j)).
Qed.

(** X10: on two selections of rows of the same matrix, [coverage] is NaN
    exactly when the context rows have no entry at all; otherwise it is a
    number between 0 and 1, it is 1 exactly when every column with an entry
    in a context row has one in a target row, and 0 exactly when no column
    has both. *)
Theorem coverage_range (n : nat) (ctx targets : list (list nat)) :
  Forall (fun r => length r = n) ctx ->
  Forall (fun r => length r = n) targets ->
  (coverage n ctx targets = None <-> forall j, ~ col_used ctx j) /\
  forall q, coverage n ctx targets = Some q ->
    (0 <= q)%Q /\ (q <= 1)%Q /\
    ((q == 1)%Q <-> forall j, col_used ctx j -> col_used targets j) /\
    ((q == 0)%Q <-> forall j, col_used ctx j -> ~ col_used targets j).
Proof.
  intros Hctx Htargets.
  destruct (used_spec n ctx Hctx) as [Hlc Hc].
  destruct (used_spec n targets Htargets) as [Hlt Ht].
  destruct (count_and (used n ctx) (used n targets) ltac:(lia)) as (Hle & Heq & H0).
  pose proof (count_true_pos (used n ctx)) as Hpos.
  assert (forall j, col_used ctx j -> j < n) as Hin.
  { intros j (r & v & Hr & Hv & _). rewrite Forall_forall in Hctx.
    apply lookup_lt_Some in Hv. by rewrite (Hctx r Hr) in Hv. }
  unfold coverage.
  set (num := Tensor.count_true (zip_with andb (used n ctx) (used n targets))) in *.
  set (den := Tensor.count_true (used n ctx)) in *.
  destruct (Nat.eqb_spec den 0) as [Hden|Hden].
  - split; [|done]. split; [|done]. intros _ j Hu.
    apply (proj1 Hpos Hden j). apply Hc. split; [by apply Hin|done].
  - split.
    { split; [done|]. intros Hnone. exfalso. apply Hden. apply Hpos.
      intros j Hj. apply Hc in Hj. destruct Hj as [_ Hu]. by apply (Hnone j). }
    intros q [= <-].
    assert (Z.pos (Pos.of_nat den) = Z.of_nat den) as Hz.
    { clearbody den. destruct den as [|d]; [done|].
      rewrite <- Pos.of_nat_succ, Zpos_P_of_succ_nat. lia. }
    unfold Qle, Qeq. cbn [Qnum Qden]. rewrite Hz.
    split; [lia|]. split; [lia|]. split.
    + split.
      * intros H j Hu. apply Ht. apply Heq; [lia|]. apply Hc. split; [by apply Hin|done].
      * intros H. assert (num = den) as ->; [|lia]. apply Heq.
        intros j Hj. apply Hc in Hj. destruct Hj as [Hj Hu]. apply Ht. split; [done|by apply H].
    + split.
      * intros H j Hu Hu'. apply (proj1 H0 ltac:(lia) j).
        -- apply Hc. split; [by apply Hin|done].
        -- apply Ht. split; [by apply Hin|done].
      * intros H. assert (num = 0) as ->; [|lia]. apply H0.
        intros j Hj Hj'. apply Hc in Hj. apply Ht in Hj'.
        destruct Hj as [_ Hu]. destruct Hj' as [_ Hu']. by apply (H j).
Qed.

End Coverage.

(** * The data split on a well-formed matrix (process_movielens.ipynb) *)

Module Split.

(** The stored entries are in row-major order. *)
Definition sorted_rows (m : list (nat * nat)) : Prop :=
  forall i j e e', i <= j -> m !! i = Some e -> m !! j = Some e' -> e.1 <= e'.1.

(** The same as a check on neighbouring entries. *)
Definition sorted_rowsb (m : list (nat * nat)) : bool :=
  forallb (fun p : nat * nat => p.1 <=? p.2) (zip (map fst m) (drop 1 (map fst m))).

(** The state of the loop of [pick_test] after the first [i] users:
    [pos] lists the two positions picked for each of them. *)
Definition picked (m : list (nat * nat)) (i : nat)
    (st : list nat * list nat * list bool) (pos : list (nat * nat)) : Prop :=
  length st.1.1 = Movielens.shape0 m /\
  length st.1.2 = Movielens.shape0 m /\
  length st.2 = length m /\
  length pos = i /\
  (forall u pv pt, pos !! u = Some (pv, pt) ->
     pv <> pt /\
     exists v t, m !! pv = Some (u, v) /\ m !! pt = Some (u, t) /\
                 st.1.1 !! u = Some v /\ st.1.2 !! u = Some t) /\
  (forall p, st.2 !! p = Some true <->
             exists u pv pt, pos !! u = Some (pv, pt) /\ (p = pv \/ p = pt)) /\
  (forall p, st.2 !! p = Some true -> p < Movielens.indptr m i) /\
  Tensor.count_true st.2 = 2 * i.

Lemma indptr_S (m : list (nat * nat)) (i : nat) :
  Movielens.indptr m (S i) = Movielens.indptr m i + length (Movielens.csr_row m i).
Proof.
  unfold Movielens.indptr. rewrite seq_S, map_app, sum_list_with_app. simpl. lia.
Qed.

Lemma fold_pick_None (m : list (nat * nat)) (rng : nat -> nat * nat) (us : list nat) :
  fold_left (Movielens.pick_step m rng) us None = None.
Proof. induction us as [|u us IH]; [done|]. exact IH. Qed.

(** X11: a user with fewer than two stored movies makes [pick_test] raise,
    whatever the random choices; in particular a user id that is skipped
    in the data does. *)
Theorem pick_test_needs_two (m : list (nat * nat)) (rng : nat -> nat * nat) (u : nat) :
  u < Movielens.shape0 m ->
  length (Movielens.csr_row m u) < 2 ->
  Movielens.pick_test m rng = None.
Proof.
  intros Hu Hrow. unfold Movielens.pick_test.
  replace (Movielens.shape0 m) with (u + S (Movielens.shape0 m - S u)) at 1 by lia.
  rewrite seq_app, fold_left_app. cbn [seq fold_left Nat.add].
  set (st := fold_left _ (seq 0 u) _).
  assert (Movielens.pick_step m rng st u = None) as ->.
  { unfold Movielens.pick_step. destruct st as [[[valid_set test_set] picks]|]; [|done].
    cbn [mbind option_bind]. unfold Movielens.choice2. rewrite indptr_S.
    replace (Movielens.indptr m u + length (Movielens.csr_row m u) - Movielens.indptr m u)
      with (length (Movielens.csr_row m u)) by lia.
    apply Nat.ltb_lt in Hrow. by rewrite Hrow. }
  by rewrite fold_pick_None.
Qed.

Lemma remove_dups_NoDup (l : list nat) : NoDup l -> remove_dups l = l.
Proof.
  induction 1 as [|x l Hx _ IH]; [done|]. cbn [remove_dups].
  destruct (decide_rel elem_of x l) as [Hin|_]; [done|by rewrite IH].
Qed.

Lemma csr_row_NoDup (m : list (nat * nat)) (u : nat) :
  NoDup m -> Movielens.csr_row m u = Movielens.movies_of m u.
Proof.
  intros Hm. unfold Movielens.csr_row, Movielens.movies_of. apply remove_dups_NoDup.
  apply NoDup_fmap_2_strong; [|by apply NoDup_filter].
  intros [a b] [a' b'] H H' E. apply list_elem_of_filter in H. apply list_elem_of_filter in H'.
  simpl in *. destruct H as [-> _], H' as [-> _]. by rewrite E.
Qed.

Lemma filter_lt_S (m : list (nat * nat)) (i : nat) :
  length (filter (fun e : nat * nat => e.1 < S i) m)
  = length (filter (fun e : nat * nat => e.1 < i) m)
    + length (filter (fun e : nat * nat => e.1 = i) m).
Proof.
  induction m as [|e m IH]; [done|]. rewrite !filter_cons.
  destruct (decide (e.1 < S i)), (decide (e.1 < i)), (decide (e.1 = i));
    cbn [length]; lia.
Qed.

Lemma indptr_count (m : list (nat * nat)) (i : nat) :
  NoDup m -> Movielens.indptr m i = length (filter (fun e : nat * nat => e.1 < i) m).
Proof.
  intros Hm. induction i as [|i IH].
  - change (Movielens.indptr m 0) with 0. clear.
    induction m as [|e m IHm]; [done|]. rewrite filter_cons.
    rewrite decide_False by lia. done.
  - rewrite indptr_S, IH, filter_lt_S, csr_row_NoDup by done.
    unfold Movielens.movies_of. by rewrite length_map.
Qed.

Lemma sorted_tail (e : nat * nat) (m : list (nat * nat)) :
  sorted_rows (e :: m) -> sorted_rows m /\ Forall (fun e' => e.1 <= e'.1) m.
Proof.
  intros H. split.
  - intros i j a b Hij Hi Hj. apply (H (S i) (S j)); [lia|done..].
  - apply Forall_forall. intros e' He'. apply list_elem_of_lookup in He'.
    destruct He' as [j Hj]. apply (H 0 (S j)); [lia|done..].
Qed.

Lemma sorted_rowsb_spec (m : list (nat * nat)) : sorted_rowsb m = true -> sorted_rows m.
Proof.
  unfold sorted_rowsb. induction m as [|e m IH]; intros Hb i j a b Hij Hi Hj.
  - by rewrite lookup_nil in Hi.
  - assert (sorted_rows m /\ Forall (fun e' : nat * nat => e.1 <= e'.1) m) as [Hs Hall].
    { destruct m as [|e1 m]; [split; [|constructor]; intros ? ? ? ? _ H; by rewrite lookup_nil in H|].
      cbn [map fst drop zip zip_with forallb] in Hb. cbn [map fst drop] in IH.
      apply andb_true_iff in Hb. destruct Hb as [Hle Hb]. apply Nat.leb_le in Hle.
      cbn [fst snd] in Hle. specialize (IH Hb). split; [exact IH|].
      apply Forall_forall. intros e' He'. apply list_elem_of_lookup in He'.
      destruct He' as [k Hk]. specialize (IH 0 k e1 e' ltac:(lia) eq_refl Hk). lia. }
    destruct i as [|i], j as [|j]; cbn in Hi, Hj.
    + injection Hi as <-. by injection Hj as <-.
    + injection Hi as <-. rewrite Forall_forall in Hall. apply Hall.
      by eapply list_elem_of_lookup_2.
    + lia.
    + apply (Hs i j); [lia|done..].
Qed.

Lemma sorted_split (m : list (nat * nat)) (i : nat) :
  sorted_rows m ->
  m = filter (fun e : nat * nat => e.1 < i) m ++ filter (fun e : nat * nat => i <= e.1) m.
Proof.
  induction m as [|e m IH]; intros Hs; [done|].
  destruct (sorted_tail e m Hs) as [Hs' Hall]. rewrite !filter_cons.
  destruct (decide (e.1 < i)) as [Hlt|Hge].
  - rewrite decide_False by lia. cbn [app]. f_equal. by apply IH.
  - rewrite decide_True by lia.
    assert (filter (fun e : nat * nat => e.1 < i) m = []) as ->.
    { clear -Hall Hge. induction Hall as [|e' m He' _ IHm]; [done|].
      rewrite filter_cons, decide_False by lia. done. }
    assert (filter (fun e : nat * nat => i <= e.1) m = m) as ->; [|done].
    clear -Hall Hge. induction Hall as [|e' m He' _ IHm]; [done|].
    rewrite filter_cons, decide_True by lia. by rewrite IHm.
Qed.

(** On a sorted matrix without duplicates the positions between
    [indptr[i]] and [indptr[i+1]] hold the entries of row [i]. *)
Lemma segment_row (m : list (nat * nat)) (i p : nat) :
  sorted_rows m -> NoDup m ->
  Movielens.indptr m i <= p < Movielens.indptr m (S i) ->
  exists c, m !! p = Some (i, c).
Proof.
  intros Hs Hm [Hlo Hhi]. rewrite !indptr_count in * by done.
  pose proof (sorted_split m (S i) Hs) as Hup.
  pose proof (sorted_split m i Hs) as Hdown.
  assert (exists e, m !! p = Some e) as [[r c] He].
  { apply lookup_lt_is_Some_2.
    pose proof (length_filter (fun e : nat * nat => e.1 < S i) m). lia. }
  assert (r < S i) as Hr1.
  { rewrite Hup in He. rewrite lookup_app_l in He by done.
    apply list_elem_of_lookup_2, list_elem_of_filter in He. by destruct He. }
  assert (i <= r) as Hr2.
  { rewrite Hdown in He. rewrite lookup_app_r in He by done.
    apply list_elem_of_lookup_2, list_elem_of_filter in He. by destruct He. }
  exists c. rewrite He. do 2 f_equal. lia.
Qed.

Lemma choice2_spec (raw : nat * nat) (start stop : nat) :
  2 <= stop - start ->
  exists a b, Movielens.choice2 raw start stop = Some (a, b) /\
              start <= a < stop /\ start <= b < stop /\ a <> b.
Proof.
  intros H. unfold Movielens.choice2. cbv zeta.
  destruct (Nat.ltb_spec (stop - start) 2); [lia|].
  pose proof (Nat.mod_upper_bound raw.1 (stop - start) ltac:(lia)).
  pose proof (Nat.mod_upper_bound raw.2 (stop - start - 1) ltac:(lia)).
  eexists _, _. split; [reflexivity|].
  destruct (Nat.ltb_spec (raw.2 mod (stop - start - 1)) (raw.1 mod (stop - start))); lia.
Qed.

Lemma count_true_insert (l : list bool) : forall p,
  l !! p = Some false -> Tensor.count_true (<[p:=true]> l) = S (Tensor.count_true l).
Proof.
  induction l as [|b l IH]; intros [|p] H; simpl in *; try done.
  - by injection H as ->.
  - rewrite IH by done. lia.
Qed.

Lemma repeat_false (n : nat) :
  Tensor.count_true (repeat false n) = 0 /\ forall p, repeat false n !! p <> Some true.
Proof.
  induction n as [|n [IHc IHl]]; [split; [done|by intros p; cbn; rewrite lookup_nil]|].
  split; [exact IHc|]. intros [|p]; [done|apply IHl].
Qed.

Lemma lookup_picks (picks : list bool) (pv pt p : nat) :
  pv < length picks -> pt < length picks ->
  <[pt:=true]> (<[pv:=true]> picks) !! p = Some true <->
  p = pv \/ p = pt \/ picks !! p = Some true.
Proof.
  intros Hpv Hpt. rewrite !list_lookup_insert, length_insert.
  destruct (decide (pt = p /\ pt < length picks)) as [[-> _]|Hn].
  - split; [by right; left|done].
  - destruct (decide (pv = p /\ pv < length picks)) as [[-> _]|Hn'].
    + split; [by left|done].
    + split; [by right; right|]. intros [->|[->|H]]; [|tauto|done].
      by destruct Hn'.
Qed.

Lemma pick_step_picked (m : list (nat * nat)) (rng : nat -> nat * nat) (i : nat)
    (st : list nat * list nat * list bool) (pos : list (nat * nat)) :
  sorted_rows m -> NoDup m ->
  i < Movielens.shape0 m -> 2 <= length (Movielens.movies_of m i) ->
  picked m i st pos ->
  exists st' pv pt,
    Movielens.pick_step m rng (Some st) i = Some st' /\
    picked m (S i) st' (pos ++ [(pv, pt)]).
Proof.
  intros Hs Hm Hi Htwo (Hlv & Hlt & Hlp & Hpos & Hitems & Hpicks & Hbound & Hcount).
  destruct st as [[valid test] picks]. cbn [fst snd] in *.
  destruct (choice2_spec (rng i) (Movielens.indptr m i) (Movielens.indptr m (S i)))
    as (pv & pt & Hch & Hpv & Hpt & Hne).
  { rewrite indptr_S, csr_row_NoDup by done. lia. }
  destruct (segment_row m i pv Hs Hm Hpv) as [v Hv].
  destruct (segment_row m i pt Hs Hm Hpt) as [t Ht].
  assert (Movielens.indptr m (S i) <= length m) as Hend.
  { rewrite indptr_count by done. apply length_filter. }
  assert (Movielens.indptr m i <= Movielens.indptr m (S i)) as Hmono.
  { rewrite indptr_S. lia. }
  pose proof (lookup_picks picks pv pt) as Hlook.
  exists (<[i:=v]> valid, <[i:=t]> test, <[pt:=true]> (<[pv:=true]> picks)), pv, pt.
  split.
  { unfold Movielens.pick_step. cbn [mbind option_bind]. rewrite Hch.
    cbn [mbind option_bind fst snd]. rewrite !Tensor.lookup_map, Hv, Ht. done. }
  unfold picked. cbn [fst snd]. rewrite !length_insert, length_app. cbn [length].
  split; [done|]. split; [done|]. split; [done|]. split; [lia|]. split; [|split; [|split]].
  - intros u pv' pt' Hu. apply lookup_app_Some in Hu.
    destruct Hu as [Hu|[Hge Hu]].
    + destruct (Hitems u pv' pt' Hu) as (Hne' & v' & t' & Hv' & Ht' & Hval & Htest).
      split; [done|]. exists v', t'. apply lookup_lt_Some in Hu.
      rewrite !list_lookup_insert_ne by lia. done.
    + assert (u = i) as -> by (apply lookup_lt_Some in Hu; simpl in Hu; lia).
      rewrite Hpos, Nat.sub_diag in Hu. injection Hu as <- <-.
      split; [done|]. exists v, t. rewrite !list_lookup_insert_eq by lia. done.
  - intros p. rewrite Hlook by lia. split.
    + intros [->|[->|Hold]].
      * exists i, pv, pt. split; [|by left]. by rewrite lookup_app_r, Hpos, Nat.sub_diag by lia.
      * exists i, pv, pt. split; [|by right]. by rewrite lookup_app_r, Hpos, Nat.sub_diag by lia.
      * apply Hpicks in Hold. destruct Hold as (u & pv' & pt' & Hu & Hp).
        exists u, pv', pt'. split; [|done]. by rewrite lookup_app_l by (by eapply lookup_lt_Some).
    + intros (u & pv' & pt' & Hu & Hp). apply lookup_app_Some in Hu.
      destruct Hu as [Hu|[Hge Hu]].
      * right. right. apply Hpicks. eauto.
      * assert (u = i) as -> by (apply lookup_lt_Some in Hu; simpl in Hu; lia).
        rewrite Hpos, Nat.sub_diag in Hu. injection Hu as <- <-. tauto.
  - intros p Hp. apply Hlook in Hp; [|lia..].
    destruct Hp as [->|[->|Hold]]; [lia..|]. apply Hbound in Hold. lia.
  - assert (forall q, Movielens.indptr m i <= q < Movielens.indptr m (S i) ->
              picks !! q = Some false) as Hfree.
    { intros q Hq. destruct (lookup_lt_is_Some_2 picks q ltac:(lia)) as [[|] Hb]; [|done].
      apply Hbound in Hb. lia. }
    rewrite count_true_insert.
    + rewrite count_true_insert by (by apply Hfree). lia.
    + rewrite list_lookup_insert_ne by done. by apply Hfree.
Qed.

Lemma pick_fold (m : list (nat * nat)) (rng : nat -> nat * nat) :
  sorted_rows m -> NoDup m ->
  (forall u, u < Movielens.shape0 m -> 2 <= length (Movielens.movies_of m u)) ->
  forall k, k <= Movielens.shape0 m ->
  exists st pos,
    fold_left (Movielens.pick_step m rng) (seq 0 k)
      (Some (repeat 0 (Movielens.shape0 m), repeat 0 (Movielens.shape0 m),
             repeat false (length m))) = Some st /\
    picked m k st pos.
Proof.
  intros Hs Hm Htwo k. induction k as [|k IH]; intros Hk.
  - eexists _, []. split; [reflexivity|]. unfold picked. cbn [fst snd].
    rewrite !repeat_length. destruct (repeat_false (length m)) as [Hc Hl].
    split; [done|]. split; [done|]. split; [done|]. split; [done|].
    split; [by intros u pv pt H; rewrite lookup_nil in H|].
    split; [|split; [intros p H; by apply Hl in H|done]].
    intros p. split; [intros H; by apply Hl in H|].
    intros (u & pv & pt & H & _). by rewrite lookup_nil in H.
  - destruct IH as (st & pos & Hfold & Hinv); [lia|].
    destruct (pick_step_picked m rng k st pos Hs Hm ltac:(lia) (Htwo k ltac:(lia)) Hinv)
      as (st' & pv & pt & Hstep & Hinv').
    exists st', (pos ++ [(pv, pt)]). split; [|done].
    rewrite seq_S, fold_left_app, Hfold. cbn [fold_left Nat.add]. exact Hstep.
Qed.

Lemma train_spec (m : list (nat * nat)) : forall picks : list bool,
  length picks = length m ->
  length (map fst (filter (fun ep : nat * nat * bool => ep.2 = false) (zip m picks)))
    + Tensor.count_true picks = length m /\
  forall e, e ∈ map fst (filter (fun ep : nat * nat * bool => ep.2 = false) (zip m picks))
            <-> exists p, m !! p = Some e /\ picks !! p = Some false.
Proof.
  induction m as [|e0 m IH]; intros [|b picks] Hl; try discriminate.
  - split; [done|]. intros e. simpl. rewrite elem_of_nil. split; [done|].
    intros (p & H & _). by rewrite lookup_nil in H.
  - injection Hl as Hl. destruct (IH picks Hl) as [IHl IHe].
    cbn [zip zip_with]. change (zip_with pair m picks) with (zip m picks).
    rewrite filter_cons. cbn [snd]. destruct b.
    + rewrite decide_False by done. cbn [Tensor.count_true length]. split; [lia|].
      intros e. rewrite IHe. split.
      * intros (p & Hp & Hb). by exists (S p).
      * intros ([|p] & Hp & Hb); [done|]. by exists p.
    + rewrite decide_True by done. cbn [Tensor.count_true length map fst]. split; [lia|].
      intros e. rewrite elem_of_cons, IHe. split.
      * intros [->|(p & Hp & Hb)]; [by exists 0|by exists (S p)].
      * intros ([|p] & Hp & Hb); [left; by injection Hp|right; by exists p].
Qed.

(** X12: on a matrix stored in row-major order without duplicate entries,
    in which every user has at least two movies and that holds more than
    two entries per user overall, [pick_test] returns whatever the random
    choices are; it holds out for every user two different movies of that
    user, one for validation and one for testing, and leaves exactly the
    other entries for training. *)
Theorem pick_test_sorted (m : list (nat * nat)) (rng : nat -> nat * nat) :
  sorted_rows m -> NoDup m ->
  (forall u, u < Movielens.shape0 m -> 2 <= length (Movielens.movies_of m u)) ->
  2 * Movielens.shape0 m < length m ->
  exists train valid_set test_set,
    Movielens.pick_test m rng = Some (train, valid_set, test_set) /\
    length valid_set = Movielens.shape0 m /\
    length test_set = Movielens.shape0 m /\
    length train + 2 * Movielens.shape0 m = length m /\
    (forall u, u < Movielens.shape0 m ->
       exists v t, valid_set !! u = Some v /\ test_set !! u = Some t /\ v <> t /\
                   (u, v) ∈ m /\ (u, t) ∈ m /\ ((u, v) ∉ train) /\ ((u, t) ∉ train)) /\
    (forall e, e ∈ m <->
               e ∈ train \/ valid_set !! e.1 = Some e.2 \/ test_set !! e.1 = Some e.2).
Proof.
  intros Hs Hm Htwo Hmore.
  destruct (pick_fold m rng Hs Hm Htwo (Movielens.shape0 m) ltac:(lia))
    as ([[valid test] picks] & pos & Hfold & Hinv).
  destruct Hinv as (Hlv & Hlt & Hlp & Hpos & Hitems & Hpicks & Hbound & Hcount).
  cbn [fst snd] in *.
  destruct (train_spec m picks Hlp) as [Htl Hte].
  set (train := map fst (filter (fun ep : nat * nat * bool => ep.2 = false) (zip m picks))) in *.
  assert (forall u, u < Movielens.shape0 m ->
            exists pv pt v t, pv <> pt /\ m !! pv = Some (u, v) /\ m !! pt = Some (u, t) /\
                              valid !! u = Some v /\ test !! u = Some t /\
                              picks !! pv = Some true /\ picks !! pt = Some true) as Huser.
  { intros u Hu. destruct (lookup_lt_is_Some_2 pos u ltac:(lia)) as [[pv pt] Hp].
    destruct (Hitems u pv pt Hp) as (Hne & v & t & Hv & Ht & Hval & Htest).
    exists pv, pt, v, t. repeat split; try done; apply Hpicks; eauto 6. }
  exists train, valid, test. split; [|split; [done|split; [done|split; [lia|split]]]].
  - unfold Movielens.pick_test. rewrite Hfold. cbn [mbind option_bind]. fold train.
    destruct train as [|e0 train0] eqn:E; [|done]. cbn [length] in Htl. lia.
  - intros u Hu. destruct (Huser u Hu) as (pv & pt & v & t & Hne & Hv & Ht & Hval & Htest & Hbv & Hbt).
    exists v, t. rewrite NoDup_alt in Hm.
    split; [done|]. split; [done|]. split.
    { intros ->. apply Hne. by apply (Hm pv pt (u, t)). }
    split; [by eapply list_elem_of_lookup_2|]. split; [by eapply list_elem_of_lookup_2|].
    split.
    + intros Hin. apply Hte in Hin. destruct Hin as (p & Hp & Hb).
      assert (p = pv) as -> by (by apply (Hm p pv (u, v))). congruence.
    + intros Hin. apply Hte in Hin. destruct Hin as (p & Hp & Hb).
      assert (p = pt) as -> by (by apply (Hm p pt (u, t))). congruence.
  - intros e. split.
    + intros He. apply list_elem_of_lookup in He. destruct He as [p Hp].
      destruct (lookup_lt_is_Some_2 picks p) as [[|] Hb].
      { apply lookup_lt_Some in Hp. lia. }
      * apply Hpicks in Hb. destruct Hb as (u & pv & pt & Hu & Hor).
        destruct (Hitems u pv pt Hu) as (_ & v & t & Hv & Ht & Hval & Htest).
        right. destruct Hor as [-> | ->].
        -- left. rewrite Hv in Hp. by injection Hp as <-.
        -- right. rewrite Ht in Hp. by injection Hp as <-.
      * left. apply Hte. eauto.
    + intros [Hin|[Hin|Hin]].
      * apply Hte in Hin. destruct Hin as (p & Hp & _). by eapply list_elem_of_lookup_2.
      * assert (e.1 < Movielens.shape0 m) as Hu by (apply lookup_lt_Some in Hin; lia).
        destruct (Huser e.1 Hu) as (pv & pt & v & t & _ & Hv & _ & Hval & _).
        assert (e = (e.1, v)) as -> by (destruct e; simpl in *; congruence).
        by eapply list_elem_of_lookup_2.
      * assert (e.1 < Movielens.shape0 m) as Hu by (apply lookup_lt_Some in Hin; lia).
        destruct (Huser e.1 Hu) as (pv & pt & v & t & _ & _ & Ht & _ & Htest & _).
        assert (e = (e.1, t)) as -> by (destruct e; simpl in *; congruence).
        by eapply list_elem_of_lookup_2.
Qed.

(** The cell that saves the split fills three dictionaries, used as sets
    of [(row, col)] pairs: the training entries, and the validation and
    test item of every user. *)
Definition save_maps (train : list (nat * nat)) (valid_set test_set : list nat)
    : gset (nat * nat) * gset (nat * nat) * gset (nat * nat) :=
  (list_to_set train, list_to_set (imap pair valid_set), list_to_set (imap pair test_set)).

(** X13: the pipeline of the notebook on a well-formed matrix.  When
    [pick_test] has split the matrix and [gen_neg_set] has returned
    negatives drawn against the original matrix, none of the assertions of
    the cell that saves the negatives fails: no negative is a training, a
    validation or a test pair. *)
Theorem split_negatives_disjoint (m : list (nat * nat)) (rng : nat -> nat * nat)
    (num_movies : nat) (draws : nat -> nat -> list nat) (float_index : bool)
    (set_order : nat -> gset nat -> list nat) (fuel n : nat)
    (train : list (nat * nat)) (valid_set test_set : list nat) (neg : list (list nat)) :
  sorted_rows m -> NoDup m ->
  (forall u, u < Movielens.shape0 m -> 2 <= length (Movielens.movies_of m u)) ->
  (forall user X, set_order user X ≡ₚ elements X) ->
  Movielens.pick_test m rng = Some (train, valid_set, test_set) ->
  Movielens.gen_neg_set (fun u movie => bool_decide ((u, movie) ∈ m))
    (Movielens.shape0 m) num_movies draws float_index set_order fuel n
  = Movielens.Returned neg ->
  Movielens.save_asserts neg (save_maps train valid_set test_set).1.1
    (save_maps train valid_set test_set).1.2 (save_maps train valid_set test_set).2 = true.
Proof.
  intros Hs Hm Htwo Hperm Hpick Hneg.
  destruct (pick_fold m rng Hs Hm Htwo (Movielens.shape0 m) ltac:(lia))
    as ([[valid test] picks] & pos & Hfold & Hinv).
  destruct Hinv as (Hlv & Hlt & Hlp & Hpos & Hitems & _).
  cbn [fst snd] in *.
  destruct (train_spec m picks Hlp) as [_ Hte].
  unfold Movielens.pick_test in Hpick. rewrite Hfold in Hpick. cbn [mbind option_bind] in Hpick.
  set (tr := map fst (filter (fun ep : nat * nat * bool => ep.2 = false) (zip m picks))) in *.
  assert (train = tr /\ valid_set = valid /\ test_set = test) as (-> & -> & ->).
  { destruct tr as [|e0 tr0]; [done|]. by injection Hpick as <- <- <-. }
  clear Hpick.
  unfold Movielens.gen_neg_set in Hneg.
  destruct (Movielens.fill _ num_movies draws set_order fuel n (seq 0 (Movielens.shape0 m)))
    as [rows| |] eqn:Hfill; [|done..].
  destruct (Movielens.asserts_hold _ float_index rows); [|done]. injection Hneg as ->.
  apply Movielens.fill_sound in Hfill; [|exact Hperm].
  pose proof (Forall2_length _ _ _ Hfill) as Hlen. rewrite length_seq in Hlen.
  unfold Movielens.save_asserts, save_maps. cbn [fst snd].
  apply (Movielens.save_asserts_rows (fun u movie => bool_decide ((u, movie) ∈ m)) draws
           set_order Hperm n);
    [|by rewrite <- Hlen].
  intros u movie Hin. apply bool_decide_eq_true.
  apply elem_of_union in Hin. destruct Hin as [Hin|Hin];
    [apply elem_of_union in Hin; destruct Hin as [Hin|Hin]|].
  - apply elem_of_list_to_set, Hte in Hin. destruct Hin as (p & Hp & _).
    by eapply list_elem_of_lookup_2.
  - apply elem_of_list_to_set, elem_of_lookup_imap in Hin.
    destruct Hin as (u' & v & [= -> ->] & Hv).
    destruct (lookup_lt_is_Some_2 pos u') as [[pv pt] Hp].
    { apply lookup_lt_Some in Hv. lia. }
    destruct (Hitems u' pv pt Hp) as (_ & v' & t' & Hv' & _ & Hval & _).
    assert (v' = v) as -> by congruence. by eapply list_elem_of_lookup_2.
  - apply elem_of_list_to_set, elem_of_lookup_imap in Hin.
    destruct Hin as (u' & t & [= -> ->] & Ht).
    destruct (lookup_lt_is_Some_2 pos u') as [[pv pt] Hp].
    { apply lookup_lt_Some in Ht. lia. }
    destruct (Hitems u' pv pt Hp) as (_ & v' & t' & _ & Ht' & _ & Htest).
    assert (t' = t) as -> by congruence. by eapply list_elem_of_lookup_2.
Qed.

End Split.

(** * Which files [load_topk_pred] accepts (part_000) *)

Module TopKFile.

(** What the loop over the lines demands of a line: a first token; after a
    first token that starts with [row], a context of [ctx_size] tokens
    behind the second token; after one that starts with [recommend],
    integers only. *)
Definition line_ok (ctx_size : nat) (line : string) : Prop :=
  exists s0, head (TopK.split line) = Some s0 /\
    (TopK.startswith s0 "row" = true ->
       length (drop 2 (TopK.split line)) = ctx_size) /\
    (TopK.startswith s0 "row" = false -> TopK.startswith s0 "recommend" = true ->
       is_Some (mapM TopK.int (drop 1 (TopK.split line)))).

(** The context of a [row] line consists of integers. *)
Definition ctx_ints (line : string) : Prop :=
  forall s0, head (TopK.split line) = Some s0 -> TopK.startswith s0 "row" = true ->
    Forall (fun t => is_Some (TopK.int t)) (drop 2 (TopK.split line)).

Definition step (ctx_size : nat) (st : option (list (list string) * list (list Z)))
    (line : string) : option (list (list string) * list (list Z)) :=
  st ← st; TopK.read_line ctx_size st line.

Lemma read_line_Some (ctx_size : nat) (st st' : list (list string) * list (list Z))
    (line : string) :
  TopK.read_line ctx_size st line = Some st' -> line_ok ctx_size line.
Proof.
  unfold TopK.read_line, line_ok.
  destruct (head (TopK.split line)) as [s0|]; cbn [mbind option_bind]; [|done].
  intros H. exists s0. split; [done|]. destruct (TopK.startswith s0 "row").
  - destruct (decide (length (drop 2 (TopK.split line)) = ctx_size)); [|done].
    split; [done|]. done.
  - split; [done|]. intros _ Hrec. rewrite Hrec in H.
    destruct (mapM TopK.int (drop 1 (TopK.split line))); [eauto|done].
Qed.

Lemma fold_step_None (ctx_size : nat) (lines : list string) :
  fold_left (step ctx_size) lines None = None.
Proof. induction lines as [|line lines IH]; [done|]. exact IH. Qed.

Lemma fold_step_Some (ctx_size : nat) (lines : list string) : forall st0 st,
  fold_left (step ctx_size) lines st0 = Some st ->
  is_Some st0 /\ Forall (line_ok ctx_size) lines.
Proof.
  induction lines as [|line lines IH]; intros st0 st H; cbn [fold_left] in H.
  - split; [by rewrite H|constructor].
  - destruct (IH _ _ H) as [[st1 Hst1] Hrest].
    destruct st0 as [st0|]; [|done]. split; [done|].
    constructor; [|done]. by eapply read_line_Some.
Qed.

(** The contexts read so far are made of tokens that read as integers. *)
Definition ctxs_ok (ctxs : list (list string)) : Prop :=
  Forall (fun ctx => Forall TopK.token ctx /\ Forall (fun t => is_Some (TopK.int t)) ctx) ctxs.

Lemma fold_step_ok (ctx_size : nat) (lines : list string) :
  Forall (line_ok ctx_size) lines -> Forall ctx_ints lines ->
  forall st, ctxs_ok st.1 ->
  exists st', fold_left (step ctx_size) lines (Some st) = Some st' /\ ctxs_ok st'.1.
Proof.
  induction 1 as [|line lines (s0 & Hhead & Hrow & Hrec) _ IH]; intros Hints st Hst.
  - by exists st.
  - apply Forall_cons in Hints. destruct Hints as [Hint Hints].
    cbn [fold_left step mbind option_bind]. unfold TopK.read_line.
    rewrite Hhead. cbn [mbind option_bind].
    destruct (TopK.startswith s0 "row") eqn:Er.
    + rewrite decide_True by (by apply Hrow). apply IH; [done|]. cbn [fst].
      apply Forall_app. split; [done|]. constructor; [|constructor]. split.
      * apply Forall_drop, TopK.split_tokens.
      * by apply (Hint s0).
    + destruct (TopK.startswith s0 "recommend") eqn:Ec.
      * destruct (Hrec eq_refl eq_refl) as [pred ->]. cbn [mbind option_bind].
        by apply IH.
      * by apply IH.
Qed.

(** X14: [load_topk_pred] returns only if every line has a first token,
    every [row] line carries a context of [ctx_size] tokens and every
    [recommend] line carries integers only (a blank line, a context of the
    wrong size or a malformed prediction raise); and it does return on
    every such file whose contexts are integers. *)
Theorem load_topk_pred_accepts (lines : list string) (ctx_size k : nat) :
  (is_Some (TopK.load_topk_pred lines ctx_size k) -> Forall (line_ok ctx_size) lines) /\
  (Forall (line_ok ctx_size) lines -> Forall ctx_ints lines ->
   is_Some (TopK.load_topk_pred lines ctx_size k)).
Proof.
  unfold TopK.load_topk_pred, TopK.read_lines.
  change (fun st line => st ← st; TopK.read_line ctx_size st line) with (step ctx_size).
  split.
  - intros [r Hr].
    destruct (fold_left (step ctx_size) lines (Some ([], []))) as [st|] eqn:E; [|done].
    by destruct (fold_step_Some _ _ _ _ E).
  - intros Hok Hints.
    destruct (fold_step_ok ctx_size lines Hok Hints ([], [])) as ([ctxs preds] & -> & Hctxs).
    { constructor. }
    cbn [mbind option_bind fst] in *.
    assert (is_Some (mapM (fun kv : string * list Z => mapM TopK.int (TopK.split kv.1))
                          (TopK.build_dict (zip ctxs preds)))) as [cs ->];
      [|done].
    apply mapM_is_Some_2, Forall_forall. intros [key pred] Hin. unfold compose. cbn [fst].
    apply list_elem_of_lookup in Hin as [i Hi].
    destruct (TopK.build_dict_spec (zip ctxs preds)) as (_ & Hlast & _).
    destruct (Hlast _ _ _ Hi) as (j & c & Hj & <- & _).
    assert (c ∈ ctxs) as Hc.
    { apply list_elem_of_lookup_2 in Hj. by apply elem_of_zip_l in Hj. }
    unfold ctxs_ok in Hctxs. rewrite Forall_forall in Hctxs.
    destruct (Hctxs c Hc) as [Htok Hint].
    rewrite TopK.split_join by done. by apply mapM_is_Some_2.
Qed.

End TopKFile.

(** * The widths of the GraphSAGE layers (both notebooks) *)

Module LayerShapes.
Section Shapes.
Context {Act Agg Drop : Type}.

Lemma stack_chain (n_hidden out_dim : Z) (act : Act) (dr : Drop) (ag : Agg) (k : nat) :
  forall x : @GraphSAGE.SAGEConv Act Agg Drop,
  GraphSAGE.conv_out_feats x = n_hidden ->
  GraphSAGE.conv_activation x <> None ->
  let layers := x :: repeat (GraphSAGE.mkSAGEConv n_hidden n_hidden ag dr (Some act)) k
                  ++ [GraphSAGE.mkSAGEConv n_hidden out_dim ag dr None] in
  (forall i a b, layers !! i = Some a -> layers !! S i = Some b ->
     GraphSAGE.conv_out_feats a = GraphSAGE.conv_in_feats b) /\
  (forall a, last layers = Some a -> GraphSAGE.conv_out_feats a = out_dim) /\
  (forall i a, layers !! i = Some a ->
     (GraphSAGE.conv_activation a = None <-> S i = length layers)).
Proof.
  induction k as [|k IH]; intros x Hx Hact layers; subst layers.
  - cbn [repeat app]. split; [|split].
    + intros [|[|i]] a b Ha Hb; simpl in *; try done.
      injection Ha as <-. injection Hb as <-. done.
    + intros a [= <-]. done.
    + intros [|[|i]] a Ha; simpl in *; try done.
      * injection Ha as <-. split; [done|lia].
      * injection Ha as <-. done.
  - cbn [repeat app].
    destruct (IH (GraphSAGE.mkSAGEConv n_hidden n_hidden ag dr (Some act)) eq_refl
                 ltac:(done)) as (IHc & IHl & IHa).
    split; [|split].
    + intros [|i] a b Ha Hb.
      * simpl in Ha, Hb. injection Ha as <-. injection Hb as <-. done.
      * by apply (IHc i).
    + intros a Ha. by apply IHl.
    + intros [|i] a Ha.
      * simpl in Ha. injection Ha as <-. split; [done|].
        cbn [length]. rewrite length_app. simpl. lia.
      * rewrite (IHa i a Ha). cbn [length]. lia.
Qed.

(** X15: the layers that [GraphSAGEModel.__init__] builds fit together:
    each layer produces the width that the next one consumes, the first
    consumes [in_feats], the last produces [out_dim], the last layer is the
    only one without an activation, and every layer carries the model's
    aggregator and dropout. *)
Theorem init_layers_chain (in_feats n_hidden out_dim n_layers : Z)
    (act : Act) (dr : Drop) (ag : Agg) :
  let layers := GraphSAGE.init_layers in_feats n_hidden out_dim n_layers act dr ag in
  (forall i a b, layers !! i = Some a -> layers !! S i = Some b ->
     GraphSAGE.conv_out_feats a = GraphSAGE.conv_in_feats b) /\
  (forall a, head layers = Some a -> GraphSAGE.conv_in_feats a = in_feats) /\
  (forall a, last layers = Some a -> GraphSAGE.conv_out_feats a = out_dim) /\
  (forall i a, layers !! i = Some a ->
     (GraphSAGE.conv_activation a = None <-> S i = length layers)) /\
  Forall (fun a => GraphSAGE.conv_aggregator_type a = ag /\
                   GraphSAGE.conv_feat_drop a = dr) layers.
Proof.
  intros layers. subst layers. unfold GraphSAGE.init_layers.
  destruct (Z.eqb_spec n_layers 1) as [->|Hne].
  - split; [|split; [|split; [|split]]].
    + intros [|i] a b Ha Hb; simpl in *; done.
    + by intros a [= <-].
    + by intros a [= <-].
    + intros [|i] a Ha; simpl in *; [|done]. by injection Ha as <-.
    + by repeat constructor.
  - destruct (Z.gtb_spec n_layers 1) as [Hgt|Hle].
    + cbn [app].
      destruct (stack_chain n_hidden out_dim act dr ag (Z.to_nat (n_layers - 2))
                  (GraphSAGE.mkSAGEConv in_feats n_hidden ag dr (Some act)) eq_refl
                  ltac:(done)) as (Hc & Hl & Ha).
      split; [exact Hc|]. split; [by intros a [= <-]|]. split; [exact Hl|].
      split; [exact Ha|].
      constructor; [done|]. apply Forall_app. split; [|by repeat constructor].
      apply Forall_forall. intros a Hin.
      apply list_elem_of_In, repeat_spec in Hin. by subst a.
    + split; [|split; [|split; [|split]]]; done.
Qed.
End Shapes.
End LayerShapes.

(** * The FISM notebook end to end: sampler, rating model, loss, evaluation *)

Module Pipeline.
Section Model.
Context {R : Type}.
Variables radd rsub rmul rdiv rpow : R -> R -> R.
Variables rzero rone rneg1 : R.
Variable of_int : Z -> R.
Variable clamp_min : R -> R -> R.
Variable logsigmoid : R -> R.
Variable rge : R -> R -> bool.
Variables P Q : nat -> list R.
Variables b_u b_i : list R.
Variable alpha : R.

(** [model(I, U, I_neg, I_U, N_U)] in the training loop: [FISM.forward]. *)
Definition train_step (I U : list nat) (I_neg : list (list nat)) (I_U N_U : list nat)
    : option R :=
  res ← FISMRating.forward radd rsub rmul rdiv rpow rzero rone of_int clamp_min
          P Q b_u b_i alpha I U (Some I_neg) I_U N_U false;
  match res with
  | (r, Some r_neg) =>
      RankLoss.FISM_forward_loss radd rsub rmul rzero rneg1 logsigmoid r r_neg
  | (_, None) => None
  end.

(** [RecEval(model, ...)] with the FISM model. *)
Definition evaluate (user_item_csr : list (list nat)) (k : Z)
    (users_eval items_eval : list nat) (neg_eval : list (list nat))
    : option QArith_base.Q :=
  HitRate.RecEval rge
    (FISMRating.est_rating radd rsub rmul rdiv rpow rzero rone of_int clamp_min
       P Q b_u b_i alpha)
    user_item_csr k users_eval items_eval neg_eval.

Lemma gather_rows (b : list R) (rows : list (list nat)) (n : nat) :
  Forall (fun row => length row = n) rows ->
  Forall (Forall (fun m => m < length b)) rows ->
  exists brows, mapM (Tensor.gather b) rows = Some brows /\
                length brows = length rows /\
                Forall (fun brow => length brow = n) brows.
Proof.
  intros Hrect Hrange.
  assert (is_Some (mapM (Tensor.gather b) rows)) as [brows Hb].
  { apply mapM_is_Some_2. eapply Forall_impl; [exact Hrange|].
    intros row Hrow. unfold compose.
    destruct (Tensor.gather_in_range b row Hrow) as (xs & -> & _). eauto. }
  exists brows. split; [done|]. pose proof (length_mapM _ _ _ Hb) as Hl.
  split; [lia|]. apply mapM_Some_1 in Hb. clear Hl Hrange.
  induction Hb as [|row brow rows brows Hg _ IH]; [constructor|].
  apply Forall_cons in Hrect. destruct Hrect as [Hr Hrect].
  constructor; [|by apply IH]. apply length_mapM in Hg. lia.
Qed.

(** On a well-formed batch with negatives [FISMrating.forward] returns one
    rating per pair and one row of ratings per row of negatives. *)
Lemma forward_returns (test : bool) (d n : nat) (I U : list nat) (ctx : list (list nat))
    (I_neg : list (list nat)) :
  (forall i, length (P i) = d) -> (forall i, length (Q i) = d) ->
  length U = length I -> length ctx = length I ->
  Forall (fun u => u < length b_u) U ->
  Forall (fun i => i < length b_i) I ->
  0 < length I -> 0 < n -> length I_neg = length I ->
  Forall (fun row => length row = n) I_neg ->
  Forall (Forall (fun m => m < length b_i)) I_neg ->
  exists r r_neg,
    FISMRating.forward radd rsub rmul rdiv rpow rzero rone of_int clamp_min
      P Q b_u b_i alpha I U (Some I_neg) (concat ctx) (map length ctx) test
    = Some (r, Some r_neg) /\
    length r = length I /\ length r_neg = length I /\
    Forall (fun row => length row = n) r_neg.
Proof.
  intros HP HQ HU Hctx HbuR HbiR Hpos Hn Hneg Hrect Hrange.
  destruct (Tensor.gather_in_range b_u U HbuR) as (bu & Hbu & _).
  destruct (Tensor.gather_in_range b_i I HbiR) as (bi & Hbi & _).
  assert (length bu = length I) as Hbul by (apply length_mapM in Hbu; lia).
  assert (length bi = length I) as Hbil by (apply length_mapM in Hbi; lia).
  destruct (gather_rows b_i I_neg n Hrect Hrange) as (bi_neg & Hbin & Hbinl & Hbirect).
  eexists _, _. split.
  { rewrite (FISMRating.forward_closed radd rsub rmul rdiv rpow rzero rone of_int
               clamp_min P Q b_u b_i alpha test d I U ctx bu bi (Some I_neg)) by done.
    cbn zeta. cbn match.
    rewrite (FISMRating.neg_ratings_closed radd rsub rmul rdiv rpow rzero rone of_int
               clamp_min P Q b_i alpha test d n I ctx bu I_neg bi_neg) by done.
    reflexivity. }
  split; [|split].
  - rewrite !length_zip_with. unfold FISMRating.pq_rows. rewrite length_zip_with. lia.
  - unfold FISMRating.neg_rows.
    rewrite !length_zip_with, !length_map, length_zip_with,
      FISMRating.p_ctx_rows_length, length_map by done. lia.
  - unfold FISMRating.neg_rows. apply Forall_forall. intros row Hin.
    apply list_elem_of_lookup in Hin as [b Hb].
    apply lookup_zip_with_Some in Hb as (r1 & r2 & -> & Hr1 & Hr2).
    apply lookup_zip_with_Some in Hr1 as (x & brow & -> & _ & Hbrow).
    apply lookup_zip_with_Some in Hr2 as (srow & y & -> & Hsrow & _).
    rewrite length_zip_with, !length_map.
    rewrite Tensor.lookup_map in Hsrow.
    destruct (zip_with (fun pc qn => map (zip_with rmul pc) qn)
                (FISMRating.p_ctx_rows radd rsub rzero P test d I ctx)
                (map (map Q) I_neg) !! b)
      as [prow|] eqn:Hprow; simpl in Hsrow; [|done].
    injection Hsrow as <-. rewrite length_map.
    apply lookup_zip_with_Some in Hprow as (pc & qn & -> & _ & Hqn).
    rewrite Tensor.lookup_map in Hqn.
    destruct (I_neg !! b) as [nrow|] eqn:Hnrow; simpl in Hqn; [|done].
    injection Hqn as <-. rewrite !length_map.
    rewrite Forall_forall in Hrect. rewrite Forall_forall in Hbirect.
    rewrite (Hrect nrow) by (eapply list_elem_of_lookup_2; eauto).
    rewrite (Hbirect brow) by (eapply list_elem_of_lookup_2; eauto). lia.
Qed.
Lemma chunks_elem {X} (rows n : nat) : forall (l : list X) row x,
  row ∈ Tensor.chunks rows n l -> x ∈ row -> x ∈ l.
Proof.
  induction rows as [|rows IH]; intros l row x Hrow Hx; cbn [Tensor.chunks] in Hrow.
  - by apply elem_of_nil in Hrow.
  - apply elem_of_cons in Hrow. destruct Hrow as [->|Hrow].
    + rewrite <- (take_drop n l). apply elem_of_app. by left.
    + rewrite <- (take_drop n l). apply elem_of_app. right. by eapply IH.
Qed.

Lemma count_true_le (l : list bool) : Tensor.count_true l <= length l.
Proof. induction l as [|[] l IH]; simpl; lia. Qed.

(** X16: the training step accepts every batch of the sampler.  When the
    biases cover the users and items of the matrix and the negatives drawn,
    a non-empty batch yielded by [EdgeSampler.__next__] makes
    [FISMrating.forward] return one rating per pair and one row of ratings
    per row of negatives, and [FISM.forward] return the ranking loss of
    every rating of the batch against every negative rating of the batch. *)
Theorem sampler_batch_trains (user_item_spm : list (nat * nat)) (neg_sample_size d : nat)
    (choice : nat -> nat -> list nat) (s s' : EdgeSampler.sampler)
    (out : EdgeSampler.batch) :
  (forall i, length (P i) = d) -> (forall i, length (Q i) = d) ->
  Forall (fun e => e.1 < length b_u /\ e.2 < length b_i) user_item_spm ->
  (forall k size, length (choice k size) = size /\
                  Forall (fun m => m < length b_i) (choice k size)) ->
  EdgeSampler.next user_item_spm neg_sample_size choice s = EdgeSampler.Yield out s' ->
  0 < length (EdgeSampler.I out) ->
  exists r r_neg,
    FISMRating.forward radd rsub rmul rdiv rpow rzero rone of_int clamp_min
      P Q b_u b_i alpha (EdgeSampler.I out) (EdgeSampler.U out)
      (Some (EdgeSampler.I_neg out)) (EdgeSampler.I_U out) (EdgeSampler.N_U out) false
    = Some (r, Some r_neg) /\
    length r = length (EdgeSampler.I out) /\
    length r_neg = length (EdgeSampler.I out) /\
    Forall (fun row => length row = neg_sample_size) r_neg /\
    train_step (EdgeSampler.I out) (EdgeSampler.U out) (EdgeSampler.I_neg out)
      (EdgeSampler.I_U out) (EdgeSampler.N_U out)
    = Some (rmul (RankLoss.tsum radd rzero
                    (concat (map (RankLoss.pair_terms rsub logsigmoid r) (concat r_neg))))
                 rneg1).
Proof.
  intros HP HQ Hspm Hchoice Hnext Hpos. unfold EdgeSampler.next in Hnext.
  destruct (EdgeSampler.idx s =? length (EdgeSampler.batches s)); [done|].
  destruct (EdgeSampler.batches s !! EdgeSampler.idx s) as [b|] eqn:Hb; [|done].
  destruct (Tensor.gather (map snd user_item_spm) b) as [movies|] eqn:Hm; [|done].
  destruct (Tensor.gather (map fst user_item_spm) b) as [users|] eqn:Hu; [|done].
  destruct (Tensor.reshape neg_sample_size
              (choice (EdgeSampler.idx s) (neg_sample_size * length b)))
    as [negs|] eqn:Hr; [|done].
  injection Hnext as <- <-.
  cbn [EdgeSampler.I EdgeSampler.U EdgeSampler.I_neg EdgeSampler.I_U EdgeSampler.N_U] in *.
  assert (length movies = length b) as Hlm by (apply length_mapM in Hm; lia).
  assert (length users = length b) as Hlu by (apply length_mapM in Hu; lia).
  destruct (Hchoice (EdgeSampler.idx s) (neg_sample_size * length b)) as [Hcl Hcr].
  destruct (EdgeSampler.reshape_rows _ _ _ Hr) as (Hn & Hrows & Hrect).
  rewrite Hcl, Nat.mul_comm, Nat.div_mul in Hrows by lia.
  assert (Forall (fun u => u < length b_u) users) as Husers.
  { apply mapM_Some_1 in Hu. apply Forall_forall. intros u Hin.
    apply list_elem_of_lookup in Hin as [k Hk].
    destruct (Forall2_lookup_r _ _ _ _ _ Hu Hk) as (id & _ & Hid).
    rewrite Tensor.lookup_map in Hid.
    destruct (user_item_spm !! id) as [e|] eqn:He; simpl in Hid; [|done].
    injection Hid as <-. rewrite Forall_forall in Hspm.
    apply (Hspm e). by eapply list_elem_of_lookup_2. }
  assert (Forall (fun i => i < length b_i) movies) as Hmovies.
  { apply mapM_Some_1 in Hm. apply Forall_forall. intros i Hin.
    apply list_elem_of_lookup in Hin as [k Hk].
    destruct (Forall2_lookup_r _ _ _ _ _ Hm Hk) as (id & _ & Hid).
    rewrite Tensor.lookup_map in Hid.
    destruct (user_item_spm !! id) as [e|] eqn:He; simpl in Hid; [|done].
    injection Hid as <-. rewrite Forall_forall in Hspm.
    apply (Hspm e). by eapply list_elem_of_lookup_2. }
  assert (Forall (Forall (fun m => m < length b_i)) negs) as Hnegs.
  { unfold Tensor.reshape in Hr.
    destruct (neg_sample_size =? 0); [done|].
    destruct (length (choice (EdgeSampler.idx s) (neg_sample_size * length b))
                mod neg_sample_size =? 0); [|done].
    injection Hr as <-. apply Forall_forall. intros row Hrow.
    apply Forall_forall. intros x Hx. rewrite Forall_forall in Hcr.
    apply Hcr. by eapply chunks_elem. }
  destruct (forward_returns false d neg_sample_size movies users
              (map (EdgeSampler.csr_indices user_item_spm) users) negs)
    as (r & r_neg & Hf & Hlr & Hlneg & Hnrect); try done; try lia.
  { rewrite length_map. lia. }
  exists r, r_neg. split; [exact Hf|]. split; [done|]. split; [done|]. split; [done|].
  unfold train_step. rewrite Hf. cbn [mbind option_bind].
  unfold RankLoss.FISM_forward_loss.
  destruct (Nat.eqb_spec (length r) 0) as [H0|_]; [lia|].
  rewrite Hlneg, <- Hlr, Nat.div_same by lia. rewrite Tensor.reshape_one.
  cbn [mbind option_bind]. unfold RankLoss.FISM_loss, RankLoss.rank_loss2.
  rewrite RankLoss.bcast_row_column. cbn [mbind option_bind].
  do 4 f_equal. rewrite map_map. apply map_ext. intros x.
  unfold RankLoss.pair_terms. by rewrite map_map.
Qed.

(** X17: the evaluation accepts every well-formed evaluation set.  With
    at least one user to evaluate, one item per user, users known to the
    model, the matrix and the negative set, and [n > 0] negatives per user
    among the items of the model, [FISMrating.forward] in test mode
    returns a rating [rs[j]] for every evaluated pair and a row [negs[j]]
    of ratings of the [j]-th user's negatives, and [RecEval] on the FISM
    model returns the share of the evaluated users [j] that are hits, that
    is, with at most [k] ratings in [negs[j]] that are [>= rs[j]]; this is
    a number between 0 and 1. *)
Theorem evaluate_returns (user_item_csr : list (list nat)) (k : Z)
    (users_eval items_eval : list nat) (neg_eval : list (list nat)) (d n : nat) :
  (forall i, length (P i) = d) -> (forall i, length (Q i) = d) ->
  0 < length users_eval -> length items_eval = length users_eval ->
  Forall (fun u => u < length b_u /\ u < length user_item_csr /\ u < length neg_eval)
         users_eval ->
  Forall (fun i => i < length b_i) items_eval ->
  0 < n ->
  Forall (fun row => length row = n /\ Forall (fun m => m < length b_i) row) neg_eval ->
  exists (neg_items neighbors : list (list nat)) (rs : list R) (negs : list (list R))
         (hits : list bool),
    Tensor.gather neg_eval users_eval = Some neg_items /\
    Tensor.gather user_item_csr users_eval = Some neighbors /\
    FISMRating.forward radd rsub rmul rdiv rpow rzero rone of_int clamp_min
      P Q b_u b_i alpha items_eval users_eval (Some neg_items)
      (concat neighbors) (map length neighbors) true
    = Some (rs, Some negs) /\
    length rs = length users_eval /\
    length negs = length users_eval /\
    Forall (fun row => length row = n) negs /\
    hits = zip_with (HitRate.hit rge k) rs negs /\
    length hits = length users_eval /\
    evaluate user_item_csr k users_eval items_eval neg_eval
    = Some (Z.of_nat (Tensor.count_true hits) # Pos.of_nat (length users_eval)) /\
    (0 <= Z.of_nat (Tensor.count_true hits) # Pos.of_nat (length users_eval))%Q /\
    (Z.of_nat (Tensor.count_true hits) # Pos.of_nat (length users_eval) <= 1)%Q.
Proof.
  intros HP HQ Hpos Hitems Husers Hirange Hn Hneg.
  destruct (Tensor.gather_in_range neg_eval users_eval) as (neg_items & Hgn & Hgn2).
  { eapply Forall_impl; [exact Husers|]. intros u (? & ? & ?); done. }
  destruct (Tensor.gather_in_range user_item_csr users_eval) as (neighbors & Hgc & _).
  { eapply Forall_impl; [exact Husers|]. intros u (? & ? & ?); done. }
  assert (length neg_items = length users_eval) as Hlni by (apply length_mapM in Hgn; lia).
  assert (length neighbors = length users_eval) as Hlnb by (apply length_mapM in Hgc; lia).
  assert (Forall (fun row => length row = n /\ Forall (fun m => m < length b_i) row)
                 neg_items) as Hni.
  { apply Forall_forall. intros row Hin. apply list_elem_of_lookup in Hin as [j Hj].
    destruct (Forall2_lookup_r _ _ _ _ _ Hgn2 Hj) as (u & _ & Hu). simpl in Hu.
    rewrite Forall_forall in Hneg. apply Hneg. by eapply list_elem_of_lookup_2. }
  destruct (forward_returns true d n items_eval users_eval neighbors neg_items)
    as (rs & negs & Hf & Hlr & Hlneg & Hrect); try done; try lia.
  { eapply Forall_impl; [exact Husers|]. intros u (? & ? & ?); done. }
  { eapply Forall_impl; [exact Hni|]. intros row [? ?]; done. }
  { eapply Forall_impl; [exact Hni|]. intros row [? ?]; done. }
  pose proof (FISMRating.est_rating_columns radd rsub rmul rdiv rpow rzero rone of_int
                clamp_min P Q b_u b_i alpha items_eval users_eval neg_items
                (concat neighbors) (map length neighbors) rs negs Hf
                ltac:(lia) ltac:(lia)) as Hest.
  exists neg_items, neighbors, rs, negs, (zip_with (HitRate.hit rge k) rs negs).
  assert (length (zip_with (HitRate.hit rge k) rs negs) = length users_eval) as Hlen.
  { rewrite length_zip_with. lia. }
  split; [exact Hgn|]. split; [exact Hgc|]. split; [exact Hf|].
  split; [lia|]. split; [lia|]. split; [exact Hrect|]. split; [reflexivity|].
  split; [done|]. split.
  - unfold evaluate, HitRate.RecEval. rewrite Hgn, Hgc. cbn [mbind option_bind].
    rewrite Hest. cbn [mbind option_bind].
    rewrite !Tensor.length_column, Tensor.concat_column.
    destruct (Nat.eqb_spec (length rs) 0) as [H0|_]; [lia|].
    rewrite (Tensor.length_concat_rect n negs Hrect), Hlneg, Hlr.
    rewrite Nat.mul_comm, Nat.div_mul by lia.
    rewrite (Tensor.reshape_concat n negs Hn Hrect). cbn [mbind option_bind].
    rewrite Tensor.bcast_rows_column by lia. cbn [mbind option_bind].
    assert (map (fun row => (Z.of_nat (Tensor.count_true row) <=? k)%Z)
              (zip_with (fun row y => map (fun x => rge x y) row) negs rs)
            = zip_with (HitRate.hit rge k) rs negs) as ->.
    { clear. revert rs. induction negs as [|row negs IH]; intros [|y rs]; simpl; try done.
      by rewrite IH. }
    unfold Tensor.mean_bool.
    destruct (zip_with (HitRate.hit rge k) rs negs) as [|h hs] eqn:E.
    + simpl in Hlen. lia.
    + by rewrite Hlen.
  - pose proof (count_true_le (zip_with (HitRate.hit rge k) rs negs)) as Hle.
    rewrite Hlen in Hle.
    assert (Z.pos (Pos.of_nat (length users_eval)) = Z.of_nat (length users_eval)) as Hz.
    { destruct (length users_eval) as [|m]; [lia|].
      rewrite <- Pos.of_nat_succ, Zpos_P_of_succ_nat. lia. }
    unfold Qle. cbn [Qnum Qden]. rewrite Hz. split; lia.
Qed.
End Model.
End Pipeline.

(** * The encoding layer of the FISM notebook (Recommendation-fism.ipynb) *)

Module Encode.

(** The data types the code tells apart. *)
Inductive dtype : Type := Int64 | Float32 | OtherType.

(** What a call can give: a value, a [KeyError] on a dictionary of modules,
    or an error raised inside a framework call. *)
Inductive result (A : Type) : Type :=
| Ok (a : A)
| KeyError (key : string)
| Raised.
Arguments Ok {A} a.
Arguments KeyError {A} key.
Arguments Raised {A}.

Section Layer.
(** Tensors, node features and [nn] modules are framework objects. *)
Context {T Value Module : Type}.
Variable dtype_of : Value -> dtype.
(** [nn.Linear(value.shape[1], num_hidden)] and
    [nn.Embedding(value.max().item() + 1, num_hidden, padding_idx=0)]. *)
Variables new_linear new_embedding : Value -> option Module.
(** [module(value)]. *)
Variable call : Module -> Value -> option T.
(** [h + torch.stack(e, 0).sum(0)]. *)
Variable add_stack_sum : T -> list T -> option T.

(** An [EncodeLayer]: the two module dictionaries. *)
Record layer : Type := mkLayer { proj : gmap string Module; emb : gmap string Module }.

(** One iteration of the loop of [EncodeLayer.__init__]. *)
Definition register (l : option layer) (kv : string * Value) : option layer :=
  l ← l;
  match dtype_of kv.2 with
  | Float32 => m ← new_linear kv.2; Some (mkLayer (<[kv.1 := m]> (proj l)) (emb l))
  | Int64 => m ← new_embedding kv.2; Some (mkLayer (proj l) (<[kv.1 := m]> (emb l)))
  | OtherType => Some l
  end.

(** [EncodeLayer.__init__(ndata, num_hidden, device)]; [ndata] in the order
    of its keys. *)
Definition init (ndata : list (string * Value)) : option layer :=
  fold_left register ndata (Some (mkLayer ∅ ∅)).

(** [d[key](value)] on a dictionary of modules. *)
Definition lookup_call (d : gmap string Module) (key : string) (value : Value) : result T :=
  match d !! key with
  | None => KeyError key
  | Some m => match call m value with
              | Some t => Ok t
              | None => Raised
              end
  end.

(** [e.append(x)] followed by the rest of the loop. *)
Definition append_then (x : result T) (rest : result (list T)) : result (list T) :=
  match x with
  | Ok t => match rest with
            | Ok e => Ok (t :: e)
            | KeyError k => KeyError k
            | Raised => Raised
            end
  | KeyError k => KeyError k
  | Raised => Raised
  end.

(** The loop of [mix_embeddings] that fills [e]. *)
Fixpoint encodings (ndata : list (string * Value)) (emb proj : gmap string Module)
    : result (list T) :=
  match ndata with
  | [] => Ok []
  | (key, value) :: rest =>
      match dtype_of value with
      | Int64 => append_then (lookup_call emb key value) (encodings rest emb proj)
      | Float32 => append_then (lookup_call proj key value) (encodings rest emb proj)
      | OtherType => encodings rest emb proj
      end
  end.

(** [mix_embeddings(h, ndata, emb, proj)]. *)
Definition mix_embeddings (h : T) (ndata : list (string * Value))
    (emb proj : gmap string Module) : result T :=
  match encodings ndata emb proj with
  | Ok [] => Ok h
  | Ok e => match add_stack_sum h e with
            | Some t => Ok t
            | None => Raised
            end
  | KeyError k => KeyError k
  | Raised => Raised
  end.

(** [EncodeLayer.forward(ndata)]; [zero] is the number [0] passed as [h]. *)
Definition forward (zero : T) (l : layer) (ndata : list (string * Value)) : result T :=
  mix_embeddings zero ndata (emb l) (proj l).

(** The features a layer was built from are registered under their type. *)
Definition registered (l : layer) (kv : string * Value) : Prop :=
  match dtype_of kv.2 with
  | Int64 => is_Some (emb l !! kv.1)
  | Float32 => is_Some (proj l !! kv.1)
  | OtherType => True
  end.

Lemma register_None (ndata : list (string * Value)) : fold_left register ndata None = None.
Proof. induction ndata as [|kv ndata IH]; [done|]. exact IH. Qed.

Lemma register_keeps (l l' : layer) (kv kv' : string * Value) :
  register (Some l) kv = Some l' -> registered l kv' -> registered l' kv'.
Proof.
  unfold register, registered. cbn [mbind option_bind].
  destruct (dtype_of kv.2).
  - destruct (new_embedding kv.2) as [m|]; cbn [mbind option_bind]; [|done].
    intros [= <-]. cbn [emb proj]. destruct (dtype_of kv'.2); [|done..].
    intros H. destruct (decide (kv.1 = kv'.1)) as [->|Hne].
    + by rewrite lookup_insert_eq.
    + by rewrite lookup_insert_ne.
  - destruct (new_linear kv.2) as [m|]; cbn [mbind option_bind]; [|done].
    intros [= <-]. cbn [emb proj]. destruct (dtype_of kv'.2); [done| |done].
    intros H. destruct (decide (kv.1 = kv'.1)) as [->|Hne].
    + by rewrite lookup_insert_eq.
    + by rewrite lookup_insert_ne.
  - by intros [= <-].
Qed.

Lemma register_adds (l l' : layer) (kv : string * Value) :
  register (Some l) kv = Some l' -> registered l' kv.
Proof.
  unfold register, registered. cbn [mbind option_bind].
  destruct (dtype_of kv.2).
  - destruct (new_embedding kv.2) as [m|]; cbn [mbind option_bind]; [|done].
    intros [= <-]. cbn [emb]. by rewrite lookup_insert_eq.
  - destruct (new_linear kv.2) as [m|]; cbn [mbind option_bind]; [|done].
    intros [= <-]. cbn [proj]. by rewrite lookup_insert_eq.
  - done.
Qed.

Lemma init_registers (ndata : list (string * Value)) : forall l0 l,
  fold_left register ndata (Some l0) = Some l ->
  (forall kv, registered l0 kv -> registered l kv) /\ Forall (registered l) ndata.
Proof.
  induction ndata as [|kv ndata IH]; intros l0 l H; cbn [fold_left] in H.
  - injection H as <-. split; [done|constructor].
  - destruct (register (Some l0) kv) as [l1|] eqn:E; [|by rewrite register_None in H].
    destruct (IH l1 l H) as [Hkeep Hall]. split.
    + intros kv' Hkv'. apply Hkeep. by eapply register_keeps.
    + constructor; [|done]. apply Hkeep. by eapply register_adds.
Qed.

Lemma encodings_registered (l : layer) (ndata : list (string * Value)) :
  Forall (registered l) ndata ->
  forall key, encodings ndata (emb l) (proj l) <> KeyError key.
Proof.
  induction 1 as [|[k v] ndata Hkv _ IH]; intros key; [done|].
  cbn [encodings]. unfold registered in Hkv. cbn [fst snd] in Hkv.
  specialize (IH key).
  unfold lookup_call, append_then. destruct (dtype_of v).
  - destruct Hkv as [m ->]. destruct (call m v); [|done].
    by destruct (encodings ndata (emb l) (proj l)).
  - destruct Hkv as [m ->]. destruct (call m v); [|done].
    by destruct (encodings ndata (emb l) (proj l)).
  - done.
Qed.

Lemma encodings_skip (ndata : list (string * Value)) (emb0 proj0 : gmap string Module) :
  Forall (fun kv => dtype_of kv.2 = OtherType) ndata ->
  encodings ndata emb0 proj0 = Ok [].
Proof.
  induction 1 as [|[k v] ndata Hkv _ IH]; [done|].
  cbn [encodings]. cbn [snd] in Hkv. by rewrite Hkv.
Qed.

(** X18: an [EncodeLayer] applied to the features it was built from never
    raises a [KeyError]: every dictionary entry that [mix_embeddings] looks
    up was registered by [__init__]; when, moreover, no feature is of type
    [int64] or [float32], [forward] returns the number 0 it passes as [h]
    instead of a tensor; and features that start with an [int64] or
    [float32] entry under a key the layer has no module for raise the
    [KeyError] of that key. *)
Theorem encode_forward_keys (zero : T) (ndata : list (string * Value)) (l : layer) :
  init ndata = Some l ->
  (forall key, forward zero l ndata <> KeyError key) /\
  (Forall (fun kv => dtype_of kv.2 = OtherType) ndata -> forward zero l ndata = Ok zero) /\
  (forall key value rest,
     dtype_of value <> OtherType -> proj l !! key = None -> emb l !! key = None ->
     forward zero l ((key, value) :: rest) = KeyError key).
Proof.
  intros Hinit. unfold init in Hinit.
  destruct (init_registers ndata _ l Hinit) as [_ Hall].
  split; [|split].
  - intros key. unfold forward, mix_embeddings.
    pose proof (encodings_registered l ndata Hall key) as Hk.
    destruct (encodings ndata (emb l) (proj l)) as [[|t e]|k|]; [done| | |done].
    2:{ intros [= ->]. by apply Hk. }
    by destruct (add_stack_sum zero (t :: e)).
  - intros Hother. unfold forward, mix_embeddings. by rewrite encodings_skip.
  - intros key value rest Hd Hp He. unfold forward, mix_embeddings. cbn [encodings].
    unfold lookup_call. rewrite Hp, He. by destruct (dtype_of value).
Qed.
End Layer.
End Encode.

(** * When [knnEvaluate] gives no number (Recommendation.ipynb) *)

Module KnnEdge.
Section Edge.
Context {R : Type}.
Variable rsub : R -> R -> R.
Variables rzero rone : R.
Variable rge : R -> R -> bool.
Variable score_fn : list (list R) -> option (list (list R)).

(** X19: [knnEvaluate] gives no number on an empty evaluation set (the
    mean of no hits is NaN), on query and truth arrays of different lengths
    above one (they do not broadcast), and as soon as one query index lies
    outside the square score matrix. *)
Theorem knnEvaluate_no_number (data : list (list R)) (query_eval item_eval : list nat) :
  HitRate.knnEvaluate rsub rzero rone rge score_fn data [] [] = None /\
  (length query_eval <> length item_eval ->
   1 < length query_eval -> 1 < length item_eval ->
   HitRate.knnEvaluate rsub rzero rone rge score_fn data query_eval item_eval = None) /\
  (forall s q,
     score_fn data = Some s -> length s = length data ->
     Forall (fun row => length row = length data) s ->
     q ∈ query_eval -> length data <= q ->
     HitRate.knnEvaluate rsub rzero rone rge score_fn data query_eval item_eval = None).
Proof.
  split; [|split].
  - unfold HitRate.knnEvaluate.
    destruct (score_fn data) as [s|]; cbn [mbind option_bind]; [|done].
    by destruct (Tensor.bcast _ s _).
  - intros Hne Hq Ht. unfold HitRate.knnEvaluate.
    destruct (score_fn data) as [s|]; cbn [mbind option_bind]; [|done].
    destruct (Tensor.bcast _ s _) as [scores|]; cbn [mbind option_bind]; [|done].
    assert (Tensor.bcast (HitRate.index2 scores) query_eval item_eval = None) as ->; [|done].
    unfold Tensor.bcast. rewrite decide_False by done.
    destruct query_eval as [|q1 [|q2 qs]]; cbn [length] in Hq; [lia..|].
    destruct item_eval as [|t1 [|t2 ts]]; cbn [length] in Ht; [lia..|]. done.
  - intros s q Hs Hlen Hrows Hq Hout. unfold HitRate.knnEvaluate.
    rewrite Hs. cbn [mbind option_bind].
    rewrite (HitRate.sub_diag_ones rsub rzero rone s (length data) Hlen Hrows).
    cbn [mbind option_bind].
    set (scores := zip_with (zip_with rsub) s (HitRate.diag_ones rzero rone (length data))).
    destruct (Tensor.bcast (HitRate.index2 scores) query_eval item_eval);
      cbn [mbind option_bind]; [|done].
    assert (Tensor.gather scores query_eval = None) as ->; [|done].
    apply mapM_None_2, Exists_exists. exists q. split; [done|].
    apply lookup_ge_None_2. subst scores.
    rewrite length_zip_with, HitRate.diag_ones_length. lia.
Qed.
End Edge.
End KnnEdge.

(** ** The further properties at concrete inputs *)

(** Three interactions drawn in the order 2, 0, 1, in batches of two. *)
Lemma init_batches_partition_witness :
  exists s, EdgeSampler.init 2 [2; 0; 1] = Some s /\
            concat (EdgeSampler.batches s) = [2; 0; 1].
Proof.
  destruct (EdgeSampler.init_batches_partition [(0, 1); (0, 2); (1, 1)] 2 [2; 0; 1]
              ltac:(lia)) as (s & Hs & _ & Hcat & _).
  exists s. split; [exact Hs|exact Hcat].
Defined.

Lemma init_batch_sizes_witness :
  0 < 2 /\ length [[2; 0]; [1]] = S ((length [2; 0; 1] - 1) / 2).
Proof.
  destruct (EdgeSampler.init_batch_sizes 2 [2; 0; 1]
              (EdgeSampler.mkSampler [[2; 0]; [1]] 0) ltac:(reflexivity))
    as (Hpos & Hlen & _).
  split; [exact Hpos|exact Hlen].
Defined.

(** The first batch of that sampler: the interactions 2 and 0. *)
Lemma next_batch_shape_witness :
  Tensor.gather [(0, 1); (0, 2); (1, 1)] [2; 0] = Some (zip [1; 0] [1; 1]).
Proof.
  destruct (EdgeSampler.next_batch_shape [(0, 1); (0, 2); (1, 1)] 2
              (fun k size => repeat 0 size)
              (EdgeSampler.mkSampler [[2; 0]; [1]] 0)
              (EdgeSampler.mkSampler [[2; 0]; [1]] 1)
              (EdgeSampler.mkBatch [1; 1] [1; 0] [[0; 0]; [0; 0]] [1; 1; 2] [1; 2])
              ltac:(reflexivity))
    as (_ & _ & (b & Hb & Hgather & _) & _).
  cbn in Hb. injection Hb as <-. exact Hgather.
Defined.

Lemma epoch_covers_every_interaction_witness :
  exists s outs,
    EdgeSampler.init 2 [1; 0; 2] = Some s /\
    EdgeSampler.iterate [(0, 1); (0, 2); (1, 1)] 2 (fun k size => repeat 0 size)
      (S (length (EdgeSampler.batches s))) s = Some outs /\
    length outs = length (EdgeSampler.batches s).
Proof.
  destruct (EdgeSampler.epoch_covers_every_interaction [(0, 1); (0, 2); (1, 1)] 2 2
              (fun k size => repeat 0 size) [1; 0; 2]
              ltac:(lia) ltac:(lia) ltac:(intros; apply repeat_length)
              ltac:(apply perm_swap))
    as (s & outs & Hs & Hit & Hlen & _).
  exists s, outs. split; [exact Hs|]. split; [exact Hit|exact Hlen].
Defined.

(** Three sessions of three, one and two stored items. *)
Lemma construct_edges_adjacent_witness :
  Retail.construct_edges [[3; 5; 7]; [4]; [1; 2]] = Some ([3; 5; 1], [5; 7; 2]).
Proof.
  destruct (Retail.construct_edges_adjacent [[3; 5; 7]; [4]; [1; 2]])
    as (query & truth & -> & -> & -> & _).
  reflexivity.
Defined.

(** Two negative edges over two nodes: the first is flagged and is an edge
    of the loss graph, the second is neither. *)
Lemma verify_neg_passes_iff_witness :
  Retail.verify_neg 3 (fun s d => (s =? 0) && (d =? 1)) [(0, 1); (1, 0)] [0; 1] [1; 0]%Z
  = Some tt /\
  (1%Z = 1%Z -> (0 =? 0) && (1 =? 1) = true).
Proof.
  split; [reflexivity|].
  destruct (proj1 (Retail.verify_neg_passes_iff 3 (fun s d => (s =? 0) && (d =? 1))
                     [(0, 1); (1, 0)] [0; 1] [1; 0]%Z
                     ltac:(reflexivity)
                     ltac:(repeat (constructor; [simpl; lia|]); constructor)
                     ltac:(repeat (constructor; [lia|]); constructor))
                  ltac:(reflexivity) 0 (0, 1) 0 1 1%Z
                  ltac:(reflexivity) ltac:(reflexivity) ltac:(reflexivity)
                  ltac:(reflexivity)) as [_ H].
  exact H.
Defined.

(** Five users whose test items have degrees 3, 0, 12, 150 and 12. *)
Lemma degree_buckets_count_witness :
  exists td d tmp,
    Popularity.test_deg [3; 0; 12; 150] [0; 1; 2; 3; 2] 5 = Some td /\
    Popularity.degree_cell [3; 0; 12; 150] [0; 1; 2; 3; 2] 5 = Some (d, tmp) /\
    tmp = length (filter (fun x => 1 <= x) td).
Proof.
  destruct (Popularity.degree_buckets_count [3; 0; 12; 150] [0; 1; 2; 3; 2] 5
              ltac:(simpl; lia)
              ltac:(repeat (constructor; [simpl; lia|]); constructor))
    as (td & d & tmp & Htd & Hcell & _ & _ & _ & _ & Htmp & _).
  exists td, d, tmp. split; [exact Htd|]. split; [exact Hcell|exact Htmp].
Defined.

(** A file of three lines, the second one blank. *)
Lemma load_txt_csr_entries_witness :
  Coverage.load_txt_csr true ["3 1.0 5 2.0"; ""; "4 1"] = Some [(0, 3); (0, 5); (2, 4)].
Proof.
  apply (proj2 (Coverage.load_txt_csr_entries true ["3 1.0 5 2.0"; ""; "4 1"]
                  [(0, 3); (0, 5); (2, 4)])).
  exists [[3; 5]; []; [4]]. split; [|split; [|split; [done|reflexivity]]].
  - repeat (constructor; [vm_compute; reflexivity|]). constructor.
  - repeat (constructor; [repeat (constructor; [vm_compute; reflexivity|]); constructor|]).
    constructor.
Defined.

Lemma load_txt_csr_row_order_witness :
  [(0, 3); (0, 5); (2, 4)] <> [] /\
  Forall (fun e : nat * nat => e.1 < 3) [(0, 3); (0, 5); (2, 4)].
Proof.
  destruct (Coverage.load_txt_csr_row_order true ["3 1.0 5 2.0"; ""; "4 1"]
              [(0, 3); (0, 5); (2, 4)] ltac:(vm_compute; reflexivity))
    as (Hne & Hrows & _).
  split; [exact Hne|exact Hrows].
Defined.

(** One context row and two target rows over three columns: both columns
    of the context are covered. *)
Lemma coverage_range_witness : (2 # 2 <= 1)%Q.
Proof.
  destruct (Coverage.coverage_range 3 [[1; 0; 1]] [[0; 0; 2]; [1; 0; 0]]
              ltac:(repeat (constructor; [reflexivity|]); constructor)
              ltac:(repeat (constructor; [reflexivity|]); constructor))
    as [_ Hq].
  destruct (Hq (2 # 2) ltac:(reflexivity)) as (_ & Hle & _). exact Hle.
Defined.

(** User 1 has no movie at all. *)
Lemma pick_test_needs_two_witness :
  Movielens.pick_test [(0, 1); (0, 2); (2, 3); (2, 4)] (fun _ => (0, 0)) = None.
Proof.
  apply (Split.pick_test_needs_two [(0, 1); (0, 2); (2, 3); (2, 4)] (fun _ => (0, 0)) 1).
  - vm_compute. lia.
  - vm_compute. lia.
Defined.

(** Two users with three and two movies. *)
Lemma pick_test_sorted_witness :
  exists train valid_set test_set,
    Movielens.pick_test [(0, 1); (0, 2); (0, 3); (1, 1); (1, 2)] (fun _ => (0, 0))
    = Some (train, valid_set, test_set) /\
    length train + 2 * 2 = 5.
Proof.
  destruct (Split.pick_test_sorted [(0, 1); (0, 2); (0, 3); (1, 1); (1, 2)]
              (fun _ => (0, 0))
              ltac:(apply Split.sorted_rowsb_spec; reflexivity)
              ltac:(apply (bool_decide_unpack _); vm_compute; reflexivity)
              ltac:(intros [|[|u]] Hu; vm_compute; vm_compute in Hu; lia)
              ltac:(simpl; lia))
    as (train & valid_set & test_set & Hpick & _ & _ & Hlen & _).
  exists train, valid_set, test_set. split; [exact Hpick|exact Hlen].
Defined.

Lemma split_negatives_disjoint_witness :
  Movielens.save_asserts [[4; 0]; [4; 0]]
    (Split.save_maps [(0, 3)] [1; 1] [2; 2]).1.1
    (Split.save_maps [(0, 3)] [1; 1] [2; 2]).1.2
    (Split.save_maps [(0, 3)] [1; 1] [2; 2]).2 = true.
Proof.
  apply (Split.split_negatives_disjoint [(0, 1); (0, 2); (0, 3); (1, 1); (1, 2)]
           (fun _ => (0, 0)) 6 (fun u k => [0; 4; 5; 3]) true (fun u => elements) 1 2).
  - apply Split.sorted_rowsb_spec. reflexivity.
  - apply (bool_decide_unpack _). vm_compute. reflexivity.
  - intros [|[|u]] Hu; vm_compute; vm_compute in Hu; lia.
  - intros user X. cbv beta. reflexivity.
  - vm_compute. reflexivity.
  - vm_compute. reflexivity.
Defined.

(** A file of one context and its prediction. *)
Lemma load_topk_pred_accepts_witness :
  Forall (TopKFile.line_ok 2) ["row 0 12 7"; "recommend 3 4"].
Proof.
  apply (proj1 (TopKFile.load_topk_pred_accepts ["row 0 12 7"; "recommend 3 4"] 2 10)).
  exists ([[12; 7]]%Z, [[3; 4]]%Z). vm_compute. reflexivity.
Defined.

(** A model of four layers from width 3 over width 5 to width 7. *)
Lemma init_layers_chain_witness :
  last (GraphSAGE.init_layers 3 5 7 4 tt tt tt)
  = Some (GraphSAGE.mkSAGEConv 5 7 tt tt (None : option unit)) /\
  GraphSAGE.conv_out_feats (GraphSAGE.mkSAGEConv 5 7 tt tt (None : option unit)) = 7%Z.
Proof.
  destruct (LayerShapes.init_layers_chain (Act:=unit) (Agg:=unit) (Drop:=unit)
              3 5 7 4 tt tt tt) as (_ & _ & Hlast & _).
  split; [reflexivity|]. apply Hlast. reflexivity.
Defined.

(** The first batch of the sampler above, rated over integer scalars. *)
Lemma sampler_batch_trains_witness :
  exists r r_neg,
    FISMRating.forward Z.add Z.sub Z.mul Z.div Z.pow 0%Z 1%Z (fun z => z) Z.max
      (fun i => [Z.of_nat i; 1%Z]) (fun i => [1%Z; Z.of_nat i])
      [10; 20]%Z [1; 2; 3; 4]%Z 1%Z
      [1; 1] [1; 0] (Some [[0; 0]; [0; 0]]) [1; 1; 2] [1; 2] false
    = Some (r, Some r_neg) /\
    length r = 2 /\ length r_neg = 2.
Proof.
  destruct (Pipeline.sampler_batch_trains Z.add Z.sub Z.mul Z.div Z.pow 0%Z 1%Z (-1)%Z
              (fun z => z) Z.max (fun x => Z.min x 0)
              (fun i => [Z.of_nat i; 1%Z]) (fun i => [1%Z; Z.of_nat i])
              [10; 20]%Z [1; 2; 3; 4]%Z 1%Z
              [(0, 1); (0, 2); (1, 1)] 2 2 (fun k size => repeat 0 size)
              (EdgeSampler.mkSampler [[2; 0]; [1]] 0)
              (EdgeSampler.mkSampler [[2; 0]; [1]] 1)
              (EdgeSampler.mkBatch [1; 1] [1; 0] [[0; 0]; [0; 0]] [1; 1; 2] [1; 2])
              ltac:(intros; reflexivity) ltac:(intros; reflexivity)
              ltac:(repeat (constructor; [simpl; lia|]); constructor)
              ltac:(intros k size; split; [apply repeat_length|];
                    apply Forall_forall; intros x Hx;
                    apply list_elem_of_In, repeat_spec in Hx; subst x; simpl; lia)
              ltac:(reflexivity) ltac:(simpl; lia))
    as (r & r_neg & Hf & Hr & Hn & _).
  exists r, r_neg. split; [exact Hf|]. split; [exact Hr|exact Hn].
Defined.

(** Two users evaluated against two negatives each. *)
Lemma evaluate_returns_witness :
  exists (rs : list Z) (negs : list (list Z)),
    FISMRating.forward Z.add Z.sub Z.mul Z.div Z.pow 0%Z 1%Z (fun z => z) Z.max
      (fun i => [Z.of_nat i; 1%Z]) (fun i => [1%Z; Z.of_nat i])
      [10; 20]%Z [1; 2; 3; 4]%Z 1%Z
      [2; 3] [0; 1] (Some [[3; 0]; [0; 1]]) [0; 1; 2] [2; 1] true
    = Some (rs, Some negs) /\
    Pipeline.evaluate Z.add Z.sub Z.mul Z.div Z.pow 0%Z 1%Z (fun z => z) Z.max Z.geb
      (fun i => [Z.of_nat i; 1%Z]) (fun i => [1%Z; Z.of_nat i])
      [10; 20]%Z [1; 2; 3; 4]%Z 1%Z
      [[0; 1]; [2]] 1 [0; 1] [2; 3] [[3; 0]; [0; 1]]
    = Some (Z.of_nat (Tensor.count_true (zip_with (HitRate.hit Z.geb 1) rs negs))
            # Pos.of_nat 2).
Proof.
  destruct (Pipeline.evaluate_returns Z.add Z.sub Z.mul Z.div Z.pow 0%Z 1%Z
              (fun z => z) Z.max Z.geb
              (fun i => [Z.of_nat i; 1%Z]) (fun i => [1%Z; Z.of_nat i])
              [10; 20]%Z [1; 2; 3; 4]%Z 1%Z
              [[0; 1]; [2]] 1 [0; 1] [2; 3] [[3; 0]; [0; 1]] 2 2
              ltac:(intros; reflexivity) ltac:(intros; reflexivity)
              ltac:(simpl; lia) ltac:(reflexivity)
              ltac:(repeat (constructor; [simpl; lia|]); constructor)
              ltac:(repeat (constructor; [simpl; lia|]); constructor)
              ltac:(lia)
              ltac:(repeat (constructor;
                      [split; [reflexivity|
                               repeat (constructor; [simpl; lia|]); constructor]|]);
                    constructor))
    as (neg_items & neighbors & rs & negs & hits & Hgn & Hgc & Hf & _ & _ & _ & -> & _
        & Heval & _).
  injection Hgn as <-. injection Hgc as <-.
  exists rs, negs. split; [exact Hf|exact Heval].
Defined.

(** A float feature and an integer feature, with integers standing for the
    tensors and the modules. *)
Lemma encode_forward_keys_witness :
  exists l,
    Encode.init (Value:=Encode.dtype * Z) (Module:=Z) fst
      (fun v => Some v.2) (fun v => Some (v.2 + 1)%Z)
      [("feats", (Encode.Float32, 3%Z)); ("id", (Encode.Int64, 5%Z))] = Some l /\
    Encode.forward (T:=Z) (Value:=Encode.dtype * Z) (Module:=Z) fst
      (fun m v => Some (m + v.2)%Z) (fun h e => Some (h + foldr Z.add 0 e)%Z) 0%Z l
      [("feats", (Encode.Float32, 3%Z)); ("id", (Encode.Int64, 5%Z))]
    <> Encode.KeyError "id".
Proof.
  eexists. split; [reflexivity|].
  apply (Encode.encode_forward_keys (T:=Z) (Value:=Encode.dtype * Z) (Module:=Z) fst
           (fun v => Some v.2) (fun v => Some (v.2 + 1)%Z)
           (fun m v => Some (m + v.2)%Z) (fun h e => Some (h + foldr Z.add 0 e)%Z) 0%Z
           [("feats", (Encode.Float32, 3%Z)); ("id", (Encode.Int64, 5%Z))]).
  reflexivity.
Defined.

(** Two items and a query for a sixth one. *)
Lemma knnEvaluate_no_number_witness :
  HitRate.knnEvaluate Z.sub 0%Z 1%Z Z.geb (HitRate.dot_score Z.add Z.mul 0%Z)
    [[1; 0]; [1; 1]]%Z [0; 5] [1; 0] = None.
Proof.
  destruct (KnnEdge.knnEvaluate_no_number Z.sub 0%Z 1%Z Z.geb
              (HitRate.dot_score Z.add Z.mul 0%Z) [[1; 0]; [1; 1]]%Z [0; 5] [1; 0])
    as (_ & _ & H).
  apply (H [[1; 1]; [1; 2]]%Z 5).
  - reflexivity.
  - reflexivity.
  - repeat (constructor; [reflexivity|]). constructor.
  - apply elem_of_cons. right. apply elem_of_cons. by left.
  - simpl. lia.
Defined.

(** Visitor 0 saw the items 7, 3 and 5 in this order. *)
Lemma construct_edges_by_item_id_witness :
  exists query truth,
    Retail.construct_edges_of [(0, 7); (0, 3); (1, 4); (0, 5)] = Some (query, truth) /\
    Forall2 (Retail.neighbours [(0, 7); (0, 3); (1, 4); (0, 5)]) query truth.
Proof.
  destruct (Retail.construct_edges_by_item_id [(0, 7); (0, 3); (1, 4); (0, 5)]
              ltac:(discriminate)) as (query & truth & Hc & Hn & _).
  exists query, truth. split; [exact Hc|exact Hn].
Defined.
